(** * PyImpact: a shallow embedding of the contact-sound engine

    The development follows [Python/tdw/add_ons/py_impact.py].  Python and
    numpy floating-point numbers are idealised as real numbers; where the
    code divides by a number that can be zero, the quotients are numpy's
    ([npfloat]: a real number, an infinity or nan).  Python
    integers are [Z], dictionaries that the code iterates are
    insertion-ordered association lists ([dict]) and dictionaries that are
    only ever indexed are [gmap]s.  Exceptions are results ([Raise]); a
    rejection-sampling loop that has not accepted a draw within the given
    fuel is [Diverge].

    Code that is imported from outside the file (numpy, scipy, pydub, the
    [tdw.physics_audio] and [tdw.collision_data] classes, the bundled data
    files, the operating system's entropy) is collected in the class
    [Externals]; the engine is parametric in it. *)

From Stdlib Require Import Reals Lra Lia ZArith Ascii String.
From stdpp Require Import gmap strings list pretty.

Open Scope R_scope.

(** ** Numbers *)

#[global] Instance Rlt_decision (x y : R) : Decision (x < y) := Rlt_dec x y.
#[global] Instance Req_decision : EqDecision R := Req_EM_T.

Definition vec3 : Type := R * R * R.

(** [np.floor], [np.ceil] and [int()] on a float. *)
Definition Rfloor (x : R) : Z := (up x - 1)%Z.
Definition Rceil (x : R) : Z := (- Rfloor (- x))%Z.
Definition Rtrunc (x : R) : Z := if decide (x < 0) then Rceil x else Rfloor x.

(** Python's [round(x, 3)]: the nearest multiple of 1/1000, ties to even. *)
Definition round_half_even (x : R) : Z :=
  let f := Rfloor x in
  let d := x - IZR f in
  if decide (d < 1 / 2) then f
  else if decide (1 / 2 < d) then (f + 1)%Z
  else if Z.even f then f else (f + 1)%Z.

Definition py_round3 (x : R) : R := IZR (round_half_even (x * 1000)) / 1000.

Definition Rsum (l : list R) : R := foldr Rplus 0 l.

(** [np.linalg.norm] of a 3-vector. *)
Definition norm3 (v : vec3) : R :=
  let '(x, y, z) := v in sqrt (x * x + y * y + z * z).

(** [np.max] on a non-empty array (the head is the seed of the fold). *)
Definition np_max (l : list R) : R :=
  match l with
  | [] => 0
  | x :: l' => foldl Rmax x l'
  end.
Definition np_min (l : list R) : R :=
  match l with
  | [] => 0
  | x :: l' => foldl Rmin x l'
  end.

(** The peak absolute value of a signal, [np.max(np.abs(x))]. *)
Definition peak (l : list R) : R := np_max (map Rabs l).

Definition log10 (x : R) : R := ln x / ln 10.

(** [np.linspace(start, stop, num)]. *)
Definition linspace (start stop : R) (num : nat) : list R :=
  match num with
  | 1%nat => [start]
  | _ => map (fun i => start + INR i * ((stop - start) / INR (num - 1))) (seq 0 num)
  end.

(** ** numpy floats

    A float of numpy is a real number, an infinity or nan.  Rounding and
    overflow are not modelled; the special values arise where the code
    divides by zero, which numpy does with a warning and without an
    exception (a zero counts as [+0.0]). *)
Inductive npfloat : Type :=
  | Finite (x : R)
  | PosInf
  | NegInf
  | NaN.

(** The infinity of the sign of a non-zero [x]. *)
Definition np_signed_inf (x : R) : npfloat := if decide (0 < x) then PosInf else NegInf.

Definition np_abs (a : npfloat) : npfloat :=
  match a with
  | Finite x => Finite (Rabs x)
  | PosInf | NegInf => PosInf
  | NaN => NaN
  end.

Definition np_add (a b : npfloat) : npfloat :=
  match a, b with
  | NaN, _ | _, NaN => NaN
  | Finite x, Finite y => Finite (x + y)
  | PosInf, NegInf | NegInf, PosInf => NaN
  | PosInf, _ | _, PosInf => PosInf
  | NegInf, _ | _, NegInf => NegInf
  end.

Definition np_mul (a b : npfloat) : npfloat :=
  match a, b with
  | NaN, _ | _, NaN => NaN
  | Finite x, Finite y => Finite (x * y)
  | Finite x, PosInf | PosInf, Finite x => if decide (x = 0) then NaN else np_signed_inf x
  | Finite x, NegInf | NegInf, Finite x => if decide (x = 0) then NaN else np_signed_inf (- x)
  | PosInf, PosInf | NegInf, NegInf => PosInf
  | PosInf, NegInf | NegInf, PosInf => NegInf
  end.

Definition np_div (a b : npfloat) : npfloat :=
  match a, b with
  | NaN, _ | _, NaN => NaN
  | Finite x, Finite y =>
      if decide (y = 0) then (if decide (x = 0) then NaN else np_signed_inf x)
      else Finite (x / y)
  | Finite _, (PosInf | NegInf) => Finite 0
  | (PosInf | NegInf), (PosInf | NegInf) => NaN
  | PosInf, Finite y => if decide (y < 0) then NegInf else PosInf
  | NegInf, Finite y => if decide (y < 0) then PosInf else NegInf
  end.

(** [a > b]: false when either is nan. *)
Definition np_gt (a b : npfloat) : bool :=
  match a, b with
  | NaN, _ | _, NaN => false
  | Finite x, Finite y => bool_decide (y < x)
  | PosInf, PosInf => false
  | PosInf, _ => true
  | _, PosInf => false
  | NegInf, _ => false
  | Finite _, NegInf => true
  end.

(** [a <= b]: false when either is nan. *)
Definition np_le (a b : npfloat) : bool :=
  match a, b with
  | NaN, _ | _, NaN => false
  | Finite x, Finite y => bool_decide (x <= y)
  | NegInf, _ => true
  | _, PosInf => true
  | _, _ => false
  end.

(** [np.maximum] and [np.max] on a non-empty array: a nan wins. *)
Definition np_maximum (a b : npfloat) : npfloat :=
  match a, b with
  | NaN, _ | _, NaN => NaN
  | _, _ => if np_gt b a then b else a
  end.

Definition np_amax (l : list npfloat) : npfloat :=
  match l with
  | [] => Finite 0
  | x :: l' => foldl np_maximum x l'
  end.

(** [np.clip(a, lo, hi)], [np.arccos] and [np.cos]. *)
Definition np_clip (a : npfloat) (lo hi : R) : npfloat :=
  match a with
  | Finite x => Finite (Rmax lo (Rmin x hi))
  | PosInf => Finite hi
  | NegInf => Finite lo
  | NaN => NaN
  end.

Definition np_arccos (a : npfloat) : npfloat :=
  match a with
  | Finite x => if decide (-1 <= x <= 1) then Finite (acos x) else NaN
  | _ => NaN
  end.

Definition np_cos (a : npfloat) : npfloat :=
  match a with
  | Finite x => Finite (cos x)
  | _ => NaN
  end.

(** [np.mean]: the mean of no value is [0 / 0]. *)
Definition np_sum (l : list npfloat) : npfloat := foldr np_add (Finite 0) l.
Definition np_mean (l : list npfloat) : npfloat :=
  np_div (np_sum l) (Finite (INR (length l))).

(** An array of reals divided by a scalar, [x / d]. *)
Definition np_divide_all (x : list R) (d : R) : list npfloat :=
  map (fun v => np_div (Finite v) (Finite d)) x.

(** [v / np.linalg.norm(v)] and [np.dot] on 3-vectors. *)
Definition np_vec3 : Type := npfloat * npfloat * npfloat.

Definition np_unit (v : vec3) : np_vec3 :=
  let '(x, y, z) := v in
  let n := Finite (norm3 v) in
  (np_div (Finite x) n, np_div (Finite y) n, np_div (Finite z) n).

Definition np_dot3 (a b : np_vec3) : npfloat :=
  let '(ax, ay, az) := a in
  let '(bx, by_, bz) := b in
  np_add (np_add (np_mul ax bx) (np_mul ay by_)) (np_mul az bz).

(** ** Exceptions and non-termination *)

(** The key reported by a [KeyError]. *)
Inductive py_key : Type :=
  | KInt (z : Z)
  | KNone
  | KStr (s : string)
  | KTuple (a b : py_key).

Definition key_of_id (x : option Z) : py_key :=
  match x with
  | Some z => KInt z
  | None => KNone
  end.

Inductive exn : Type :=
  | KeyError (k : py_key)
  | IndexError
  | ValueError
  | ZeroDivisionError
  | AssertionError.

Inductive outcome (A : Type) : Type :=
  | Done (a : A)
  | Raise (e : exn)
  | Diverge.
Arguments Done {A} a.
Arguments Raise {A} e.
Arguments Diverge {A}.

#[global] Instance outcome_ret : MRet outcome := fun _ a => Done a.
#[global] Instance outcome_bind : MBind outcome := fun _ _ f m =>
  match m with
  | Done a => f a
  | Raise e => Raise e
  | Diverge => Diverge
  end.

(** A left-to-right loop whose body may raise. *)
Fixpoint for_each {A S : Type} (body : S -> A -> outcome S) (s : S) (l : list A) : outcome S :=
  match l with
  | [] => Done s
  | a :: l' => s' ← body s a; for_each body s' l'
  end.

(** ** Insertion-ordered dictionaries *)

Module PyDict.
Section Dict.
Context {K V : Type} `{EqDecision K}.

Definition dict : Type := list (K * V).

Fixpoint dget (k : K) (d : dict) : option V :=
  match d with
  | [] => None
  | (k', v) :: d' => if decide (k = k') then Some v else dget k d'
  end.

(** [d[k] = v]: an existing key keeps its position, a new key goes last. *)
Fixpoint dset (k : K) (v : V) (d : dict) : dict :=
  match d with
  | [] => [(k, v)]
  | (k', v') :: d' => if decide (k = k') then (k, v) :: d' else (k', v') :: dset k v d'
  end.

Definition dkeys (d : dict) : list K := map fst d.
Definition dvalues (d : dict) : list V := map snd d.
Definition dmem (k : K) (d : dict) : bool := bool_decide (is_Some (dget k d)).

(** [d[k]] as an expression. *)
Definition dindex (key : K -> py_key) (k : K) (d : dict) : outcome V :=
  match dget k d with
  | Some v => Done v
  | None => Raise (KeyError (key k))
  end.
End Dict.
Arguments dict : clear implicits.
End PyDict.
Export PyDict.

(** Indexing a [gmap] that the code treats as a dictionary. *)
Definition mindex `{Countable K} {V : Type} (key : K -> py_key) (k : K) (m : gmap K V) : outcome V :=
  match m !! k with
  | Some v => Done v
  | None => Raise (KeyError (key k))
  end.

(** ** Data model *)

Inductive AudioMaterial : Type :=
  | ceramic | wood_hard | wood_medium | wood_soft | metal | glass | paper
  | cardboard | leather | fabric | plastic_hard | plastic_soft_foam | rubber | stone.

#[global] Instance AudioMaterial_eq_dec : EqDecision AudioMaterial.
Proof. solve_decision. Defined.

Definition material_name (m : AudioMaterial) : string :=
  match m with
  | ceramic => "ceramic" | wood_hard => "wood_hard" | wood_medium => "wood_medium"
  | wood_soft => "wood_soft" | metal => "metal" | glass => "glass" | paper => "paper"
  | cardboard => "cardboard" | leather => "leather" | fabric => "fabric"
  | plastic_hard => "plastic_hard" | plastic_soft_foam => "plastic_soft_foam"
  | rubber => "rubber" | stone => "stone"
  end.

(** [ObjectAudioStatic]. *)
Record ObjectAudioStatic : Type := mkObjectAudioStatic {
  oas_name : string;
  oas_amp : R;
  oas_mass : R;
  oas_material : AudioMaterial;
  oas_bounciness : R;
  oas_resonance : R;
  oas_size : Z;
  oas_object_id : Z
}.

(** [Modes]: three parallel arrays. *)
Record Modes : Type := mkModes {
  frequencies : list R;
  powers : list R;
  decay_times : list R
}.

(** One entry of [material_data]: the [cf], [op] and [rt] arrays of a file. *)
Record ModeData : Type := mkModeData {
  md_cf : list R;
  md_op : list R;
  md_rt : list R
}.

(** [CollisionAudioInfo]. *)
Record CollisionAudioInfo : Type := mkCollisionAudioInfo {
  obj1_modes : Modes;
  obj2_modes : Modes;
  cai_amp : R;
  init_speed : npfloat;
  cai_count : Z
}.

Inductive CollisionAudioType : Type := impact | scrape | roll | none.

#[global] Instance CollisionAudioType_eq_dec : EqDecision CollisionAudioType.
Proof. solve_decision. Defined.

Record Rigidbody : Type := mkRigidbody {
  rb_velocity : vec3;
  rb_angular_velocity : vec3;
  rb_sleeping : bool
}.

(** The two collision records of the telemetry. *)
Record Collision : Type := mkCollision {
  collider_id : Z;
  collidee_id : Z;
  coll_state : string;
  coll_points : list vec3;
  coll_normals : list vec3;
  coll_relative_velocity : vec3
}.

Record EnvironmentCollision : Type := mkEnvironmentCollision {
  env_object_id : Z;
  env_state : string;
  env_points : list vec3;
  env_normals : list vec3;
  env_floor : bool
}.

Definition collision_points (c : Collision + EnvironmentCollision) : list vec3 :=
  match c with inl c => coll_points c | inr c => env_points c end.
Definition collision_normals (c : Collision + EnvironmentCollision) : list vec3 :=
  match c with inl c => coll_normals c | inr c => env_normals c end.

(** [CollisionAudioEvent]. *)
Record CollisionAudioEvent : Type := mkCollisionAudioEvent {
  ev_collision : Collision + EnvironmentCollision;
  primary_id : Z;
  secondary_id : option Z;
  collision_type : CollisionAudioType;
  ev_velocity : vec3;
  magnitude : R;
  area : R
}.

(** One element of [resp], already decoded by [OutputData]. *)
Inductive OutputData : Type :=
  | Rigi (bodies : list (Z * Rigidbody))
  | Rojv (joints : list (Z * Rigidbody))
  | Coll (c : Collision)
  | Enco (c : EnvironmentCollision)
  | Segm (objects : list (Z * string * string))
  | Srob (joints : list (Z * string * R))
  | Srig (bodies : list (Z * R * R))
  | OtherData.

(** [Base64Sound]. *)
Record Base64Sound : Type := mkBase64Sound {
  wav_str : string;
  snd_length : Z;
  snd_bytes : list Z
}.

(** A [play_audio_data] or [play_point_source_data] command. *)
Record Command : Type := mkCommand {
  cmd_type : string;
  cmd_id : Z;
  cmd_position : vec3;
  cmd_num_frames : Z;
  cmd_num_channels : Z;
  cmd_frame_rate : Z;
  cmd_wav_data : string;
  cmd_y_pos_offset : R
}.

(** One entry of the mode-properties log written by [log_modes]. *)
Record ModeProps : Type := mkModeProps {
  mp_modes_count : Z;
  mp_other_id : Z;
  mp_target_id : option Z;
  mp_amp : npfloat;
  mp_other_material : string;
  mp_target_material : string;
  mp_modes_1 : Modes;
  mp_modes_2 : Modes
}.

(** ** The engine's state *)

(** The key of the scrape dictionaries: the primary and the secondary id. *)
Abbreviation scrape_key := (Z * option Z)%type.

Section State.
Context {Segment : Type}.

Record PyImpact : Type := mkPyImpact {
  initial_amp : R;
  prevent_distortion : bool;
  logging : bool;
  object_modes : gmap (option Z) (gmap Z CollisionAudioInfo);
  resonance_audio : bool;
  floor : AudioMaterial;
  material_data : gmap string ModeData;
  mode_properties_log : gmap string ModeProps;
  static_audio_data_overrides : gmap string ObjectAudioStatic;
  collision_events : dict Z CollisionAudioEvent;
  cached_audio_info : bool;
  static_audio_data : dict Z ObjectAudioStatic;
  scrape_summed_masters : gmap scrape_key Segment;
  scrape_previous_index : Z;
  scrape_start_velocities : gmap scrape_key R;
  scrape_events_count : gmap scrape_key Z;
  initialized : bool
}.

Definition set_object_modes (v : gmap (option Z) (gmap Z CollisionAudioInfo)) (e : PyImpact) : PyImpact :=
  mkPyImpact (initial_amp e) (prevent_distortion e) (logging e) v (resonance_audio e)
    (floor e) (material_data e) (mode_properties_log e) (static_audio_data_overrides e)
    (collision_events e) (cached_audio_info e) (static_audio_data e)
    (scrape_summed_masters e) (scrape_previous_index e) (scrape_start_velocities e)
    (scrape_events_count e) (initialized e).

Definition set_mode_properties_log (v : gmap string ModeProps) (e : PyImpact) : PyImpact :=
  mkPyImpact (initial_amp e) (prevent_distortion e) (logging e) (object_modes e)
    (resonance_audio e) (floor e) (material_data e) v (static_audio_data_overrides e)
    (collision_events e) (cached_audio_info e) (static_audio_data e)
    (scrape_summed_masters e) (scrape_previous_index e) (scrape_start_velocities e)
    (scrape_events_count e) (initialized e).

Definition set_collision_events (v : dict Z CollisionAudioEvent) (e : PyImpact) : PyImpact :=
  mkPyImpact (initial_amp e) (prevent_distortion e) (logging e) (object_modes e)
    (resonance_audio e) (floor e) (material_data e) (mode_properties_log e)
    (static_audio_data_overrides e) v (cached_audio_info e) (static_audio_data e)
    (scrape_summed_masters e) (scrape_previous_index e) (scrape_start_velocities e)
    (scrape_events_count e) (initialized e).

Definition set_cached_audio_info (v : bool) (e : PyImpact) : PyImpact :=
  mkPyImpact (initial_amp e) (prevent_distortion e) (logging e) (object_modes e)
    (resonance_audio e) (floor e) (material_data e) (mode_properties_log e)
    (static_audio_data_overrides e) (collision_events e) v (static_audio_data e)
    (scrape_summed_masters e) (scrape_previous_index e) (scrape_start_velocities e)
    (scrape_events_count e) (initialized e).

(** The registry and the override table change together while static data
    is cached. *)
Definition set_static_audio (ov : gmap string ObjectAudioStatic)
    (v : dict Z ObjectAudioStatic) (e : PyImpact) : PyImpact :=
  mkPyImpact (initial_amp e) (prevent_distortion e) (logging e) (object_modes e)
    (resonance_audio e) (floor e) (material_data e) (mode_properties_log e)
    ov (collision_events e) (cached_audio_info e) v
    (scrape_summed_masters e) (scrape_previous_index e) (scrape_start_velocities e)
    (scrape_events_count e) (initialized e).

(** The four pieces of scrape state. *)
Definition set_scrape (masters : gmap scrape_key Segment) (index : Z)
    (velocities : gmap scrape_key R) (counts : gmap scrape_key Z) (e : PyImpact) : PyImpact :=
  mkPyImpact (initial_amp e) (prevent_distortion e) (logging e) (object_modes e)
    (resonance_audio e) (floor e) (material_data e) (mode_properties_log e)
    (static_audio_data_overrides e) (collision_events e) (cached_audio_info e)
    (static_audio_data e) masters index velocities counts (initialized e).

(** ** [reset] *)

Definition valid_initial_amp (a : R) : bool :=
  bool_decide (0 < a) && bool_decide (a < 1).

Definition reset (e : PyImpact) (initial_amp_arg : R) : outcome PyImpact :=
  if valid_initial_amp initial_amp_arg then
    Done {| initial_amp := initial_amp e;
            prevent_distortion := prevent_distortion e;
            logging := logging e;
            object_modes := ∅;
            resonance_audio := resonance_audio e;
            floor := floor e;
            material_data := material_data e;
            mode_properties_log := mode_properties_log e;
            static_audio_data_overrides := static_audio_data_overrides e;
            collision_events := [];
            cached_audio_info := false;
            static_audio_data := [];
            scrape_summed_masters := ∅;
            scrape_previous_index := 0;
            scrape_start_velocities := ∅;
            scrape_events_count := ∅;
            initialized := false |}
  else Raise AssertionError.
End State.
Arguments PyImpact : clear implicits.

(** ** Imported code, data files and the environment *)

Class Externals : Type := {
  (** numpy's process-wide generator: [np.random.normal(loc, scale)]. *)
  RandomState : Type;
  np_random_normal : R -> R -> RandomState -> R * RandomState;
  (** The operating system's entropy: [os.urandom(3)]. *)
  Entropy : Type;
  os_urandom3 : Entropy -> (Z * Z * Z) * Entropy;
  (** [tdw.physics_audio]. *)
  Modes_sum_modes : Modes -> R -> list R;
  CollisionAudioEvent_init :
    Collision + EnvironmentCollision -> ObjectAudioStatic -> Rigidbody ->
    option ObjectAudioStatic -> option Rigidbody -> dict Z R -> CollisionAudioEvent;
  Base64Sound_init : list npfloat -> Base64Sound;
  (** The bundled data files. *)
  material_file : string -> ModeData;
  objects_csv : list ObjectAudioStatic;
  scrape_surface_npy : list R;
  (** numpy and scipy. *)
  np_interp : list R -> list R -> list R -> list R;
  gaussian_filter1d : list R -> R -> list R;
  (** pydub's immutable [AudioSegment]. *)
  AudioSegment : Type;
  seg_silent : Z -> AudioSegment;
  seg_of_floats : list npfloat -> AudioSegment;
  seg_of_ints : list Z -> AudioSegment;
  seg_apply_gain : AudioSegment -> R -> AudioSegment;
  seg_fade_in : AudioSegment -> Z -> AudioSegment;
  seg_fade_out : AudioSegment -> Z -> AudioSegment;
  seg_get_array_of_samples : AudioSegment -> list Z;
  seg_add : AudioSegment -> AudioSegment -> AudioSegment;
  seg_mul : AudioSegment -> Z -> AudioSegment;
  seg_overlay : AudioSegment -> AudioSegment -> AudioSegment;
  seg_len : AudioSegment -> Z;
  seg_slice : AudioSegment -> option Z -> option Z -> AudioSegment;
  seg_raw_data : AudioSegment -> list Z;
  b64encode : list Z -> string;
  (** The iteration order of [set(materials)]. *)
  set_iter : list AudioMaterial -> list AudioMaterial
}.

(** [str.lower] on ASCII text. *)
Definition ascii_lower (c : ascii) : ascii :=
  let n := nat_of_ascii c in
  if ((65 <=? n)%nat && (n <=? 90)%nat)%bool then ascii_of_nat (n + 32) else c.

Fixpoint str_lower (s : string) : string :=
  match s with
  | EmptyString => EmptyString
  | String c s' => String (ascii_lower c) (str_lower s')
  end.

(** [str(x)] for an optional id. *)
Definition str_id (x : option Z) : string :=
  match x with
  | Some z => pretty z
  | None => "None"
  end.

(** ** Class constants *)

Definition SAMPLE_RATE : Z := 44100.
Definition CHANNELS : Z := 1.
Definition SCRAPE_SAMPLE_WIDTH : Z := 2.
Definition SCRAPE_MAX_VELOCITY : R := 5.
Definition SCRAPE_M_PER_PIXEL : R := 1394.068 * / 1000000000.
Definition SCRAPE_TARGET_DBFS : R := -20.
Definition DEFAULT_AMP : R := 0.2.
Definition DEFAULT_MATERIAL : AudioMaterial := plastic_hard.
Definition DEFAULT_RESONANCE : R := 0.45.
Definition DEFAULT_SIZE : Z := 1.
Definition ROBOT_JOINT_BOUNCINESS : R := 0.6.
Definition ROBOT_JOINT_MATERIAL : AudioMaterial := metal.
Definition FLOOR_AMP : R := 0.5.
Definition FLOOR_SIZE : Z := 4.
Definition FLOOR_MASS : R := 100.

Definition material_list : list string :=
  ["ceramic"; "wood_hard"; "wood_medium"; "wood_soft"; "metal"; "glass"; "paper";
   "cardboard"; "leather"; "fabric"; "plastic_hard"; "plastic_soft_foam"; "rubber";
   "stone"]%string.

Section Engine.
Context {ext : Externals}.

(** [SCRAPE_SURFACE]: the profile appended to itself. *)
Definition SCRAPE_SURFACE : list R := scrape_surface_npy ++ scrape_surface_npy.

(** [SILENCE_50MS]. *)
Definition SILENCE_50MS : AudioSegment := seg_silent 50.

(** The 14 x 6 material files, keyed by ["{material}_{size}"]. *)
Definition load_material_data : gmap string ModeData :=
  foldl (fun acc mat =>
           foldl (fun acc i =>
                    let mat_name := (mat +:+ "_" +:+ pretty i)%string in
                    <[mat_name := material_file (mat_name +:+ "_mm")%string]> acc)
                 acc [0; 1; 2; 3; 4; 5]%Z)
        ∅ material_list.

Definition PyImpact_init (initial_amp_arg : R) (prevent_distortion_arg logging_arg : bool)
    (static_audio_data_overrides_arg : option (gmap string ObjectAudioStatic))
    (resonance_audio_arg : bool) (floor_arg : AudioMaterial) : outcome (PyImpact AudioSegment) :=
  if valid_initial_amp initial_amp_arg then
    Done {| initial_amp := initial_amp_arg;
            prevent_distortion := prevent_distortion_arg;
            logging := logging_arg;
            object_modes := ∅;
            resonance_audio := resonance_audio_arg;
            floor := floor_arg;
            material_data := load_material_data;
            mode_properties_log := ∅;
            static_audio_data_overrides := default ∅ static_audio_data_overrides_arg;
            collision_events := [];
            cached_audio_info := false;
            static_audio_data := [];
            scrape_summed_masters := ∅;
            scrape_previous_index := 0;
            scrape_start_velocities := ∅;
            scrape_events_count := ∅;
            initialized := false |}
  else Raise AssertionError.

(** [_get_floor_material_name]. *)
Definition get_floor_material_name (e : PyImpact AudioSegment) : string :=
  (material_name (floor e) +:+ "_" +:+ pretty FLOOR_SIZE)%string.

(** ** [_get_collision_types] *)

(** [range(len(resp) - 1)]: every element of the response but the last. *)
Definition frame_records (resp : list OutputData) : list OutputData :=
  take (length resp - 1) resp.

(** The first loop: the rigidbody and robot-joint velocities of the frame. *)
Definition read_rigidbody_data (resp : list OutputData) : gmap Z Rigidbody :=
  foldl (fun acc r =>
           match r with
           | Rigi bodies | Rojv bodies => foldl (fun acc '(i, b) => <[i := b]> acc) acc bodies
           | _ => acc
           end)
        ∅ (frame_records resp).

(** [previous_areas = {k: v.area for k, v in self._collision_events.items()}]. *)
Definition get_previous_areas (events : dict Z CollisionAudioEvent) : dict Z R :=
  map (fun '(k, v) => (k, area v)) events.

(** The event built for one collision record; [None] for other records. *)
Definition record_event (statics : dict Z ObjectAudioStatic) (rigidbody_data : gmap Z Rigidbody)
    (previous_areas : dict Z R) (r : OutputData) : outcome (option CollisionAudioEvent) :=
  match r with
  | Coll c =>
      s0 ← dindex KInt (collider_id c) statics;
      d0 ← mindex KInt (collider_id c) rigidbody_data;
      s1 ← dindex KInt (collidee_id c) statics;
      d1 ← mindex KInt (collidee_id c) rigidbody_data;
      Done (Some (CollisionAudioEvent_init (inl c) s0 d0 (Some s1) (Some d1) previous_areas))
  | Enco c =>
      s0 ← dindex KInt (env_object_id c) statics;
      d0 ← mindex KInt (env_object_id c) rigidbody_data;
      Done (Some (CollisionAudioEvent_init (inr c) s0 d0 None None previous_areas))
  | _ => Done None
  end.

(** Filing an event under its primary id. *)
Definition add_event (per_object : dict Z (list CollisionAudioEvent)) (event : CollisionAudioEvent)
    : dict Z (list CollisionAudioEvent) :=
  let per_object :=
    if dmem (primary_id event) per_object then per_object
    else dset (primary_id event) [] per_object in
  dset (primary_id event) (default [] (dget (primary_id event) per_object) ++ [event]) per_object.

(** The second loop. *)
Definition collect_events (statics : dict Z ObjectAudioStatic) (rigidbody_data : gmap Z Rigidbody)
    (previous_areas : dict Z R) (resp : list OutputData)
    : outcome (dict Z (list CollisionAudioEvent)) :=
  for_each (fun per_object r =>
              oe ← record_event statics rigidbody_data previous_areas r;
              Done (match oe with
                    | Some event => add_event per_object event
                    | None => per_object
                    end))
           [] (frame_records resp).

Definition significant (e : CollisionAudioEvent) : bool :=
  bool_decide (0 < magnitude e) && bool_decide (collision_type e <> none).

(** [max(events, key=lambda x: x.magnitude)]: the first of the largest. *)
Definition max_magnitude (first : CollisionAudioEvent) (others : list CollisionAudioEvent)
    : CollisionAudioEvent :=
  foldl (fun best e => if decide (magnitude best < magnitude e) then e else best) first others.

(** The third loop. *)
Definition select_significant (per_object : dict Z (list CollisionAudioEvent))
    : dict Z CollisionAudioEvent :=
  foldl (fun acc '(_, candidates) =>
           match filter (fun e => significant e = true) candidates with
           | [] => acc
           | first :: others =>
               let event := max_magnitude first others in
               dset (primary_id event) event acc
           end)
        [] per_object.

Definition get_collision_types (e : PyImpact AudioSegment) (resp : list OutputData) : outcome (PyImpact AudioSegment) :=
  let previous_areas := get_previous_areas (collision_events e) in
  let rigidbody_data := read_rigidbody_data resp in
  per_object ← collect_events (static_audio_data e) rigidbody_data previous_areas resp;
  Done (set_collision_events (select_significant per_object) e).

(** ** [get_static_audio_data] and [_cache_static_data] *)

(** The catalog: the rows of [objects.csv] by name, a later row replacing
    an earlier one of the same name. *)
Definition get_static_audio_data : gmap string ObjectAudioStatic :=
  foldl (fun acc o => <[oas_name o := o]> acc) ∅ objects_csv.

(** What the first loop of [_cache_static_data] reads from the response. *)
Record StaticInputs : Type := mkStaticInputs {
  si_names : dict Z string;
  si_categories : dict Z string;
  si_robot_joints : dict Z (string * R);
  si_object_masses : dict Z R;
  si_object_bouncinesses : dict Z R
}.

Definition read_static_data (resp : list OutputData) : StaticInputs :=
  foldl (fun acc r =>
           match r with
           | Segm objects =>
               foldl (fun acc '(object_id, name, category) =>
                        mkStaticInputs (dset object_id (str_lower name) (si_names acc))
                          (dset object_id category (si_categories acc))
                          (si_robot_joints acc) (si_object_masses acc)
                          (si_object_bouncinesses acc))
                     acc objects
           | Srob joints =>
               foldl (fun acc '(joint_id, name, mass) =>
                        mkStaticInputs (si_names acc) (si_categories acc)
                          (dset joint_id (name, mass) (si_robot_joints acc))
                          (si_object_masses acc) (si_object_bouncinesses acc))
                     acc joints
           | Srig bodies =>
               foldl (fun acc '(object_id, mass, bounciness) =>
                        mkStaticInputs (si_names acc) (si_categories acc) (si_robot_joints acc)
                          (dset object_id mass (si_object_masses acc))
                          (dset object_id bounciness (si_object_bouncinesses acc)))
                     acc bodies
           | _ => acc
           end)
        (mkStaticInputs [] [] [] [] []) (frame_records resp).

(** An entry of the registry is a reference: to an object of the override
    table, to an object of the catalog, or to an object of its own.  Two
    scene objects of one name share the table's object, and the later
    writes to its [mass] and [object_id] are seen through both. *)
Inductive audio_ref : Type :=
  | RefOverride (name : string)
  | RefDefault (name : string)
  | RefOwned (o : ObjectAudioStatic).

Definition deref (overrides defaults : gmap string ObjectAudioStatic) (r : audio_ref)
    : option ObjectAudioStatic :=
  match r with
  | RefOverride name => overrides !! name
  | RefDefault name => defaults !! name
  | RefOwned o => Some o
  end.

Definition rebind (mass : R) (object_id : Z) (o : ObjectAudioStatic) : ObjectAudioStatic :=
  mkObjectAudioStatic (oas_name o) (oas_amp o) mass (oas_material o) (oas_bounciness o)
    (oas_resonance o) (oas_size o) object_id.

Record ResolveState : Type := mkResolveState {
  rs_overrides : gmap string ObjectAudioStatic;
  rs_defaults : gmap string ObjectAudioStatic;
  rs_static : dict Z audio_ref;
  rs_need_to_derive : list Z
}.

(** The body of [for object_id in names]. *)
Definition resolve_object (object_masses : dict Z R) (st : ResolveState)
    (entry : Z * string) : outcome ResolveState :=
  let '(object_id, name) := entry in
  if bool_decide (is_Some (rs_overrides st !! name)) then
    mass ← dindex KInt object_id object_masses;
    Done (mkResolveState (alter (rebind mass object_id) name (rs_overrides st))
            (rs_defaults st) (dset object_id (RefOverride name) (rs_static st))
            (rs_need_to_derive st))
  else if bool_decide (is_Some (rs_defaults st !! name)) then
    mass ← dindex KInt object_id object_masses;
    Done (mkResolveState (rs_overrides st)
            (alter (rebind mass object_id) name (rs_defaults st))
            (dset object_id (RefDefault name) (rs_static st))
            (rs_need_to_derive st))
  else
    Done (mkResolveState (rs_overrides st) (rs_defaults st) (rs_static st)
            (rs_need_to_derive st ++ [object_id])).

(** [self.static_audio_data.values()], read through the references. *)
Definition resolve_values (st : ResolveState) : list ObjectAudioStatic :=
  omap (fun '(_, r) => deref (rs_overrides st) (rs_defaults st) r) (rs_static st).

Definition resolve_registry (st : ResolveState) : dict Z ObjectAudioStatic :=
  omap (fun '(k, r) => pair k <$> deref (rs_overrides st) (rs_defaults st) r) (rs_static st).

(** [max(set(materials), key=materials.count)]. *)
Definition material_count (materials : list AudioMaterial) (m : AudioMaterial) : nat :=
  length (filter (fun x => x = m) materials).

Definition material_mode (materials : list AudioMaterial) : outcome AudioMaterial :=
  match set_iter materials with
  | [] => Raise ValueError
  | m :: ms =>
      Done (foldl (fun best x =>
                     if (material_count materials best <? material_count materials x)%nat
                     then x else best) m ms)
  end.

(** The four lists gathered for one object to derive. *)
Definition peers : Type := list R * list AudioMaterial * list R * list Z.

Definition peers_of_values (values : list ObjectAudioStatic) : peers :=
  (map oas_amp values, map oas_material values, map oas_resonance values, map oas_size values).

(** The loop [for m_id in object_masses] of the similar-mass fallback. *)
Definition mass_neighbours (object_masses : dict Z R) (registry : dict Z ObjectAudioStatic)
    (object_id : Z) : outcome peers :=
  for_each (fun '(amps, materials, resonances, sizes) '(m_id, m_mass) =>
              if bool_decide (m_id = object_id) || negb (dmem m_id registry)
              then Done (amps, materials, resonances, sizes)
              else
                mass ← dindex KInt object_id object_masses;
                if decide (mass = 0) then Raise ZeroDivisionError
                else if decide (Rabs (m_mass / mass) < 1.5) then
                  o ← dindex KInt m_id registry;
                  Done (amps ++ [oas_amp o], materials ++ [oas_material o],
                        resonances ++ [oas_resonance o], sizes ++ [oas_size o])
                else Done (amps, materials, resonances, sizes))
           ([], [], [], []) object_masses.

(** The amp, material, resonance and size derived from the gathered lists. *)
Definition derive_values (p : peers) : outcome (R * AudioMaterial * R * Z) :=
  let '(amps, materials, resonances, sizes) := p in
  match amps with
  | [] => Done (DEFAULT_AMP, DEFAULT_MATERIAL, DEFAULT_RESONANCE, DEFAULT_SIZE)
  | _ =>
      material ← material_mode materials;
      Done (py_round3 (Rsum amps / INR (length amps)),
            material,
            py_round3 (Rsum resonances / INR (length resonances)),
            Z.quot (foldr Z.add 0%Z sizes) (Z.of_nat (length sizes)))
  end.

(** The body of [for object_id in need_to_derive]. *)
Definition derive_object (inputs : StaticInputs) (current_values : list ObjectAudioStatic)
    (registry : dict Z ObjectAudioStatic) (derived_data : dict Z ObjectAudioStatic)
    (object_id : Z) : outcome (dict Z ObjectAudioStatic) :=
  objects_in_same_category ←
    for_each (fun acc '(o, category_o) =>
                category ← dindex KInt object_id (si_categories inputs);
                Done (if decide (category_o = category) then acc ++ [o] else acc))
             [] (si_categories inputs);
  p ← (if (0 <? length objects_in_same_category)%nat
       then Done (peers_of_values current_values)
       else mass_neighbours (si_object_masses inputs) registry object_id);
  '(amp, material, resonance, size) ← derive_values p;
  name ← dindex KInt object_id (si_names inputs);
  mass ← dindex KInt object_id (si_object_masses inputs);
  bounciness ← dindex KInt object_id (si_object_bouncinesses inputs);
  Done (dset object_id
          (mkObjectAudioStatic name amp mass material bounciness resonance size object_id)
          derived_data).

Definition robot_joint_audio (joint_id : Z) (joint : string * R) : ObjectAudioStatic :=
  mkObjectAudioStatic (fst joint) DEFAULT_AMP (snd joint) ROBOT_JOINT_MATERIAL
    ROBOT_JOINT_BOUNCINESS DEFAULT_RESONANCE DEFAULT_SIZE joint_id.

Definition cache_static_data (e : PyImpact AudioSegment) (resp : list OutputData) : outcome (PyImpact AudioSegment) :=
  let inputs := read_static_data resp in
  st ← for_each (resolve_object (si_object_masses inputs))
         (mkResolveState (static_audio_data_overrides e) get_static_audio_data
            (map (fun '(k, o) => (k, RefOwned o)) (static_audio_data e)) [])
         (si_names inputs);
  let current_values := resolve_values st in
  let registry := resolve_registry st in
  derived_data ← for_each (derive_object inputs current_values registry) []
                   (rs_need_to_derive st);
  let registry := foldl (fun acc '(object_id, o) => dset object_id o acc) registry derived_data in
  let registry :=
    foldl (fun acc '(joint_id, joint) => dset joint_id (robot_joint_audio joint_id joint) acc)
          registry (si_robot_joints inputs) in
  Done (set_static_audio (rs_overrides st) registry e).

(** ** Modal synthesis *)

(** [np.random.normal(loc, scale)]; numpy rejects a negative scale. *)
Definition random_normal (loc scale : R) (g : RandomState) : outcome (R * RandomState) :=
  if decide (scale < 0) then Raise ValueError else Done (np_random_normal loc scale g).

(** [np.random.normal(loc, scale, n)]: [n] successive draws. *)
Fixpoint normal_vector (loc scale : R) (n : nat) (g : RandomState) : list R * RandomState :=
  match n with
  | O => ([], g)
  | S n' =>
      let '(x, g') := np_random_normal loc scale g in
      let '(xs, g'') := normal_vector loc scale n' g' in
      (x :: xs, g'')
  end.

Definition list_index (l : list R) (i : nat) : outcome R :=
  match l !! i with
  | Some x => Done x
  | None => Raise IndexError
  end.

(** [j = 0; while j < bound: j = center + np.random.normal(0, center / 10)].
    The initial 0 is below both bounds used, so the body runs at least
    once; [fuel] bounds the number of draws. *)
Fixpoint sample_at_least (fuel : nat) (bound center : R) (g : RandomState)
    : outcome (R * RandomState) :=
  match fuel with
  | O => Diverge
  | S fuel' =>
      '(x, g') ← random_normal 0 (center / 10) g;
      let j := center + x in
      if decide (j < bound) then sample_at_least fuel' bound center g' else Done (j, g')
  end.

(** The body of [for jm in range(0, 10)]. *)
Definition sample_mode (fuel : nat) (data : ModeData)
    (acc : list R * list R * list R * RandomState) (jm : nat)
    : outcome (list R * list R * list R * RandomState) :=
  let '(f, p, t, g) := acc in
  cf ← list_index (md_cf data) jm;
  '(jf, g) ← sample_at_least fuel 20 cf g;
  op ← list_index (md_op data) jm;
  '(x, g) ← random_normal 0 10 g;
  let jp := op + x in
  rt ← list_index (md_rt data) jm;
  '(jt, g) ← sample_at_least fuel 0.001 rt g;
  Done (f ++ [jf], p ++ [jp], t ++ [jt * 1000], g).

(** [_get_object_modes]. *)
Definition get_object_modes (fuel : nat) (e : PyImpact AudioSegment) (material : string)
    (g : RandomState) : outcome (Modes * RandomState) :=
  data ← mindex KStr material (material_data e);
  '(f, p, t, g) ← for_each (sample_mode fuel data) ([], [], [], g) (seq 0 10);
  Done (mkModes f p t, g).

(** Pointwise addition, the shorter array padded with zeros. *)
Fixpoint pointwise_add (a b : list R) : list R :=
  match a, b with
  | [], _ => b
  | _, [] => a
  | x :: a', y :: b' => (x + y) :: pointwise_add a' b'
  end.

(** Modelled from the spec: [Modes.mode_add] of [tdw.physics_audio.modes],
    which is not among the sources: "pointwise addition, zero-padding the
    shorter vector". *)
Definition mode_add (h1 h2 : list R) : list R := pointwise_add h1 h2.

(** The linear convolution that [scipy.signal.fftconvolve] computes. *)
Fixpoint convolve (h f : list R) : list R :=
  match h with
  | [] => []
  | a :: h' =>
      pointwise_add (map (Rmult a) f)
        (match h' with
         | [] => []
         | _ => 0 :: convolve h' f
         end)
  end.

Definition fftconvolve (h f : list R) : list R :=
  match f with
  | [] => []
  | _ => convolve h f
  end.

(** The number of samples of the force pulse. *)
Definition force_samples (mass : R) : Z :=
  let max_t := 0.001 * mass in
  let max_t := Rmin max_t 0.002 in
  Rceil (max_t * 44100).

(** [synth_impact_modes].  [np.linspace] rejects a negative sample count and
    [np.max] an empty array; the division by [abs(np.max(x))] is numpy's,
    and gives nan and infinities when the largest sample is 0. *)
Definition synth_impact_modes (modes1 modes2 : Modes) (mass resonance : R)
    : outcome (option (list npfloat)) :=
  let h1 := Modes_sum_modes modes1 resonance in
  let h2 := Modes_sum_modes modes2 resonance in
  let h := mode_add h1 h2 in
  if (length h =? 0)%nat then Done None
  else
    let n_pts := force_samples mass in
    if (n_pts <? 0)%Z then Raise ValueError
    else
      let tt := linspace 0 PI (Z.to_nat n_pts) in
      let frc := map sin tt in
      let x := fftconvolve h frc in
      match x with
      | [] => Raise ValueError
      | _ => Done (Some (np_divide_all x (Rabs (np_max x))))
      end.

(** ** Per-pair collision info *)

(** Modelled from the spec: the constructor of [CollisionAudioInfo], which
    is not among the sources: the two mode sets, the amp, and a count that
    starts at 0.  The initial [init_speed] is overwritten by the first
    event before it is read. *)
Definition CollisionAudioInfo_init (obj1 obj2 : Modes) (amp : R) : CollisionAudioInfo :=
  mkCollisionAudioInfo obj1 obj2 amp (Finite 1) 0.

(** Modelled from the spec: [CollisionAudioInfo.count_collisions]:
    "increment the pair's event count". *)
Definition count_collisions (info : CollisionAudioInfo) : CollisionAudioInfo :=
  mkCollisionAudioInfo (obj1_modes info) (obj2_modes info) (cai_amp info) (init_speed info)
    (cai_count info + 1).

(** [self.object_modes[secondary_id][primary_id]]. *)
Definition lookup_info (om : gmap (option Z) (gmap Z CollisionAudioInfo))
    (secondary : option Z) (primary : Z) : outcome CollisionAudioInfo :=
  inner ← mindex key_of_id secondary om;
  mindex KInt primary inner.

Definition store_info (om : gmap (option Z) (gmap Z CollisionAudioInfo))
    (secondary : option Z) (primary : Z) (info : CollisionAudioInfo)
    : gmap (option Z) (gmap Z CollisionAudioInfo) :=
  <[secondary := <[primary := info]> (default ∅ (om !! secondary))]> om.

(** The keyword arguments shared by the sound functions. *)
Record SoundArgs : Type := mkSoundArgs {
  a_velocity : vec3;
  a_contact_points : list vec3;
  a_contact_normals : list vec3;
  a_primary_id : Z;
  a_primary_material : string;
  a_primary_amp : R;
  a_primary_mass : R;
  a_secondary_id : option Z;
  a_secondary_material : string;
  a_secondary_amp : R;
  a_secondary_mass : R;
  a_resonance : R
}.

(** [make_impact_audio].  The assignment to [modes_2.decay_times] changes
    the mode set held by the stored info, so the engine is returned too.
    (The loop over [AudioMaterial] compares strings with enum members and
    assigns nothing that is read.) *)
Definition make_impact_audio (e : PyImpact AudioSegment) (amp2re1 mass : R) (id1 : Z)
    (id2 : option Z) (resonance : R)
    : outcome (option (list npfloat) * Modes * Modes * PyImpact AudioSegment) :=
  info ← lookup_info (object_modes e) id2 id1;
  let modes_1 := obj1_modes info in
  let modes_2 := obj2_modes info in
  let modes_2 :=
    mkModes (frequencies modes_2) (powers modes_2)
      (map (fun t => t + 20 * log10 amp2re1) (decay_times modes_2)) in
  let info := mkCollisionAudioInfo modes_1 modes_2 (cai_amp info) (init_speed info)
                (cai_count info) in
  let e := set_object_modes (store_info (object_modes e) id2 id1 info) e in
  snth ← synth_impact_modes modes_1 modes_2 mass resonance;
  Done (snth, modes_1, modes_2, e).

(** The contact speed along the normals, averaged ([np.mean]).  A zero
    velocity, a zero normal and an empty list of normals give nan. *)
Definition get_normal_speed (velocity : vec3) (contact_normals : list vec3) : npfloat :=
  let '(vx, vy, vz) := velocity in
  let speed := sqrt (vx * vx + vy * vy + vz * vz) in
  let nvel := np_unit velocity in
  let nspd :=
    map (fun n =>
           let tmp := np_unit n in
           let tmp := np_arccos (np_clip (np_dot3 tmp nvel) (-1) 1) in
           np_mul (Finite speed) (np_cos tmp))
        contact_normals in
  np_mean nspd.

(** [log_modes]. *)
Definition log_modes (e : PyImpact AudioSegment) (count : Z) (id1 : Z) (id2 : option Z)
    (modes_1 modes_2 : Modes) (amp : npfloat) (mat1 mat2 : string) : PyImpact AudioSegment :=
  let mode_props := mkModeProps count id1 id2 amp mat1 mat2 modes_1 modes_2 in
  set_mode_properties_log
    (<[(pretty id1 +:+ "_" +:+ str_id id2 +:+ "__" +:+ pretty count)%string := mode_props]>
       (mode_properties_log e)) e.

(** [get_sound] up to the logging step: the synthesized sound (or [None])
    and the amp that will scale it. *)
Definition synthesize_impact (fuel : nat) (e : PyImpact AudioSegment) (g : RandomState)
    (a : SoundArgs)
    : outcome (option (list npfloat) * npfloat * PyImpact AudioSegment * RandomState) :=
  if decide (a_primary_amp a = 0) then Raise ZeroDivisionError
  else
    let amp2re1 := a_secondary_amp a / a_primary_amp a in
    let secondary_id := a_secondary_id a in
    let primary_id := a_primary_id a in
    let om := object_modes e in
    let om := if bool_decide (is_Some (om !! secondary_id)) then om
              else <[secondary_id := ∅]> om in
    inner ← mindex key_of_id secondary_id om;
    '(om, g) ← (if bool_decide (is_Some (inner !! primary_id)) then Done (om, g)
                else
                  '(m1, g) ← get_object_modes fuel e (a_secondary_material a) g;
                  '(m2, g) ← get_object_modes fuel e (a_primary_material a) g;
                  Done (store_info om secondary_id primary_id
                          (CollisionAudioInfo_init m1 m2 (a_primary_amp a * initial_amp e)), g));
    let e := set_object_modes om e in
    let normal_speed := get_normal_speed (a_velocity a) (a_contact_normals a) in
    let mass := Rmin (a_primary_mass a) (a_secondary_mass a) in
    info ← lookup_info (object_modes e) secondary_id primary_id;
    '(sound, modes_1, modes_2, amp, e, g) ←
      (if (cai_count info =? 0)%Z then
         '(sound, modes_1, modes_2, e) ←
           make_impact_audio e amp2re1 mass primary_id secondary_id (a_resonance a);
         info ← lookup_info (object_modes e) secondary_id primary_id;
         let amp := Finite (cai_amp info) in
         let info := mkCollisionAudioInfo modes_1 modes_2 (cai_amp info) normal_speed
                       (cai_count info) in
         Done (sound, modes_1, modes_2, amp,
               set_object_modes (store_info (object_modes e) secondary_id primary_id info) e, g)
       else
         let amp := np_div (np_mul (Finite (cai_amp info)) normal_speed) (init_speed info) in
         let modes_1 := obj1_modes info in
         let modes_2 := obj2_modes info in
         let '(noise_1, g) := normal_vector 0 2 (length (powers modes_1)) g in
         let modes_1 := mkModes (frequencies modes_1) (zip_with Rplus (powers modes_1) noise_1)
                          (decay_times modes_1) in
         let '(noise_2, g) := normal_vector 0 2 (length (powers modes_2)) g in
         let modes_2 := mkModes (frequencies modes_2) (zip_with Rplus (powers modes_2) noise_2)
                          (decay_times modes_2) in
         let info := mkCollisionAudioInfo modes_1 modes_2 (cai_amp info) (init_speed info)
                       (cai_count info) in
         let e := set_object_modes (store_info (object_modes e) secondary_id primary_id info) e in
         sound ← synth_impact_modes modes_1 modes_2 mass (a_resonance a);
         Done (sound, modes_1, modes_2, amp, e, g));
    info ← lookup_info (object_modes e) secondary_id primary_id;
    let e := if logging e
             then log_modes e (cai_count info) primary_id secondary_id modes_1 modes_2 amp
                    (a_primary_material a) (a_secondary_material a)
             else e in
    Done (sound, amp, e, g).

(** The clamp of the amp, [if self.prevent_distortion and np.abs(amp) > 0.99],
    and the final scaling, [amp * sound / np.max(np.abs(sound))]. *)
Definition clamp_amp (prevent : bool) (amp : npfloat) : npfloat :=
  if prevent && np_gt (np_abs amp) (Finite 0.99) then Finite 0.99 else amp.

Definition scale_sound (prevent : bool) (amp : npfloat) (sound : list npfloat) : list npfloat :=
  let amp := clamp_amp prevent amp in
  let peak := np_amax (map np_abs sound) in
  map (fun v => np_div (np_mul amp v) peak) sound.

(** [get_sound] up to the array handed to [Base64Sound]. *)
Definition get_sound_pcm (fuel : nat) (e : PyImpact AudioSegment) (g : RandomState)
    (a : SoundArgs) : outcome (option (list npfloat) * PyImpact AudioSegment * RandomState) :=
  '(sound, amp, e, g) ← synthesize_impact fuel e g a;
  match sound with
  | None => Done (None, e, g)
  | Some sound =>
      info ← lookup_info (object_modes e) (a_secondary_id a) (a_primary_id a);
      let e := set_object_modes
                 (store_info (object_modes e) (a_secondary_id a) (a_primary_id a)
                    (count_collisions info)) e in
      Done (Some (scale_sound (prevent_distortion e) amp sound), e, g)
  end.

(** [get_sound]. *)
Definition get_sound (fuel : nat) (e : PyImpact AudioSegment) (g : RandomState)
    (a : SoundArgs) : outcome (option Base64Sound * PyImpact AudioSegment * RandomState) :=
  '(pcm, e, g) ← get_sound_pcm fuel e g a;
  Done (option_map Base64Sound_init pcm, e, g).

(** ** Commands *)

(** [_get_unique_id]: three bytes of entropy, big-endian. *)
Definition get_unique_id (ent : Entropy) : Z * Entropy :=
  let '((b0, b1, b2), ent') := os_urandom3 ent in
  ((b0 * 65536 + b1 * 256 + b2)%Z, ent').

(** [np.mean(contact_points, axis=0)] followed by [point[0]]: the mean of
    no points is a scalar, and indexing it raises. *)
Definition mean_point (points : list vec3) : outcome vec3 :=
  match points with
  | [] => Raise IndexError
  | _ =>
      let n := INR (length points) in
      Done (Rsum (map (fun p => p.1.1) points) / n,
            Rsum (map (fun p => p.1.2) points) / n,
            Rsum (map (fun p => p.2) points) / n)
  end.

Definition command_type (e : PyImpact AudioSegment) : string :=
  if resonance_audio e then "play_point_source_data" else "play_audio_data".

(** [get_impact_sound_command]. *)
Definition get_impact_sound_command (fuel : nat) (e : PyImpact AudioSegment) (g : RandomState)
    (ent : Entropy) (a : SoundArgs)
    : outcome (option Command * PyImpact AudioSegment * RandomState * Entropy) :=
  '(impact_audio, e, g) ← get_sound fuel e g a;
  match impact_audio with
  | Some impact_audio =>
      point ← mean_point (a_contact_points a);
      let '(id, ent) := get_unique_id ent in
      Done (Some (mkCommand (command_type e) id point (snd_length impact_audio) CHANNELS
                    SAMPLE_RATE (wav_str impact_audio) 0.1), e, g, ent)
  | None => Done (None, e, g, ent)
  end.

(** ** Scrapes *)

(** [min(array)] on the frequencies. *)
Definition py_min (l : list R) : outcome R :=
  match l with
  | [] => Raise ValueError
  | _ => Done (np_min l)
  end.

(** [get_impulse_response]. *)
Definition get_impulse_response (fuel : nat) (e : PyImpact AudioSegment) (g : RandomState)
    (a : SoundArgs) : outcome (list R * R * PyImpact AudioSegment * RandomState) :=
  '(_, e, g) ← get_sound fuel e g a;
  info ← lookup_info (object_modes e) (a_secondary_id a) (a_primary_id a);
  let modes_1 := obj1_modes info in
  let modes_2 := obj2_modes info in
  let h1 := Modes_sum_modes modes_1 (a_resonance a) in
  let h2 := Modes_sum_modes modes_2 (a_resonance a) in
  let h := mode_add h1 h2 in
  lowest ← py_min (frequencies modes_1);
  Done (h, lowest, e, g).

(** [_end_scrape]. *)
Definition end_scrape (e : PyImpact AudioSegment) (key : scrape_key) : PyImpact AudioSegment :=
  set_scrape (delete key (scrape_summed_masters e)) (scrape_previous_index e)
    (delete key (scrape_start_velocities e)) (delete key (scrape_events_count e)) e.

(** [_normalize_floats] and [_normalize_16bit_int]. *)
Definition normalize_floats (arr : list R) : list R :=
  if bool_decide (Forall (fun v => v = 0) arr) then arr
  else map (fun v => v / peak arr) arr.

Definition normalize_16bit_int (arr : list R) : list Z :=
  map (fun v => Rtrunc (v * 32767)) (normalize_floats arr).

(** The finite difference of an array over one pixel. *)
Definition pixel_difference (l : list R) : list R :=
  zip_with (fun next this => (next - this) / SCRAPE_M_PER_PIXEL) (tail l) l.

(** [l[start:stop]] for non-negative bounds. *)
Definition slice (l : list R) (start stop : Z) : list R :=
  take (Z.to_nat stop - Z.to_nat start) (drop (Z.to_nat start) l).

(** The velocity magnitude of a scrape and the number of surface pixels it
    covers. *)
Definition scrape_mag (velocity : vec3) : R := Rmin (norm3 velocity) SCRAPE_MAX_VELOCITY.

Definition scrape_num_pts (velocity : vec3) : Z :=
  let dist := scrape_mag velocity / 1000 in
  let num_pts := Rfloor (dist / SCRAPE_M_PER_PIXEL) in
  if (num_pts =? 0)%Z then 1%Z else num_pts.

(** The gain of a chunk: [np.interp(mag ** 2, [0, 25], [-80, -12])]. *)
Definition scrape_db (velocity : vec3) : R :=
  let mag := scrape_mag velocity in
  default 0 (head (np_interp [mag * mag]
                     [0; SCRAPE_MAX_VELOCITY * SCRAPE_MAX_VELOCITY] [-80; -12])).

(** The opening of [get_scrape_sound]: the pair's master and event count,
    entered in the dictionaries if the scrape is new, and the starting
    velocity of a scrape that has no events yet. *)
Definition scrape_begin (e : PyImpact AudioSegment) (a : SoundArgs)
    : outcome (AudioSegment * Z * PyImpact AudioSegment) :=
  let key : scrape_key := (a_primary_id a, a_secondary_id a) in
  let summed_master := seg_silent 0 in
  let scrape_event_count := 0%Z in
  '(summed_master, scrape_event_count, e) ←
    (if bool_decide (is_Some (scrape_summed_masters e !! key)) then
       summed_master ← mindex (fun k => KTuple (KInt k.1) (key_of_id k.2)) key
                         (scrape_summed_masters e);
       scrape_event_count ← mindex (fun k => KTuple (KInt k.1) (key_of_id k.2)) key
                              (scrape_events_count e);
       Done (summed_master, scrape_event_count, e)
     else
       Done (summed_master, scrape_event_count,
             set_scrape (<[key := summed_master]> (scrape_summed_masters e))
               (scrape_previous_index e) (scrape_start_velocities e)
               (<[key := scrape_event_count]> (scrape_events_count e)) e));
  let mag := scrape_mag (a_velocity a) in
  let e := if (scrape_event_count =? 0)%Z
           then set_scrape (scrape_summed_masters e) (scrape_previous_index e)
                  (<[key := mag]> (scrape_start_velocities e)) (scrape_events_count e) e
           else e in
  Done (summed_master, scrape_event_count, e).

(** [get_scrape_sound]. *)
Definition get_scrape_sound (fuel : nat) (e : PyImpact AudioSegment) (g : RandomState)
    (a : SoundArgs) : outcome (option Base64Sound * PyImpact AudioSegment * RandomState) :=
  let key : scrape_key := (a_primary_id a, a_secondary_id a) in
  '(summed_master, scrape_event_count, e) ← scrape_begin e a;
  let db := scrape_db (a_velocity a) in
  '(scraping_ir, min_mode_freq, e, g) ← get_impulse_response fuel e g a;
  let dsdx := pixel_difference SCRAPE_SURFACE in
  let d2sdx2 := pixel_difference dsdx in
  let num_pts := scrape_num_pts (a_velocity a) in
  if (num_pts =? 1)%Z then Done (None, end_scrape e key, g)
  else
    let final_ind := (scrape_previous_index e + num_pts)%Z in
    let wrap := (Z.of_nat (length SCRAPE_SURFACE) - 100 <? final_ind)%Z in
    let previous_index := if wrap then 0%Z else scrape_previous_index e in
    let final_ind := if wrap then num_pts else final_ind in
    let vect1 := linspace 0 1 (Z.to_nat num_pts) in
    let vect2 := linspace 0 1 4010 in
    let slope_int := np_interp vect2 vect1 (slice dsdx previous_index final_ind) in
    let curve_int := np_interp vect2 vect1 (slice d2sdx2 previous_index final_ind) in
    let e := set_scrape (scrape_summed_masters e) final_ind (scrape_start_velocities e)
               (scrape_events_count e) e in
    let curve_int_tan := map (fun v => tanh (v / 1000)) curve_int in
    let d2_section := gaussian_filter1d curve_int_tan 10 in
    let vert_force := d2_section in
    let hor_force := slope_int in
    let t_force :=
      zip_with (fun v h => np_add (np_div (Finite v) (Finite (peak vert_force)))
                             (Finite (0.2 * h)))
        vert_force (take (length vert_force) hor_force) in
    let noise_seg1 := seg_of_floats t_force in
    (* The value of [noise_seg1.apply_gain(SCRAPE_TARGET_DBFS)] is not bound. *)
    let _ := seg_apply_gain noise_seg1 SCRAPE_TARGET_DBFS in
    let noise_seg_fade := seg_fade_out (seg_fade_in noise_seg1 4) 4 in
    let conv := fftconvolve scraping_ir (map IZR (seg_get_array_of_samples noise_seg_fade)) in
    let normalized_noise_ints_conv := normalize_16bit_int conv in
    let noise_seg_conv := seg_of_ints normalized_noise_ints_conv in
    let noise_seg_conv := seg_apply_gain noise_seg_conv db in
    let summed_master :=
      if (scrape_event_count =? 0)%Z then seg_add noise_seg_conv SILENCE_50MS
      else if (scrape_event_count =? 1)%Z
      then seg_overlay summed_master (seg_add SILENCE_50MS noise_seg_conv)
      else
        let padded_current := seg_add (seg_mul SILENCE_50MS scrape_event_count) noise_seg_conv in
        let summed_master := seg_add summed_master SILENCE_50MS in
        seg_overlay summed_master padded_current in
    let start_idx := (100 * scrape_event_count)%Z in
    let temp := seg_slice summed_master (Some (- (seg_len summed_master - start_idx))%Z) None in
    let unity_chunk := seg_slice temp None (Some 100%Z) in
    let scrape_event_count := (scrape_event_count + 1)%Z in
    let e := set_scrape (<[key := summed_master]> (scrape_summed_masters e))
               (scrape_previous_index e) (scrape_start_velocities e)
               (<[key := scrape_event_count]> (scrape_events_count e)) e in
    let raw := seg_raw_data unity_chunk in
    let sound := mkBase64Sound (b64encode raw) (Z.of_nat (length raw)) raw in
    Done (Some sound, e, g).

(** [get_scrape_sound_command]. *)
Definition get_scrape_sound_command (fuel : nat) (e : PyImpact AudioSegment) (g : RandomState)
    (ent : Entropy) (a : SoundArgs)
    : outcome (option Command * PyImpact AudioSegment * RandomState * Entropy) :=
  '(sound, e, g) ← get_scrape_sound fuel e g a;
  match sound with
  | None => Done (None, e, g, ent)
  | Some sound =>
      point ← mean_point (a_contact_points a);
      let '(id, ent) := get_unique_id ent in
      Done (Some (mkCommand (command_type e) id point (snd_length sound) CHANNELS
                    SAMPLE_RATE (wav_str sound) 0), e, g, ent)
  end.

(** ** [on_send] *)

Definition material_key (audio : ObjectAudioStatic) : string :=
  (material_name (oas_material audio) +:+ "_" +:+ pretty (oas_size audio))%string.

(** The keyword arguments built for the event of [object_id]. *)
Definition event_args (e : PyImpact AudioSegment) (object_id : Z) (event : CollisionAudioEvent)
    : outcome SoundArgs :=
  match secondary_id event with
  | None =>
      audio ← dindex KInt object_id (static_audio_data e);
      Done (mkSoundArgs (ev_velocity event) (collision_points (ev_collision event))
              (collision_normals (ev_collision event)) object_id (material_key audio)
              (oas_amp audio) (oas_mass audio) None (get_floor_material_name e) FLOOR_AMP
              FLOOR_MASS (oas_resonance audio))
  | Some secondary =>
      target_audio ← dindex KInt (primary_id event) (static_audio_data e);
      other_audio ← dindex KInt secondary (static_audio_data e);
      Done (mkSoundArgs (ev_velocity event) (collision_points (ev_collision event))
              (collision_normals (ev_collision event)) (oas_object_id target_audio)
              (material_key target_audio) (oas_amp target_audio) (oas_mass target_audio)
              (Some (oas_object_id other_audio)) (material_key other_audio)
              (oas_amp other_audio) (oas_mass other_audio) (oas_resonance target_audio))
  end.

(** The state threaded through a frame: the engine, numpy's generator, the
    entropy source and [self.commands]. *)
Definition world : Type := PyImpact AudioSegment * RandomState * Entropy * list Command.

(** The body of [for object_id in self._collision_events]. *)
Definition dispatch_event (fuel : nat) (w : world) (entry : Z * CollisionAudioEvent)
    : outcome world :=
  let '(e, g, ent, commands) := w in
  let '(object_id, event) := entry in
  '(command, e, g, ent) ←
    match collision_type event with
    | impact =>
        a ← event_args e object_id event;
        get_impact_sound_command fuel e g ent a
    | scrape =>
        a ← event_args e object_id event;
        get_scrape_sound_command fuel e g ent a
    | _ => Done (None, e, g, ent)
    end;
  Done (e, g, ent, match command with
                   | Some c => commands ++ [c]
                   | None => commands
                   end).

Definition on_send (fuel : nat) (w : world) (resp : list OutputData) : outcome world :=
  let '(e, g, ent, commands) := w in
  e ← (if cached_audio_info e then Done e
       else cache_static_data (set_cached_audio_info true e) resp);
  e ← get_collision_types e resp;
  for_each (dispatch_event fuel) (e, g, ent, commands) (collision_events e).

(** A run of the engine over a sequence of frames. *)
Definition run (fuel : nat) (w : world) (frames : list (list OutputData)) : outcome world :=
  for_each (on_send fuel) w frames.
(** ** Auxiliary definitions for the statements *)

(** The events that [_get_collision_types] builds from a frame, in order. *)
Definition frame_events (statics : dict Z ObjectAudioStatic) (rigidbody_data : gmap Z Rigidbody)
    (previous_areas : dict Z R) (resp : list OutputData) : outcome (list CollisionAudioEvent) :=
  for_each (fun events r =>
              oe ← record_event statics rigidbody_data previous_areas r;
              Done (match oe with
                    | Some event => events ++ [event]
                    | None => events
                    end))
           [] (frame_records resp).

(** The events of [events] that belong to [per_object], filed by primary id. *)
Definition grouped (per_object : dict Z (list CollisionAudioEvent))
    (events : list CollisionAudioEvent) : Prop :=
  NoDup (dkeys per_object) /\
  forall k, default [] (dget k per_object) = filter (fun c => primary_id c = k) events.

(** What the third loop of [_get_collision_types] leaves under a key. *)
Definition selected (candidates : list CollisionAudioEvent) : option CollisionAudioEvent :=
  match filter (fun e => significant e = true) candidates with
  | [] => None
  | first :: others => Some (max_magnitude first others)
  end.

(** The object ids that a collision record refers to. *)
Definition record_ids (r : OutputData) : list Z :=
  match r with
  | Coll c => [collider_id c; collidee_id c]
  | Enco c => [env_object_id c]
  | _ => []
  end.
(** The info stored for a pair, if any. *)
Definition get_info (om : gmap (option Z) (gmap Z CollisionAudioInfo))
    (secondary : option Z) (primary : Z) : option CollisionAudioInfo :=
  inner ← om !! secondary; inner !! primary.

(** The bounds on the modes: 20 Hz and 1 ms. *)
Definition frequencies_ok (m : Modes) : Prop := Forall (fun f => 20 <= f) (frequencies m).
Definition decay_times_ok (m : Modes) : Prop := Forall (fun t => 1 <= t) (decay_times m).

(** A property of every info that the engine holds. *)
Definition every_info (P : CollisionAudioInfo -> Prop) (e : PyImpact AudioSegment) : Prop :=
  forall secondary primary info,
    get_info (object_modes e) secondary primary = Some info -> P info.

(** The shift that [make_impact_audio] applies to the decay times. *)
Definition shift_decay_times (amp2re1 : R) (m : Modes) : Modes :=
  mkModes (frequencies m) (powers m) (map (fun t => t + 20 * log10 amp2re1) (decay_times m)).

Definition same_bounds_data (i1 i2 : CollisionAudioInfo) : Prop :=
  frequencies (obj1_modes i1) = frequencies (obj1_modes i2) /\
  frequencies (obj2_modes i1) = frequencies (obj2_modes i2) /\
  decay_times (obj1_modes i1) = decay_times (obj1_modes i2) /\
  decay_times (obj2_modes i1) = decay_times (obj2_modes i2).




End Engine.

(** ** Variations and concrete inputs *)

(** The externals with another [apply_gain]. *)
Definition with_apply_gain (ext : Externals) (f : AudioSegment -> R -> AudioSegment) : Externals :=
  {| RandomState := RandomState;
     np_random_normal := np_random_normal;
     Entropy := Entropy;
     os_urandom3 := os_urandom3;
     Modes_sum_modes := Modes_sum_modes;
     CollisionAudioEvent_init := CollisionAudioEvent_init;
     Base64Sound_init := Base64Sound_init;
     material_file := material_file;
     objects_csv := objects_csv;
     scrape_surface_npy := scrape_surface_npy;
     np_interp := np_interp;
     gaussian_filter1d := gaussian_filter1d;
     AudioSegment := AudioSegment;
     seg_silent := seg_silent;
     seg_of_floats := seg_of_floats;
     seg_of_ints := seg_of_ints;
     seg_apply_gain := f;
     seg_fade_in := seg_fade_in;
     seg_fade_out := seg_fade_out;
     seg_get_array_of_samples := seg_get_array_of_samples;
     seg_add := seg_add;
     seg_mul := seg_mul;
     seg_overlay := seg_overlay;
     seg_len := seg_len;
     seg_slice := seg_slice;
     seg_raw_data := seg_raw_data;
     b64encode := b64encode;
     set_iter := set_iter |}.

(** The externals with another iteration order of [set(materials)]: the
    order of a Python set of enum members follows the hash seed of the
    process, so that two runs of the program are two such externals. *)
Definition with_set_iter (ext : Externals) (f : list AudioMaterial -> list AudioMaterial)
    : Externals :=
  {| RandomState := RandomState;
     np_random_normal := np_random_normal;
     Entropy := Entropy;
     os_urandom3 := os_urandom3;
     Modes_sum_modes := Modes_sum_modes;
     CollisionAudioEvent_init := CollisionAudioEvent_init;
     Base64Sound_init := Base64Sound_init;
     material_file := material_file;
     objects_csv := objects_csv;
     scrape_surface_npy := scrape_surface_npy;
     np_interp := np_interp;
     gaussian_filter1d := gaussian_filter1d;
     AudioSegment := AudioSegment;
     seg_silent := seg_silent;
     seg_of_floats := seg_of_floats;
     seg_of_ints := seg_of_ints;
     seg_apply_gain := seg_apply_gain;
     seg_fade_in := seg_fade_in;
     seg_fade_out := seg_fade_out;
     seg_get_array_of_samples := seg_get_array_of_samples;
     seg_add := seg_add;
     seg_mul := seg_mul;
     seg_overlay := seg_overlay;
     seg_len := seg_len;
     seg_slice := seg_slice;
     seg_raw_data := seg_raw_data;
     b64encode := b64encode;
     set_iter := f |}.

(** An iteration order of [set(materials)]: each material of the list,
    once. *)
Definition set_order (f : list AudioMaterial -> list AudioMaterial) : Prop :=
  forall materials, NoDup (f materials) /\ forall m, m ∈ f materials <-> m ∈ materials.


(** An iteration order other than [remove_dups]: its reverse. *)
Definition reversed_order (materials : list AudioMaterial) : list AudioMaterial :=
  reverse (remove_dups materials).

(** A scene for the derivation of static audio data: a chair that the
    overrides resolve and an object of unknown name in a category of its own. *)
Definition demo_chair : ObjectAudioStatic :=
  mkObjectAudioStatic "chair" 0.5 8 wood_hard 0.3 0.3 4 0.

Definition derive_frame : list OutputData :=
  [Segm [(1%Z, "Chair"%string, "furniture"%string); (2%Z, "zzz"%string, "widget"%string)];
   Srig [(1%Z, 1000, 0.1); (2%Z, 1, 0.2)];
   OtherData].

Section DeriveDefs.
Context {ext : Externals}.
Definition derive_engine : PyImpact AudioSegment :=
  mkPyImpact 0.5 true false ∅ false wood_medium ∅ ∅ (<["chair"%string := demo_chair]> ∅) []
    false [] ∅ 0 ∅ ∅ false.
End DeriveDefs.

(** Stand-ins for the imported code, used to run the engine on concrete
    frames: a generator that returns the mean, an entropy source that counts,
    an impulse response read off the powers, one mode table for every
    material, and audio segments as lists of samples. *)
Definition demo_event (c : Collision + EnvironmentCollision) (s0 : ObjectAudioStatic)
    (d0 : Rigidbody) (s1 : option ObjectAudioStatic) (d1 : option Rigidbody)
    (previous_areas : dict Z R) : CollisionAudioEvent :=
  mkCollisionAudioEvent c (oas_object_id s0) (option_map oas_object_id s1)
    (if dmem (oas_object_id s0) previous_areas then scrape else impact)
    (rb_velocity d0) (norm3 (rb_velocity d0)) 1.

Definition demo_data : ModeData :=
  mkModeData (replicate 10 100) (replicate 10 1) (replicate 10 0.005).

Definition demo_ext : Externals :=
  {| RandomState := unit;
     np_random_normal := fun loc _ g => (loc, g);
     Entropy := Z;
     os_urandom3 := fun n => ((0, 0, n)%Z, (n + 1)%Z);
     Modes_sum_modes := fun m _ => powers m;
     CollisionAudioEvent_init := demo_event;
     Base64Sound_init := fun pcm => mkBase64Sound "" (Z.of_nat (length pcm)) [];
     material_file := fun _ => demo_data;
     objects_csv := [];
     scrape_surface_npy := [];
     np_interp := fun x _ _ => map (fun _ => 0) x;
     gaussian_filter1d := fun l _ => l;
     AudioSegment := list Z;
     seg_silent := fun ms => replicate (Z.to_nat ms) 0%Z;
     seg_of_floats := map (fun v => match v with Finite x => Rtrunc x | _ => 0%Z end);
     seg_of_ints := fun l => l;
     seg_apply_gain := fun seg _ => seg;
     seg_fade_in := fun seg _ => seg;
     seg_fade_out := fun seg _ => seg;
     seg_get_array_of_samples := fun seg => seg;
     seg_add := app;
     seg_mul := fun seg n => concat (replicate (Z.to_nat n) seg);
     seg_overlay := fun seg _ => seg;
     seg_len := fun seg => Z.of_nat (length seg);
     seg_slice := fun seg _ _ => seg;
     seg_raw_data := fun seg => seg;
     b64encode := fun _ => ""%string;
     set_iter := fun l => remove_dups l |}.

(** An [apply_gain] that silences a segment at the -20 dBFS target. *)
Definition silencing_gain (seg : list Z) (db : R) : list Z :=
  if decide (db = SCRAPE_TARGET_DBFS) then [] else seg.

(** The engine as [__init__] leaves it, with the default arguments. *)
Definition fresh_engine : PyImpact (@AudioSegment demo_ext) :=
  mkPyImpact 0.5 true false ∅ false wood_medium (load_material_data (ext := demo_ext)) ∅ ∅ []
    false [] ∅ 0 ∅ ∅ false.

(** A box of 1 kg dropped onto the floor at 3 m/s. *)
Definition drop_velocity : vec3 := (0, -3, 0).

Definition drop_collision : EnvironmentCollision :=
  mkEnvironmentCollision 42 "enter" [(0, 0, 0)] [(0, 1, 0)] true.

Definition drop_frame : list OutputData :=
  [Segm [(42%Z, "box"%string, "box"%string)];
   Srig [(42%Z, 1, 0.5)];
   Rigi [(42%Z, mkRigidbody drop_velocity (0, 0, 0) false)];
   Enco drop_collision;
   OtherData].

Definition box_audio : ObjectAudioStatic :=
  mkObjectAudioStatic "box" DEFAULT_AMP 1 DEFAULT_MATERIAL 0.5 DEFAULT_RESONANCE DEFAULT_SIZE 42.

(** The engine once the static data of the box is cached. *)
Definition box_engine : PyImpact (@AudioSegment demo_ext) :=
  set_static_audio ∅ [(42%Z, box_audio)] (set_cached_audio_info true fresh_engine).

Definition drop_event : CollisionAudioEvent :=
  mkCollisionAudioEvent (inr drop_collision) 42 None impact drop_velocity (norm3 drop_velocity) 1.

(** A later frame in which the box and an object that was never registered,
    7, both touch the floor. *)
Definition stranger_frame : list OutputData :=
  [Rigi [(42%Z, mkRigidbody drop_velocity (0, 0, 0) false);
         (7%Z, mkRigidbody drop_velocity (0, 0, 0) false)];
   Enco drop_collision;
   Enco (mkEnvironmentCollision 7 "enter" [(0, 0, 0)] [(0, 1, 0)] true);
   OtherData].

(** A first frame in which the box is registered and both the box and the
    same stranger touch the floor. *)
Definition stranger_first_frame : list OutputData :=
  [Segm [(42%Z, "box"%string, "box"%string)];
   Srig [(42%Z, 1, 0.5)];
   Rigi [(42%Z, mkRigidbody drop_velocity (0, 0, 0) false);
         (7%Z, mkRigidbody drop_velocity (0, 0, 0) false)];
   Enco drop_collision;
   Enco (mkEnvironmentCollision 7 "enter" [(0, 0, 0)] [(0, 1, 0)] true);
   OtherData].

(** The impact of an object of 60 g and amp 0.2 on the floor. *)
Definition light_args : SoundArgs :=
  mkSoundArgs drop_velocity [(0, 0, 0)] [(0, 1, 0)] 42 "plastic_hard_1" 0.2 0.06 None
    "wood_medium_4" FLOOR_AMP FLOOR_MASS 0.45.

(** The impact of an object of 20 g and amp 0.2 on the floor. *)
Definition faint_args : SoundArgs :=
  mkSoundArgs drop_velocity [(0, 0, 0)] [(0, 1, 0)] 42 "plastic_hard_1" 0.2 0.02 None
    "wood_medium_4" FLOOR_AMP FLOOR_MASS 0.45.

(** The impact of object 1, of amp 0.5, on object 2, of amp 0.05. *)
Definition quiet_args : SoundArgs :=
  mkSoundArgs drop_velocity [(0, 0, 0)] [(0, 1, 0)] 1 "plastic_hard_1" 0.5 0.06 (Some 2%Z)
    "plastic_hard_1" 0.05 1 0.45.

(** A slide of the box over the floor at 1 mm/s. *)
Definition slow_args : SoundArgs :=
  mkSoundArgs (0.001, 0, 0) [(0, 0, 0)] [(0, 1, 0)] 42 "plastic_hard_1" 0.2 1 None
    "wood_medium_4" FLOOR_AMP FLOOR_MASS 0.45.

(** The modes that the stand-in generator samples from [demo_data]. *)
Definition demo_modes : Modes :=
  mkModes (replicate 10 (100 + 0)) (replicate 10 (1 + 0)) (replicate 10 ((0.005 + 0) * 1000)).

(** The sound synthesized for [light_args] before it is scaled. *)
Definition light_convolution : list R :=
  fftconvolve (mode_add (powers demo_modes) (powers demo_modes))
    (map sin (linspace 0 PI (Z.to_nat (force_samples (Rmin 0.06 FLOOR_MASS))))).

Definition light_raw : list R :=
  map (fun v => v / Rabs (np_max light_convolution)) light_convolution.

(** A slide of the box over the floor at 1 m/s. *)
Definition slide_args : SoundArgs :=
  mkSoundArgs (1, 0, 0) [(0, 0, 0)] [(0, 1, 0)] 42 "plastic_hard_1" 0.2 1 None
    "wood_medium_4" FLOOR_AMP FLOOR_MASS 0.45.

(** [fresh_engine] once the scrape of [slow_args] has begun. *)
Definition slow_engine : PyImpact (@AudioSegment demo_ext) :=
  set_scrape (<[(42%Z, None) := seg_silent (Externals := demo_ext) 0]> ∅) 0
    (<[(42%Z, None) := scrape_mag (0.001, 0, 0)]> ∅)
    (<[(42%Z, None) := 0%Z]> ∅) fresh_engine.

(** The keyword arguments that [on_send] builds for the dropped box. *)
Definition drop_args : SoundArgs :=
  mkSoundArgs drop_velocity [(0, 0, 0)] [(0, 1, 0)] 42 "plastic_hard_1" DEFAULT_AMP 1 None
    "wood_medium_4" FLOOR_AMP FLOOR_MASS DEFAULT_RESONANCE.

(** ** Views of the engine state *)

Section Views.
Context {ext : Externals}.

(** [get_log]. *)
Definition get_log (e : PyImpact AudioSegment) : gmap string ModeProps :=
  mode_properties_log e.

(** What the sound functions leave alone: the configuration given to
    [__init__], the static audio data and the events of the frame. *)
Definition settings (e : PyImpact AudioSegment) :=
  (initial_amp e, prevent_distortion e, logging e, resonance_audio e, floor e,
   material_data e, static_audio_data_overrides e, collision_events e,
   cached_audio_info e, static_audio_data e, initialized e).

(** The scrape state of one pair. *)
Definition scrape_state (e : PyImpact AudioSegment) (key : scrape_key) :=
  (scrape_summed_masters e !! key, scrape_events_count e !! key,
   scrape_start_velocities e !! key).

(** Two tables of collision info that agree away from one pair. *)
Definition others_kept (secondary : option Z) (primary : Z)
    (om om' : gmap (option Z) (gmap Z CollisionAudioInfo)) : Prop :=
  forall s p, ~ (s = secondary /\ p = primary) -> get_info om' s p = get_info om s p.

(** The configuration given to [__init__]. *)
Definition configuration (e : PyImpact AudioSegment) :=
  (initial_amp e, prevent_distortion e, logging e, resonance_audio e, floor e,
   material_data e).

(** The events that [on_send] turns into sound. *)
Definition is_sounding (event : CollisionAudioEvent) : bool :=
  match collision_type event with
  | impact | scrape => true
  | _ => false
  end.

(** What every command that [on_send] appends has. *)
Definition command_ok (e : PyImpact AudioSegment) (c : Command) : Prop :=
  cmd_type c = command_type e /\ cmd_num_channels c = CHANNELS /\
  cmd_frame_rate c = SAMPLE_RATE.

(** The count of the events of a pair: 0 for a pair without info. *)
Definition pair_count (e : PyImpact AudioSegment) (secondary : option Z) (primary : Z) : Z :=
  match get_info (object_modes e) secondary primary with
  | Some info => cai_count info
  | None => 0
  end.


(** The event count with which [get_scrape_sound] starts: the stored one
    for a pair that has a summed master, 0 for a new scrape. *)
Definition scrape_count (e : PyImpact AudioSegment) (key : scrape_key) : Z :=
  if bool_decide (is_Some (scrape_summed_masters e !! key))
  then default 0%Z (scrape_events_count e !! key) else 0%Z.
End Views.

(** The reference that the resolution loop of [_cache_static_data] stores
    for an object of a given name: to the override table first, to the
    catalog next. *)
Definition resolved_ref (overrides defaults : gmap string ObjectAudioStatic) (name : string)
    : option audio_ref :=
  if bool_decide (is_Some (overrides !! name)) then Some (RefOverride name)
  else if bool_decide (is_Some (defaults !! name)) then Some (RefDefault name)
  else None.

(** ** More concrete inputs *)

(** A scene whose two resolved objects are of different materials, and an
    object of unknown name that takes the most frequent of them. *)
Definition demo_table : ObjectAudioStatic :=
  mkObjectAudioStatic "table" 0.5 20 metal 0.3 0.3 4 0.

Definition tie_engine : PyImpact (@AudioSegment demo_ext) :=
  mkPyImpact 0.5 true false ∅ false wood_medium ∅ ∅
    (<["table"%string := demo_table]> (<["chair"%string := demo_chair]> ∅)) []
    false [] ∅ 0 ∅ ∅ false.

Definition tie_frame : list OutputData :=
  [Segm [(1%Z, "chair"%string, "furniture"%string); (2%Z, "table"%string, "furniture"%string);
         (3%Z, "zzz"%string, "widget"%string)];
   Srig [(1%Z, 8, 0.1); (2%Z, 20, 0.1); (3%Z, 1, 0.2)];
   OtherData].

(** Two chairs of the model that the overrides name. *)
Definition twin_frame : list OutputData :=
  [Segm [(1%Z, "Chair"%string, "furniture"%string); (2%Z, "chair"%string, "furniture"%string)];
   Srig [(1%Z, 8, 0.1); (2%Z, 9, 0.2)];
   OtherData].

(** A chair without static rigidbody data. *)
Definition massless_frame : list OutputData :=
  [Segm [(1%Z, "Chair"%string, "furniture"%string)]; OtherData].

(** A robot with one joint. *)
Definition robot_frame : list OutputData :=
  [Srob [(7%Z, "shoulder"%string, 2)]; OtherData].

(** Two objects of unknown names, of different categories and masses. *)
Definition strangers_frame : list OutputData :=
  [Segm [(1%Z, "aaa"%string, "x"%string); (2%Z, "bbb"%string, "y"%string)];
   Srig [(1%Z, 1, 0.1); (2%Z, 50, 0.2)];
   OtherData].

(** The box touches the floor in a frame without rigidbody data. *)
Definition bare_frame : list OutputData := [Enco drop_collision; OtherData].

(** A frame without collisions. *)
Definition still_frame : list OutputData :=
  [Rigi [(42%Z, mkRigidbody drop_velocity (0, 0, 0) false)]; OtherData].

(** An impact of an object whose size bucket has no material file. *)
Definition odd_args : SoundArgs :=
  mkSoundArgs drop_velocity [(0, 0, 0)] [(0, 1, 0)] 42 "plastic_hard_9" 0.2 0.06 None
    "wood_medium_9" FLOOR_AMP FLOOR_MASS 0.45.

(** Mode sets whose impulse responses the stand-ins read as [1; -3] and []. *)
Definition sharp_modes : Modes := mkModes [] [1; -3] [].
Definition silent_modes : Modes := mkModes [] [] [].

(** [fresh_engine] once the scrape of [slide_args] has begun. *)
Definition slide_engine : PyImpact (@AudioSegment demo_ext) :=
  set_scrape (<[(42%Z, None) := seg_silent (Externals := demo_ext) 0]> ∅) 0
    (<[(42%Z, None) := scrape_mag (1, 0, 0)]> ∅)
    (<[(42%Z, None) := 0%Z]> ∅) fresh_engine.

(** * Properties *)

(** ** numpy floats *)

Lemma np_div_finite (x y : R) : y <> 0 -> np_div (Finite x) (Finite y) = Finite (x / y).
Proof. intros Hy. unfold np_div. by rewrite decide_False. Qed.

Lemma np_div_zero_zero : np_div (Finite 0) (Finite 0) = NaN.
Proof. unfold np_div. by rewrite !decide_True. Qed.

Lemma np_mul_nan_r (a : npfloat) : np_mul a NaN = NaN.
Proof. by destruct a. Qed.

Lemma np_divide_all_finite (x : list R) (d : R) :
  d <> 0 -> np_divide_all x d = map (fun v => Finite (v / d)) x.
Proof.
  intros Hd. unfold np_divide_all. apply map_ext. intros v. by apply np_div_finite.
Qed.

Lemma np_divide_all_zeros (x : list R) :
  Forall (fun v => v = 0) x -> np_divide_all x 0 = map (fun _ => NaN) x.
Proof.
  intros Hx. unfold np_divide_all. apply map_ext_Forall.
  eapply Forall_impl; [exact Hx|]. intros v ->. apply np_div_zero_zero.
Qed.

Lemma length_np_divide_all (x : list R) (d : R) : length (np_divide_all x d) = length x.
Proof. apply length_map. Qed.

Lemma np_maximum_finite (a b : R) : np_maximum (Finite a) (Finite b) = Finite (Rmax a b).
Proof.
  unfold np_maximum, np_gt, Rmax. case_bool_decide; destruct (Rle_dec a b); try done.
  - lra.
  - f_equal. lra.
Qed.

Lemma np_amax_finite (l : list R) : np_amax (map Finite l) = Finite (np_max l).
Proof.
  destruct l as [|x l]; [done|]. cbn [map np_amax np_max]. revert x.
  induction l as [|y l IH]; intros x; [done|].
  cbn [map foldl]. rewrite np_maximum_finite. apply IH.
Qed.

Lemma np_maximum_nan_l (a : npfloat) : np_maximum NaN a = NaN.
Proof. done. Qed.

Lemma np_maximum_nan_r (a : npfloat) : np_maximum a NaN = NaN.
Proof. by destruct a. Qed.

Lemma foldl_np_maximum_nan (l : list npfloat) : foldl np_maximum NaN l = NaN.
Proof. induction l as [|x l IH]; [done|]. cbn [foldl]. by rewrite np_maximum_nan_l. Qed.

(** [np.max] of an array that holds a nan is nan. *)
Lemma np_amax_nan (l : list npfloat) : NaN ∈ l -> np_amax l = NaN.
Proof.
  destruct l as [|x l]; [by intros H%elem_of_nil|]. cbn [np_amax]. revert x.
  induction l as [|y l IH]; intros x Hin.
  - apply list_elem_of_singleton in Hin as <-. done.
  - cbn [foldl]. apply elem_of_cons in Hin as [<-|Hin].
    + rewrite np_maximum_nan_l. apply foldl_np_maximum_nan.
    + apply elem_of_cons in Hin as [<-|Hin].
      * rewrite np_maximum_nan_r. apply foldl_np_maximum_nan.
      * apply IH. by right.
Qed.

(** ** Dictionaries *)

Section DictFacts.
Context {K V : Type} `{EqDecision K}.
Implicit Types (d : dict K V) (k : K) (v : V).

Lemma dget_dset d k k' v :
  dget k' (dset k v d) = if decide (k' = k) then Some v else dget k' d.
Proof.
  induction d as [|[k0 v0] d IH]; simpl.
  - destruct (decide (k' = k)); [done|]. done.
  - destruct (decide (k = k0)) as [->|Hk]; simpl.
    + destruct (decide (k' = k0)); done.
    + rewrite IH. destruct (decide (k' = k0)) as [->|]; [|done].
      by rewrite decide_False by congruence.
Qed.

Lemma dget_dset_eq d k v : dget k (dset k v d) = Some v.
Proof. rewrite dget_dset. by case_decide. Qed.

Lemma dget_dset_ne d k k' v : k' <> k -> dget k' (dset k v d) = dget k' d.
Proof. intros. rewrite dget_dset. by case_decide. Qed.

Lemma dget_None d k : dget k d = None <-> k ∉ dkeys d.
Proof.
  induction d as [|[k0 v0] d IH]; simpl.
  - split; [intros _; apply not_elem_of_nil | done].
  - rewrite not_elem_of_cons. case_decide; subst.
    + split; [done | intros [? _]; done].
    + rewrite IH. tauto.
Qed.

Lemma dget_Some_elem d k v : dget k d = Some v -> (k, v) ∈ d.
Proof.
  induction d as [|[k0 v0] d IH]; simpl; [done|].
  case_decide; subst.
  - intros [= ->]. left.
  - intros. right. auto.
Qed.

Lemma elem_dget d k v : NoDup (dkeys d) -> (k, v) ∈ d -> dget k d = Some v.
Proof.
  induction d as [|[k0 v0] d IH]; simpl.
  - intros _ Hin. by apply elem_of_nil in Hin.
  - rewrite NoDup_cons. intros [Hk Hnd] Hin.
    apply elem_of_cons in Hin as [[= -> ->]|Hin].
    + by case_decide.
    + case_decide; subst; [|auto].
      exfalso. apply Hk. unfold dkeys. apply list_elem_of_fmap. by exists (k0, v).
Qed.

Lemma dkeys_dset d k v :
  dkeys (dset k v d) = if decide (k ∈ dkeys d) then dkeys d else dkeys d ++ [k].
Proof.
  induction d as [|[k0 v0] d IH].
  - destruct (decide (k ∈ dkeys (V:=V) [])) as [Hin|]; [|done].
    by apply elem_of_nil in Hin.
  - change (dkeys ((k0, v0) :: d)) with (k0 :: dkeys d).
    cbn [dset]. destruct (decide (k = k0)) as [->|Hk].
    + rewrite decide_True; [done | left].
    + change (dkeys ((k0, v0) :: dset k v d)) with (k0 :: dkeys (dset k v d)).
      rewrite IH.
      destruct (decide (k ∈ dkeys d)) as [Hin|Hin].
      * rewrite decide_True; [done | by right].
      * rewrite decide_False; [done|]. rewrite not_elem_of_cons. done.
Qed.

Lemma NoDup_dkeys_dset d k v : NoDup (dkeys d) -> NoDup (dkeys (dset k v d)).
Proof.
  intros Hnd. rewrite dkeys_dset. case_decide; [done|].
  apply NoDup_app. split_and!; [done | | apply NoDup_singleton].
  intros x Hx Hx'. apply list_elem_of_singleton in Hx'. by subst.
Qed.

Lemma dmem_true d k : dmem k d = true <-> k ∈ dkeys d.
Proof.
  unfold dmem. rewrite bool_decide_eq_true.
  destruct (dget k d) eqn:E.
  - split; [|by eauto]. intros _.
    destruct (decide (k ∈ dkeys d)) as [|Hn]; [done|].
    apply dget_None in Hn. congruence.
  - split; [intros [? ?]; done|]. intros Hin. by apply dget_None in E.
Qed.
End DictFacts.

(** ** The outcome monad *)

Lemma bind_Done {A B : Type} (m : outcome A) (f : A -> outcome B) (b : B) :
  m ≫= f = Done b -> exists a, m = Done a /\ f a = Done b.
Proof. destruct m; simpl; [eauto | done | done]. Qed.

Lemma for_each_app {A S : Type} (body : S -> A -> outcome S) (s : S) (l1 l2 : list A) :
  for_each body s (l1 ++ l2) = for_each body s l1 ≫= fun s' => for_each body s' l2.
Proof.
  revert s. induction l1 as [|a l1 IH]; intros s; simpl; [done|].
  destruct (body s a); simpl; auto.
Qed.

(** ** The collision classifier *)

Section Classifier.
Context {ext : Externals}.

Lemma grouped_nil : grouped [] [].
Proof. split; [constructor | done]. Qed.

Lemma grouped_add per_object events event :
  grouped per_object events -> grouped (add_event per_object event) (events ++ [event]).
Proof.
  intros [Hnd Hg]. unfold add_event. split.
  - apply NoDup_dkeys_dset. destruct (dmem _ _); [done|]. by apply NoDup_dkeys_dset.
  - intros k. rewrite filter_app, dget_dset.
    assert (Hd : default [] (dget (primary_id event)
                (if dmem (primary_id event) per_object then per_object
                 else dset (primary_id event) [] per_object))
              = default [] (dget (primary_id event) per_object)).
    { destruct (dmem (primary_id event) per_object) eqn:E; [done|].
      rewrite dget_dset_eq.
      assert (dget (primary_id event) per_object = None) as ->; [|done].
      apply dget_None. intros Hin. apply dmem_true in Hin. congruence. }
    rewrite Hd. destruct (decide (k = primary_id event)) as [->|Hk].
    + simpl. rewrite Hg. f_equal. rewrite filter_cons_True by done. done.
    + rewrite filter_cons_False by congruence. rewrite filter_nil, app_nil_r.
      rewrite <- Hg. destruct (dmem _ _); [done|]. by rewrite dget_dset_ne.
Qed.

Lemma collect_events_grouped statics rb prev records per_object0 events0 per_object :
  grouped per_object0 events0 ->
  for_each (fun per_object r =>
              oe ← record_event statics rb prev r;
              Done (match oe with
                    | Some event => add_event per_object event
                    | None => per_object
                    end)) per_object0 records = Done per_object ->
  exists events,
    for_each (fun events r =>
              oe ← record_event statics rb prev r;
              Done (match oe with
                    | Some event => events ++ [event]
                    | None => events
                    end)) events0 records = Done events /\
    grouped per_object events.
Proof.
  revert per_object0 events0. induction records as [|r records IH]; intros po ev Hg; simpl.
  - intros [= <-]. eauto.
  - destruct (record_event statics rb prev r) as [oe| |]; simpl; [|done..].
    destruct oe as [event|]; intros Hrun.
    + eapply IH; [|done]. by apply grouped_add.
    + eapply IH; done.
Qed.

Lemma max_magnitude_spec best l :
  (max_magnitude best l = best \/ max_magnitude best l ∈ l) /\
  magnitude best <= magnitude (max_magnitude best l) /\
  forall c, c ∈ l -> magnitude c <= magnitude (max_magnitude best l).
Proof.
  unfold max_magnitude. revert best. induction l as [|x l IH]; intros best; simpl.
  - split_and!; [by left | lra |]. intros c Hc. by apply elem_of_nil in Hc.
  - destruct (decide (magnitude best < magnitude x)) as [Hlt|Hge].
    + destruct (IH x) as (Hin & Hle & Hall). split_and!.
      * right. destruct Hin as [->|Hin]; [left | by right].
      * lra.
      * intros c Hc. apply elem_of_cons in Hc as [->|Hc]; auto.
    + destruct (IH best) as (Hin & Hle & Hall). split_and!.
      * destruct Hin as [->|Hin]; [by left | right; by right].
      * done.
      * intros c Hc. apply elem_of_cons in Hc as [->|Hc]; [lra | auto].
Qed.

Lemma selected_primary candidates k ev :
  (forall c, c ∈ candidates -> primary_id c = k) ->
  selected candidates = Some ev -> primary_id ev = k.
Proof.
  unfold selected. intros Hk.
  destruct (filter _ candidates) as [|first others] eqn:E; [done|]. intros [= <-].
  apply Hk.
  assert (Hsub : forall c, c ∈ first :: others -> c ∈ candidates).
  { intros c Hc. rewrite <- E in Hc. by apply list_elem_of_filter in Hc as [_ ?]. }
  destruct (max_magnitude_spec first others) as ([->|Hin] & _ & _).
  - apply Hsub. left.
  - apply Hsub. by right.
Qed.

Lemma select_significant_spec per_object acc :
  NoDup (dkeys per_object) ->
  (forall k l c, (k, l) ∈ per_object -> c ∈ l -> primary_id c = k) ->
  NoDup (dkeys acc) ->
  (forall k, k ∈ dkeys acc -> k ∉ dkeys per_object) ->
  let r := foldl (fun acc '(_, candidates) =>
                    match filter (fun e => significant e = true) candidates with
                    | [] => acc
                    | first :: others =>
                        let event := max_magnitude first others in
                        dset (primary_id event) event acc
                    end) acc per_object in
  NoDup (dkeys r) /\
  forall k, dget k r = match dget k acc with
                       | Some v => Some v
                       | None => selected (default [] (dget k per_object))
                       end.
Proof.
  revert acc. induction per_object as [|[k0 l0] po IH]; intros acc Hnd Hprim Hacc Hdisj.
  - simpl. split; [done|]. intros k. unfold selected. simpl. by destruct (dget k acc).
  - change (dkeys ((k0, l0) :: po)) with (k0 :: dkeys po) in *.
    apply NoDup_cons in Hnd as [Hk0 Hnd].
    assert (Hprim' : forall k l c, (k, l) ∈ po -> c ∈ l -> primary_id c = k).
    { intros k l c Hin. apply Hprim. by right. }
    assert (Hacc0 : dget k0 acc = None).
    { apply dget_None. intros Hin. apply Hdisj in Hin. apply Hin. left. }
    cbn [foldl]. 
    pose proof (selected_primary l0 k0) as Hsel. unfold selected in Hsel.
    destruct (filter (fun e => significant e = true) l0) as [|first others] eqn:E.
    + destruct (IH acc Hnd Hprim' Hacc) as [Hr1 Hr2].
      { intros k Hin. apply Hdisj in Hin. rewrite not_elem_of_cons in Hin. tauto. }
      split; [done|]. intros k. rewrite Hr2. destruct (dget k acc) eqn:Ek; [done|].
      cbn [dget]. destruct (decide (k = k0)) as [->|Hne]; [|done].
      change (default [] (Some l0)) with l0. unfold selected at 2. rewrite E.
      assert (dget k0 po = None) as -> by (by apply dget_None). done.
    + cbn zeta.
      assert (Hpid : primary_id (max_magnitude first others) = k0).
      { apply Hsel; [|done]. intros c Hc. eapply Hprim; [left | done]. }
      rewrite Hpid.
      destruct (IH (dset k0 (max_magnitude first others) acc) Hnd Hprim') as [Hr1 Hr2].
      { by apply NoDup_dkeys_dset. }
      { intros k Hin. rewrite dkeys_dset in Hin. destruct (decide (k0 ∈ dkeys acc)).
        - apply Hdisj in Hin. rewrite not_elem_of_cons in Hin. tauto.
        - apply elem_of_app in Hin as [Hin|Hin].
          + apply Hdisj in Hin. rewrite not_elem_of_cons in Hin. tauto.
          + apply list_elem_of_singleton in Hin. by subst. }
      split; [done|]. intros k. rewrite Hr2, dget_dset. cbn [dget].
      destruct (decide (k = k0)) as [->|Hne].
      * rewrite Hacc0. change (default [] (Some l0)) with l0. unfold selected. by rewrite E.
      * done.
Qed.

Lemma significant_true c :
  significant c = true <-> 0 < magnitude c /\ collision_type c <> none.
Proof.
  unfold significant. rewrite andb_true_iff, !bool_decide_eq_true. done.
Qed.

Lemma selected_spec candidates ev :
  selected candidates = Some ev ->
  ev ∈ candidates /\ significant ev = true /\
  forall c, c ∈ candidates -> significant c = true -> magnitude c <= magnitude ev.
Proof.
  unfold selected.
  destruct (filter _ candidates) as [|first others] eqn:E; [done|]. intros [= <-].
  assert (Hsub : forall c, c ∈ first :: others <-> significant c = true /\ c ∈ candidates).
  { intros c. rewrite <- E. apply (list_elem_of_filter (fun e => significant e = true)). }
  destruct (max_magnitude_spec first others) as (Hin & Hle & Hall).
  assert (Hmem : max_magnitude first others ∈ first :: others).
  { destruct Hin as [->|Hin]; [left | by right]. }
  apply Hsub in Hmem as [Hs Hc]. split_and!; [done..|].
  intros c Hc' Hs'. assert (Hc'' : c ∈ first :: others) by (apply Hsub; done).
  apply elem_of_cons in Hc'' as [->|Hc'']; auto.
Qed.

Lemma selected_is_Some candidates c :
  c ∈ candidates -> significant c = true -> is_Some (selected candidates).
Proof.
  intros Hc Hs. unfold selected.
  destruct (filter _ candidates) as [|first others] eqn:E; [|by eauto].
  assert (c ∈ filter (fun e => significant e = true) candidates) as Hin.
  { by apply (list_elem_of_filter (fun e => significant e = true)). }
  rewrite E in Hin. by apply elem_of_nil in Hin.
Qed.

Lemma keys_are_primary_ids (d : dict Z CollisionAudioEvent) :
  NoDup (dkeys d) ->
  (forall k v, dget k d = Some v -> primary_id v = k) ->
  map primary_id (dvalues d) = dkeys d.
Proof.
  induction d as [|[k v] d IH]; [done|].
  change (dkeys ((k, v) :: d)) with (k :: dkeys d).
  intros [Hk Hnd]%NoDup_cons Hp. cbn [dvalues map snd fst].
  f_equal.
  - apply Hp. cbn [dget]. by rewrite decide_True.
  - apply IH; [done|]. intros k' v' Hget. apply Hp. cbn [dget].
    rewrite decide_False; [done|]. intros ->. apply Hk.
    apply dget_Some_elem in Hget. unfold dkeys. apply list_elem_of_fmap. by exists (k, v').
Qed.

(** C1.  After [_get_collision_types], the event map holds at most one
    event per primary id: the primary ids of its values are pairwise
    distinct.  The event stored for a primary is one of the frame's
    candidates for that primary, has a strictly positive magnitude and a
    collision type other than [none], and no such candidate of that primary
    has a larger magnitude; and a primary with such a candidate has an
    event. *)
Theorem significant_event_per_primary (e : PyImpact AudioSegment) (resp : list OutputData)
    (e' : PyImpact AudioSegment) :
  get_collision_types e resp = Done e' ->
  exists candidates,
    frame_events (static_audio_data e) (read_rigidbody_data resp)
      (get_previous_areas (collision_events e)) resp = Done candidates /\
    NoDup (map primary_id (dvalues (collision_events e'))) /\
    (forall pid ev,
       dget pid (collision_events e') = Some ev ->
       primary_id ev = pid /\ ev ∈ candidates /\
       0 < magnitude ev /\ collision_type ev <> none /\
       forall c, c ∈ candidates -> primary_id c = pid ->
                 0 < magnitude c -> collision_type c <> none ->
                 magnitude c <= magnitude ev) /\
    (forall c, c ∈ candidates -> 0 < magnitude c -> collision_type c <> none ->
               is_Some (dget (primary_id c) (collision_events e'))).
Proof.
  unfold get_collision_types. intros Hrun.
  apply bind_Done in Hrun as (per_object & Hcollect & [= <-]).
  unfold collect_events in Hcollect.
  destruct (collect_events_grouped _ _ _ _ _ _ _ grouped_nil Hcollect)
    as (candidates & Hev & Hnd & Hg).
  exists candidates. split; [exact Hev|].
  assert (Hprim : forall k l c, (k, l) ∈ per_object -> c ∈ l -> primary_id c = k).
  { intros k l c Hin Hc. apply (elem_dget _ _ _ Hnd) in Hin.
    specialize (Hg k). rewrite Hin in Hg. cbn in Hg. rewrite Hg in Hc.
    by apply list_elem_of_filter in Hc as [? _]. }
  destruct (select_significant_spec per_object [] Hnd Hprim) as [Hr1 Hr2].
  { constructor. }
  { intros k Hk. by apply elem_of_nil in Hk. }
  cbn [collision_events set_collision_events].
  fold (select_significant per_object) in Hr1, Hr2.
  assert (Hget : forall k, dget k (select_significant per_object)
                           = selected (filter (fun c => primary_id c = k) candidates)).
  { intros k. rewrite Hr2, <- Hg. done. }
  assert (Hkey : forall k v, dget k (select_significant per_object) = Some v ->
                             primary_id v = k).
  { intros k v Hv. rewrite Hget in Hv. apply selected_spec in Hv as (Hin & _ & _).
    by apply list_elem_of_filter in Hin as [? _]. }
  split_and!.
  - rewrite keys_are_primary_ids; done.
  - intros pid ev Hv. split; [by eapply Hkey|].
    rewrite Hget in Hv. apply selected_spec in Hv as (Hin & Hs & Hmax).
    apply list_elem_of_filter in Hin as [_ Hin]. apply significant_true in Hs as [? ?].
    split_and!; [done..|]. intros c Hc Hp Hm Ht. apply Hmax.
    + by apply (list_elem_of_filter (fun c => primary_id c = _)).
    + by apply significant_true.
  - intros c Hc Hm Ht. rewrite Hget. apply (selected_is_Some _ c).
    + by apply (list_elem_of_filter (fun c => primary_id c = _)).
    + by apply significant_true.
Qed.
End Classifier.

(** ** Unknown objects *)

Section UnknownObject.
Context {ext : Externals}.

Lemma record_event_outcome statics rb prev r :
  (exists oe, record_event statics rb prev r = Done oe) \/
  (exists k, record_event statics rb prev r = Raise (KeyError k)).
Proof.
  unfold record_event, dindex, mindex. destruct r; simpl; eauto.
  - destruct (dget (collider_id c) statics); simpl; [|eauto].
    destruct (rb !! collider_id c); simpl; [|eauto].
    destruct (dget (collidee_id c) statics); simpl; [|eauto].
    destruct (rb !! collidee_id c); simpl; eauto.
  - destruct (dget (env_object_id c) statics); simpl; [|eauto].
    destruct (rb !! env_object_id c); simpl; eauto.
Qed.

Lemma record_event_unknown statics rb prev r id :
  id ∈ record_ids r -> dget id statics = None ->
  exists k, record_event statics rb prev r = Raise (KeyError k).
Proof.
  intros Hid Hnone.
  destruct (record_event_outcome statics rb prev r) as [[oe Hd]|]; [|done].
  exfalso. revert Hd. unfold record_event, dindex, mindex.
  destruct r; simpl in Hid; try (by apply elem_of_nil in Hid).
  - destruct (dget (collider_id c) statics) eqn:E0; simpl; [|done].
    destruct (rb !! collider_id c); simpl; [|done].
    destruct (dget (collidee_id c) statics) eqn:E1; simpl; [|done].
    apply elem_of_cons in Hid as [->|Hid]; [congruence|].
    apply list_elem_of_singleton in Hid as ->. congruence.
  - apply list_elem_of_singleton in Hid as ->. by rewrite Hnone.
Qed.

Lemma collect_events_unknown statics rb prev records per_object r id :
  r ∈ records -> id ∈ record_ids r -> dget id statics = None ->
  exists k,
    for_each (fun per_object r =>
                oe ← record_event statics rb prev r;
                Done (match oe with
                      | Some event => add_event per_object event
                      | None => per_object
                      end)) per_object records = Raise (KeyError k).
Proof.
  intros Hr Hid Hnone. revert per_object.
  induction records as [|r0 records IH]; intros per_object.
  - by apply elem_of_nil in Hr.
  - simpl. apply elem_of_cons in Hr as [<-|Hr].
    + destruct (record_event_unknown statics rb prev r id Hid Hnone) as [k ->].
      simpl. eauto.
    + destruct (record_event_outcome statics rb prev r0) as [[oe ->]|[k ->]]; simpl; eauto.
Qed.

End UnknownObject.

(** ** [reset] *)

(** C10.  [reset] with a valid argument returns an engine whose
    [initial_amp] is the one it had before: the argument is checked and
    dropped. *)
Theorem reset_keeps_initial_amp {Segment : Type} (e : PyImpact Segment) (a : R) :
  0 < a < 1 ->
  exists e', reset e a = Done e' /\ initial_amp e' = initial_amp e.
Proof.
  intros [H0 H1]. unfold reset, valid_initial_amp.
  rewrite !bool_decide_eq_true_2 by done. simpl. eauto.
Qed.

Lemma reset_rejects_invalid {Segment : Type} (e : PyImpact Segment) (a : R) :
  ~ (0 < a < 1) -> reset e a = Raise AssertionError.
Proof.
  intros Hn. unfold reset, valid_initial_amp.
  destruct (bool_decide (0 < a)) eqn:E0; [|done].
  destruct (bool_decide (a < 1)) eqn:E1; [|done].
  apply bool_decide_eq_true in E0, E1. tauto.
Qed.

(** ** Numbers *)

Lemma Rfloor_spec (x : R) (z : Z) : IZR z <= x < IZR z + 1 -> Rfloor x = z.
Proof.
  intros [Hlo Hhi]. unfold Rfloor.
  assert (Hup : (z + 1)%Z = up x).
  { apply tech_up; rewrite plus_IZR; lra. }
  lia.
Qed.

Lemma Rfloor_nonneg (x : R) : 0 <= x -> (0 <= Rfloor x)%Z.
Proof.
  intros Hx. unfold Rfloor. destruct (archimed x) as [Hgt _].
  assert (0 < IZR (up x)) as Hpos by lra.
  apply lt_IZR in Hpos. lia.
Qed.

Lemma Rceil_spec (x : R) (z : Z) : IZR z - 1 < x <= IZR z -> Rceil x = z.
Proof.
  intros [Hlo Hhi]. unfold Rceil.
  rewrite (Rfloor_spec (- x) (- z)); [lia|]. rewrite opp_IZR. lra.
Qed.

Lemma Rceil_pos (x : R) : 0 < x -> (1 <= Rceil x)%Z.
Proof.
  intros Hx. unfold Rceil, Rfloor. destruct (archimed (- x)) as [_ Hle].
  assert (IZR (up (- x)) <= 1 - x) as H1 by lra.
  assert (IZR (up (- x)) < 1) as H2 by lra.
  apply lt_IZR in H2. lia.
Qed.

Lemma foldl_Rmax_init (a : R) (l : list R) : a <= foldl Rmax a l.
Proof.
  revert a. induction l as [|x l IH]; intros a; simpl; [lra|].
  etrans; [|apply IH]. apply Rmax_l.
Qed.

Lemma foldl_Rmax_elem (a x : R) (l : list R) : x ∈ l -> x <= foldl Rmax a l.
Proof.
  revert a. induction l as [|y l IH]; intros a Hin; simpl.
  - by apply elem_of_nil in Hin.
  - apply elem_of_cons in Hin as [->|Hin]; [|by apply IH].
    etrans; [|apply foldl_Rmax_init]. apply Rmax_r.
Qed.

Lemma np_max_ge (x : R) (l : list R) : x ∈ l -> x <= np_max l.
Proof.
  destruct l as [|y l]; simpl; intros Hin.
  - by apply elem_of_nil in Hin.
  - apply elem_of_cons in Hin as [->|Hin].
    + apply foldl_Rmax_init.
    + by apply foldl_Rmax_elem.
Qed.

Lemma peak_ge (x : R) (l : list R) : x ∈ l -> Rabs x <= peak l.
Proof.
  intros Hin. unfold peak. apply np_max_ge.
  apply list_elem_of_fmap. by exists x.
Qed.

Lemma foldl_Rmax_in (a : R) (l : list R) : foldl Rmax a l = a \/ foldl Rmax a l ∈ l.
Proof.
  revert a. induction l as [|y l IH]; intros a; simpl; [by left|].
  destruct (IH (Rmax a y)) as [->|Hin].
  - unfold Rmax. destruct (Rle_dec a y); [right; left | by left].
  - right. by right.
Qed.

Lemma np_max_in (l : list R) : l <> [] -> np_max l ∈ l.
Proof.
  destruct l as [|y l]; [done|]. intros _. simpl.
  destruct (foldl_Rmax_in y l) as [->|Hin]; [left | by right].
Qed.

Lemma length_linspace (start stop : R) (num : nat) :
  length (linspace start stop num) = num.
Proof.
  unfold linspace. destruct num as [|[|n]]; [done..|].
  by rewrite length_map, length_seq.
Qed.

(** ** Modal synthesis *)

Section Synthesis.
Context {ext : Externals}.

Lemma force_samples_pos (mass : R) : 0 < mass -> (1 <= force_samples mass)%Z.
Proof.
  intros Hm. unfold force_samples. apply Rceil_pos.
  apply Rmult_lt_0_compat; [|lra].
  apply Rmin_glb_lt; lra.
Qed.

Lemma length_pointwise_add (a b : list R) :
  length (pointwise_add a b) = (length a `max` length b)%nat.
Proof.
  revert b. induction a as [|x a IH]; intros [|y b]; simpl; auto.
Qed.

Lemma convolve_nonempty (h f : list R) : h <> [] -> f <> [] -> convolve h f <> [].
Proof.
  destruct h as [|a h]; [done|]. destruct f as [|b f]; [done|]. intros _ _.
  cbn [convolve map]. destruct h; cbn [pointwise_add]; discriminate.
Qed.

(** The force pulse has [force_samples mass] samples, and for a positive
    mass and a non-empty impulse response the synthesis returns the
    convolution divided by the absolute value of its largest sample. *)
Lemma synth_impact_modes_returns (modes1 modes2 : Modes) (mass resonance : R) :
  0 < mass ->
  mode_add (Modes_sum_modes modes1 resonance) (Modes_sum_modes modes2 resonance) <> [] ->
  let h := mode_add (Modes_sum_modes modes1 resonance) (Modes_sum_modes modes2 resonance) in
  let frc := map sin (linspace 0 PI (Z.to_nat (force_samples mass))) in
  let x := fftconvolve h frc in
  length frc = Z.to_nat (force_samples mass) /\ x <> [] /\
  synth_impact_modes modes1 modes2 mass resonance
  = Done (Some (np_divide_all x (Rabs (np_max x)))).
Proof.
  intros Hm Hh h frc x.
  pose proof (force_samples_pos mass Hm) as Hn.
  assert (Hlen : length frc = Z.to_nat (force_samples mass)).
  { unfold frc. by rewrite length_map, length_linspace. }
  assert (Hfrc : frc <> []).
  { intros E. rewrite E in Hlen. simpl in Hlen. lia. }
  assert (Hx : x <> []).
  { unfold x, fftconvolve. destruct frc eqn:E; [done|]. by apply convolve_nonempty. }
  split_and!; [done..|].
  unfold synth_impact_modes. fold h.
  destruct (length h =? 0)%nat eqn:El.
  { apply Nat.eqb_eq in El. apply nil_length_inv in El. by destruct Hh. }
  destruct (force_samples mass <? 0)%Z eqn:En; [lia|].
  fold frc. fold x. clearbody x. destruct x; done.
Qed.

Lemma half_sine_3 : map sin (linspace 0 PI 3) = [0; 1; 0].
Proof.
  unfold linspace. cbn [seq map Nat.sub].
  replace (0 + INR 0 * ((PI - 0) / INR 2)) with 0 by (simpl; lra).
  replace (0 + INR 1 * ((PI - 0) / INR 2)) with (PI / 2) by (simpl; lra).
  replace (0 + INR 2 * ((PI - 0) / INR 2)) with PI by (simpl; lra).
  by rewrite sin_0, sin_PI2, sin_PI.
Qed.

(** C5.  Evaluation at a failing input: for mode sets whose combined
    impulse response is [1; -3] and the mass 0.06 (a force pulse of 3
    samples, [0; 1; 0]), the sound returned is [0; 1; -3; 0], whose peak
    absolute value is 3: the convolution is divided by the absolute value
    of its largest sample, 1, not by its largest absolute value. *)
Theorem synth_impact_modes_peak_three (modes1 modes2 : Modes) (resonance : R) :
  Modes_sum_modes modes1 resonance = [1; -3] ->
  Modes_sum_modes modes2 resonance = [] ->
  force_samples 0.06 = 3%Z /\
  synth_impact_modes modes1 modes2 0.06 resonance = Done (Some (map Finite [0; 1; -3; 0])) /\
  peak [0; 1; -3; 0] = 3.
Proof.
  intros H1 H2.
  assert (Hn : force_samples 0.06 = 3%Z).
  { unfold force_samples. rewrite Rmin_left by lra. apply Rceil_spec. lra. }
  split_and!; [done| |].
  - unfold synth_impact_modes. rewrite H1, H2, Hn.
    change (Z.to_nat 3) with 3%nat. rewrite half_sine_3.
    cbn [mode_add pointwise_add length Nat.eqb Z.ltb Z.compare fftconvolve convolve map np_max
         foldl].
    replace (1 * 0 + 0) with 0 by lra.
    replace (1 * 1 + -3 * 0) with 1 by lra.
    replace (1 * 0 + -3 * 1) with (-3) by lra.
    replace (-3 * 0) with 0 by lra.
    rewrite (Rmax_right 0 1) by lra. rewrite (Rmax_left 1 (-3)) by lra.
    rewrite (Rmax_left 1 0) by lra. rewrite Rabs_R1.
    rewrite np_divide_all_finite by lra. cbn [map].
    do 2 f_equal. repeat f_equal; lra.
  - unfold peak. cbn -[Rabs Rmax].
    rewrite Rabs_R0, Rabs_R1, (Rabs_left (-3)) by lra.
    rewrite (Rmax_right 0 1) by lra. rewrite (Rmax_right 1 (- -3)) by lra.
    rewrite (Rmax_left (- -3) 0) by lra. lra.
Qed.
(** A mass of at most 1/44.1 kg gives a force pulse of one sample,
    [sin 0]: the convolution is an array of zeros and every sample of the
    sound is [0 / 0]. *)
Lemma force_samples_light (mass : R) : 0 < mass -> mass * 44.1 <= 1 -> force_samples mass = 1%Z.
Proof.
  intros Hm Hl. unfold force_samples. rewrite Rmin_left by lra. apply Rceil_spec. lra.
Qed.

Lemma convolve_zero_pulse (h : list R) : convolve h [0] = replicate (length h) 0.
Proof.
  induction h as [|a h IH]; [done|]. cbn [convolve map length replicate].
  destruct h as [|b h].
  - cbn [pointwise_add replicate]. f_equal. lra.
  - rewrite IH. cbn [length replicate pointwise_add]. f_equal. lra.
Qed.

Lemma np_max_zeros (n : nat) : np_max (replicate n 0) = 0.
Proof.
  destruct n as [|n]; [done|]. cbn [replicate np_max].
  induction n as [|n IH]; [done|]. cbn [replicate foldl]. by rewrite Rmax_left by lra.
Qed.

Lemma synth_impact_modes_light (modes1 modes2 : Modes) (mass resonance : R) :
  0 < mass -> mass * 44.1 <= 1 ->
  let h := mode_add (Modes_sum_modes modes1 resonance) (Modes_sum_modes modes2 resonance) in
  synth_impact_modes modes1 modes2 mass resonance
  = Done (match h with
          | [] => None
          | _ => Some (replicate (length h) NaN)
          end).
Proof.
  intros Hm Hl h. unfold synth_impact_modes. fold h.
  rewrite (force_samples_light mass Hm Hl).
  destruct h as [|a h']; [done|].
  cbn [length Nat.eqb]. change (1 <? 0)%Z with false. cbv iota.
  change (Z.to_nat 1) with 1%nat. cbn [linspace map]. rewrite sin_0.
  cbn [fftconvolve]. rewrite convolve_zero_pulse. cbn [length replicate].
  change (0 :: replicate (length h') 0) with (replicate (S (length h')) 0).
  rewrite np_max_zeros, Rabs_R0.
  rewrite np_divide_all_zeros by (apply Forall_replicate; done).
  do 2 f_equal. change (NaN :: replicate (length h') NaN) with (replicate (S (length h')) NaN).
  generalize (S (length h')). intros n.
  induction n as [|n IH]; [done|]. cbn [replicate map]. by rewrite IH.
Qed.
End Synthesis.

(** ** Impact sounds *)

(** Inverting a successful run, one [bind] at a time. *)
Tactic Notation "inv_bind" hyp(H) "as" simple_intropattern(p) ident(Hx) :=
  apply bind_Done in H as (p & Hx & H); cbv beta iota in H.

Section ImpactSound.
Context {ext : Externals}.

(** With distortion prevention on, an amp that is not nan is a number of
    absolute value at most 0.99 after the clamp; a nan stays. *)
Lemma clamp_amp_bound (amp : npfloat) :
  amp <> NaN -> exists c, clamp_amp true amp = Finite c /\ Rabs c <= 0.99.
Proof.
  intros Hamp. unfold clamp_amp. destruct amp as [x| | |]; cbn [np_abs np_gt andb]; [| | |done].
  - case_bool_decide as Hc.
    + exists 0.99. split; [done|]. rewrite Rabs_right; lra.
    + exists x. split; [done|]. lra.
  - exists 0.99. split; [done|]. rewrite Rabs_right; lra.
  - exists 0.99. split; [done|]. rewrite Rabs_right; lra.
Qed.

Lemma clamp_amp_nan (prevent : bool) : clamp_amp prevent NaN = NaN.
Proof. unfold clamp_amp. cbn [np_abs np_gt]. by rewrite andb_false_r. Qed.

(** The scaling of a sound of numbers by an amp that is a number after the
    clamp: the sound divided by its peak and multiplied by the amp. *)
Lemma scale_sound_finite (prevent : bool) (amp : npfloat) (c : R) (raw : list R) :
  clamp_amp prevent amp = Finite c -> peak raw <> 0 ->
  scale_sound prevent amp (map Finite raw) = map (fun v => Finite (c * v / peak raw)) raw.
Proof.
  intros Hc Hp. unfold scale_sound. rewrite Hc.
  assert (Hpeak : np_amax (map np_abs (map Finite raw)) = Finite (peak raw)).
  { rewrite map_map. cbn [np_abs]. rewrite <- (map_map Rabs Finite). apply np_amax_finite. }
  rewrite Hpeak, map_map. apply map_ext. intros v. cbn [np_mul]. by apply np_div_finite.
Qed.

(** The scaled sound has peak [|amp|] after the clamp. *)
Lemma scale_sound_bound (c : R) (raw : list R) :
  Rabs c <= 0.99 -> peak raw <> 0 ->
  Forall (fun v => Rabs v <= 0.99) (map (fun v => c * v / peak raw) raw).
Proof.
  intros Hc Hp. apply Forall_forall. intros v Hv.
  apply list_elem_of_fmap in Hv as (s & -> & Hs).
  pose proof (peak_ge s raw Hs) as Hle.
  pose proof (Rabs_pos s) as Hs0.
  pose proof (Rabs_pos c) as Hc0.
  assert (Hpos : 0 < peak raw) by lra.
  unfold Rdiv. rewrite !Rabs_mult, (Rabs_inv (peak raw)), (Rabs_right (peak raw)) by lra.
  assert (Hr : Rabs s * / peak raw <= 1).
  { apply (Rmult_le_reg_r (peak raw)); [done|]. rewrite Rmult_assoc, Rinv_l by lra. lra. }
  assert (Hr0 : 0 <= Rabs s * / peak raw).
  { apply Rmult_le_pos; [done|]. left. by apply Rinv_0_lt_compat. }
  rewrite Rmult_assoc. nra.
Qed.

(** A sound of nans stays one, whatever the amp and the clamp. *)
Lemma scale_sound_nans (prevent : bool) (amp : npfloat) (n : nat) :
  scale_sound prevent amp (replicate n NaN) = replicate n NaN.
Proof.
  unfold scale_sound. generalize (np_amax (map np_abs (replicate n NaN))). intros pk.
  induction n as [|n IH]; [done|]. cbn [replicate map]. by rewrite IH, np_mul_nan_r.
Qed.

Lemma np_amax_nans (n : nat) : np_amax (map np_abs (replicate (S n) NaN)) = NaN.
Proof. apply np_amax_nan. cbn [replicate map np_abs]. left. Qed.

(** What [synthesize_impact] leaves behind: the pair has an info, and the
    configuration of the engine is what it was. *)
Lemma synthesize_impact_post fuel (e : PyImpact AudioSegment) g a sound amp e1 g1 :
  synthesize_impact fuel e g a = Done (sound, amp, e1, g1) ->
  prevent_distortion e1 = prevent_distortion e /\
  exists info, lookup_info (object_modes e1) (a_secondary_id a) (a_primary_id a) = Done info.
Proof.
  unfold synthesize_impact. intros H.
  destruct (decide (a_primary_amp a = 0)); [done|].
  inv_bind H as inner Hinner.
  inv_bind H as [om g0] Hom.
  inv_bind H as info0 Hinfo0.
  inv_bind H as [[[[[snd0 m1] m2] amp0] e0] g2] Hbranch.
  inv_bind H as info1 Hinfo1.
  injection H as <- <- <- <-.
  assert (He0 : prevent_distortion e0 = prevent_distortion e).
  { destruct (cai_count info0 =? 0)%Z.
    - inv_bind Hbranch as [[[s1 ma] mb] ea] Hmake.
      inv_bind Hbranch as info2 Hinfo2.
      injection Hbranch as <- <- <- <- <- <-.
      unfold make_impact_audio in Hmake.
      inv_bind Hmake as info3 Hinfo3. inv_bind Hmake as s2 Hs2.
      injection Hmake as <- <- <- <-. done.
    - destruct (normal_vector 0 2 _ g0) as [n1 ga].
      destruct (normal_vector 0 2 _ ga) as [n2 gb].
      inv_bind Hbranch as s2 Hs2. injection Hbranch as <- <- <- <- <- <-. done. }
  split.
  - destruct (logging e0); done.
  - exists info1. destruct (logging e0); done.
Qed.

(** The sound that [synthesize_impact] returns is what [synth_impact_modes]
    gives for two mode sets, the smaller of the two masses and the
    resonance. *)
Lemma synthesize_impact_sound fuel (e : PyImpact AudioSegment) g a sound amp e1 g1 :
  synthesize_impact fuel e g a = Done (sound, amp, e1, g1) ->
  exists modes_1 modes_2,
    synth_impact_modes modes_1 modes_2 (Rmin (a_primary_mass a) (a_secondary_mass a))
      (a_resonance a) = Done sound.
Proof.
  unfold synthesize_impact. intros H.
  destruct (decide (a_primary_amp a = 0)); [done|].
  inv_bind H as inner Hinner.
  inv_bind H as [om g0] Hom.
  inv_bind H as info0 Hinfo0.
  inv_bind H as [[[[[snd0 m1] m2] amp0] e0] g2] Hbranch.
  inv_bind H as info1 Hinfo1.
  injection H as <- <- <- <-.
  destruct (cai_count info0 =? 0)%Z.
  - inv_bind Hbranch as [[[s1 ma] mb] ea] Hmake.
    inv_bind Hbranch as info2 Hinfo2.
    injection Hbranch as <- <- <- <- <- <-.
    unfold make_impact_audio in Hmake.
    inv_bind Hmake as info3 Hinfo3. inv_bind Hmake as s2 Hs2.
    injection Hmake as <- <- <- <-. eauto.
  - destruct (normal_vector 0 2 _ g0) as [n1 ga].
    destruct (normal_vector 0 2 _ ga) as [n2 gb].
    inv_bind Hbranch as s2 Hs2. injection Hbranch as <- <- <- <- <- <-. eauto.
Qed.

(** What [get_sound] does keep of the bound.  With [prevent_distortion]
    set, a sound returned by [get_sound] has no sample above 0.99 in
    absolute value when the synthesized sound it is scaled from is an array
    of numbers with a non-zero peak and the amp is not nan: it is that
    sound divided by its peak and multiplied by the amp, which is replaced
    by 0.99 when its absolute value exceeds 0.99. *)
Lemma get_sound_peak_bound (fuel : nat) (e : PyImpact AudioSegment) (g : RandomState)
    (a : SoundArgs) (raw : list R) (amp : npfloat) (e1 : PyImpact AudioSegment)
    (g1 : RandomState) :
  prevent_distortion e = true ->
  synthesize_impact fuel e g a = Done (Some (map Finite raw), amp, e1, g1) ->
  peak raw <> 0 ->
  amp <> NaN ->
  exists c pcm e2,
    clamp_amp true amp = Finite c /\ Rabs c <= 0.99 /\
    (forall x, amp = Finite x -> Rabs x <= 0.99 -> c = x) /\
    ((forall x, amp = Finite x -> 0.99 < Rabs x) -> c = 0.99) /\
    pcm = map (fun v => c * v / peak raw) raw /\
    get_sound_pcm fuel e g a = Done (Some (map Finite pcm), e2, g1) /\
    get_sound fuel e g a = Done (Some (Base64Sound_init (map Finite pcm)), e2, g1) /\
    peak pcm <= 0.99 /\
    Forall (fun v => Rabs v <= 0.99) pcm.
Proof.
  intros Hprevent Hsyn Hpeak Hamp.
  destruct (synthesize_impact_post _ _ _ _ _ _ _ _ Hsyn) as (Hp1 & info & Hinfo).
  destruct (clamp_amp_bound amp Hamp) as (c & Hc & Hcb).
  assert (Hrun : get_sound_pcm fuel e g a
                 = Done (Some (map Finite (map (fun v => c * v / peak raw) raw)),
                         set_object_modes
                           (store_info (object_modes e1) (a_secondary_id a) (a_primary_id a)
                              (count_collisions info)) e1, g1)).
  { unfold get_sound_pcm. rewrite Hsyn. simpl. rewrite Hinfo. simpl.
    rewrite Hp1, Hprevent. rewrite (scale_sound_finite true amp c raw Hc Hpeak).
    by rewrite map_map. }
  pose proof (scale_sound_bound c raw Hcb Hpeak) as Hall.
  exists c. eexists _, _.
  split_and!; [done | done | | | reflexivity | exact Hrun | | | done].
  - intros x -> Hx. unfold clamp_amp in Hc. cbn [np_abs np_gt andb] in Hc.
    rewrite bool_decide_eq_false_2 in Hc by lra. by injection Hc as <-.
  - intros Hbig. unfold clamp_amp in Hc. destruct amp as [x| | |]; [| | |done].
    + cbn [np_abs np_gt andb] in Hc.
      rewrite bool_decide_eq_true_2 in Hc by (by apply Hbig). by injection Hc as <-.
    + by injection Hc as <-.
    + by injection Hc as <-.
  - unfold get_sound. by rewrite Hrun.
  - assert (Hne : map Rabs (map (fun v => c * v / peak raw) raw) <> []).
    { destruct raw; [|done]. by destruct Hpeak. }
    pose proof (np_max_in _ Hne) as Hin.
    apply list_elem_of_fmap in Hin as (v & Hv & Hvin). unfold peak at 1. rewrite Hv.
    rewrite Forall_forall in Hall. by apply Hall.
Qed.

(** C4.  An impact whose smaller mass is at most 1/44.1 kg (22.7 g) has a
    force pulse of one sample, [sin 0 = 0].  The convolution is an array of
    zeros, [synth_impact_modes] divides it by its largest sample, 0, and
    the clamp of the amp and the final scaling leave the nans as they are:
    every sound that [get_sound] returns for such an impact is an array of
    nans, with [prevent_distortion] set or not, and its peak is not a
    number at most 0.99. *)
Theorem light_impact_sound_is_nan (fuel : nat) (e : PyImpact AudioSegment) (g : RandomState)
    (a : SoundArgs) (pcm : list npfloat) (e' : PyImpact AudioSegment) (g' : RandomState) :
  0 < Rmin (a_primary_mass a) (a_secondary_mass a) ->
  Rmin (a_primary_mass a) (a_secondary_mass a) * 44.1 <= 1 ->
  get_sound_pcm fuel e g a = Done (Some pcm, e', g') ->
  get_sound fuel e g a = Done (Some (Base64Sound_init pcm), e', g') /\
  pcm <> [] /\
  Forall (fun v => v = NaN) pcm /\
  np_amax (map np_abs pcm) = NaN /\
  np_le (np_amax (map np_abs pcm)) (Finite 0.99) = false.
Proof.
  intros Hm Hl Hrun.
  assert (Hsound : get_sound fuel e g a = Done (Some (Base64Sound_init pcm), e', g')).
  { unfold get_sound. by rewrite Hrun. }
  split; [exact Hsound|]. clear Hsound.
  unfold get_sound_pcm in Hrun.
  inv_bind Hrun as [[[sound amp] e1] g1] Hsyn.
  destruct (synthesize_impact_sound _ _ _ _ _ _ _ _ Hsyn) as (m1 & m2 & Hsynth).
  rewrite (synth_impact_modes_light m1 m2 _ _ Hm Hl) in Hsynth. cbv zeta in Hsynth.
  destruct sound as [sound|]; [|done].
  inv_bind Hrun as info Hinfo. injection Hrun as <- _ _.
  destruct (mode_add (Modes_sum_modes m1 (a_resonance a)) (Modes_sum_modes m2 (a_resonance a)))
    as [|x h]; [done|].
  injection Hsynth as <-.
  change (NaN :: replicate (length h) NaN) with (replicate (S (length h)) NaN).
  rewrite scale_sound_nans.
  split_and!.
  - done.
  - apply Forall_replicate. done.
  - apply np_amax_nans.
  - by rewrite np_amax_nans.
Qed.
End ImpactSound.

(** ** Stored modes *)

Section StoredModes.
Context {ext : Externals}.

Lemma lookup_info_Done om s p info :
  lookup_info om s p = Done info <-> get_info om s p = Some info.
Proof.
  unfold lookup_info, get_info, mindex. destruct (om !! s) as [inner|]; simpl; [|done].
  destruct (inner !! p); simpl; split; congruence.
Qed.

Lemma get_info_store om s p info s' p' :
  get_info (store_info om s p info) s' p'
  = if decide (s' = s /\ p' = p) then Some info else get_info om s' p'.
Proof.
  unfold get_info, store_info. destruct (decide (s' = s)) as [->|Hs].
  - rewrite lookup_insert_eq. simpl. destruct (decide (p' = p)) as [->|Hp].
    + rewrite lookup_insert_eq. by rewrite decide_True.
    + rewrite lookup_insert_ne by done. rewrite decide_False by tauto.
      destruct (om !! s); simpl; [done|]. apply lookup_empty.
  - rewrite lookup_insert_ne by done. by rewrite decide_False by tauto.
Qed.

Lemma get_info_insert_empty (om : gmap (option Z) (gmap Z CollisionAudioInfo)) s s' p' :
  om !! s = None -> get_info (<[s := ∅]> om) s' p' = get_info om s' p'.
Proof.
  intros Hn. unfold get_info. destruct (decide (s' = s)) as [->|Hs].
  - rewrite lookup_insert_eq, Hn. simpl. apply lookup_empty.
  - by rewrite lookup_insert_ne.
Qed.

Lemma every_info_store (P : CollisionAudioInfo -> Prop) (e : PyImpact AudioSegment) s p info :
  every_info P e -> P info ->
  every_info P (set_object_modes (store_info (object_modes e) s p info) e).
Proof.
  intros He Hi s' p' info'. cbn [object_modes set_object_modes].
  rewrite get_info_store. case_decide; [by intros [= <-] | exact (He s' p' info')].
Qed.

(** *** Sampling *)

Lemma sample_at_least_ge fuel bound center g j g' :
  sample_at_least fuel bound center g = Done (j, g') -> bound <= j.
Proof.
  revert g. induction fuel as [|fuel IH]; intros g; simpl; [done|].
  unfold random_normal. destruct (decide (center / 10 < 0)); simpl; [done|].
  destruct (np_random_normal 0 (center / 10) g) as [x g0]. simpl.
  destruct (decide (center + x < bound)); [apply IH|]. intros [= <- <-]. lra.
Qed.

Lemma sample_mode_ok fuel data f p t g jm f' p' t' g' :
  sample_mode fuel data (f, p, t, g) jm = Done (f', p', t', g') ->
  Forall (fun x => 20 <= x) f -> Forall (fun x => 1 <= x) t ->
  (length f' = S (length f) /\ length p' = S (length p) /\ length t' = S (length t)) /\
  Forall (fun x => 20 <= x) f' /\ Forall (fun x => 1 <= x) t'.
Proof.
  unfold sample_mode. intros H Hf Ht.
  inv_bind H as cf Hcf. inv_bind H as [jf g0] Hjf. inv_bind H as op Hop.
  inv_bind H as [x g1] Hx. inv_bind H as rt Hrt. inv_bind H as [jt g2] Hjt.
  injection H as <- <- <- <-.
  apply sample_at_least_ge in Hjf, Hjt.
  rewrite !length_app. simpl. split_and!; try lia.
  - apply Forall_app. split; [done|]. by apply Forall_singleton.
  - apply Forall_app. split; [done|]. apply Forall_singleton. lra.
Qed.

Lemma sample_modes_ok fuel data l f p t g f' p' t' g' :
  for_each (sample_mode fuel data) (f, p, t, g) l = Done (f', p', t', g') ->
  Forall (fun x => 20 <= x) f -> Forall (fun x => 1 <= x) t ->
  (length f' = (length f + length l)%nat /\ length p' = (length p + length l)%nat /\
   length t' = (length t + length l)%nat) /\
  Forall (fun x => 20 <= x) f' /\ Forall (fun x => 1 <= x) t'.
Proof.
  revert f p t g. induction l as [|jm l IH]; intros f p t g; simpl.
  - intros [= <- <- <- <-]. intros. split_and!; try done; lia.
  - intros H Hf Ht. inv_bind H as [[[f0 p0] t0] g0] Hstep.
    destruct (sample_mode_ok _ _ _ _ _ _ _ _ _ _ _ Hstep Hf Ht) as ((L1 & L2 & L3) & Hf0 & Ht0).
    destruct (IH _ _ _ _ H Hf0 Ht0) as ((M1 & M2 & M3) & Hf' & Ht').
    split_and!; try done; lia.
Qed.

(** Freshly sampled modes: ten of each, within the bounds. *)
Lemma get_object_modes_ok fuel (e : PyImpact AudioSegment) material g m g' :
  get_object_modes fuel e material g = Done (m, g') ->
  (length (frequencies m) = 10%nat /\ length (powers m) = 10%nat /\
   length (decay_times m) = 10%nat) /\
  frequencies_ok m /\ decay_times_ok m.
Proof.
  unfold get_object_modes. intros H. inv_bind H as data Hdata.
  inv_bind H as [[[f p] t] g0] Hloop. injection H as <- <-.
  apply sample_modes_ok in Hloop; [|constructor..]. exact Hloop.
Qed.

(** *** Invariants of [get_sound] *)

Lemma get_sound_pcm_every_info (P : CollisionAudioInfo -> Prop) fuel
    (e : PyImpact AudioSegment) g a r e' g' :
  (forall m1 m2 amp,
     frequencies_ok m1 -> decay_times_ok m1 -> frequencies_ok m2 -> decay_times_ok m2 ->
     P (CollisionAudioInfo_init m1 m2 amp)) ->
  (forall i, P i ->
     P (mkCollisionAudioInfo (obj1_modes i)
          (shift_decay_times (a_secondary_amp a / a_primary_amp a) (obj2_modes i))
          (cai_amp i) (init_speed i) (cai_count i))) ->
  (forall i1 i2, same_bounds_data i1 i2 -> P i1 -> P i2) ->
  get_sound_pcm fuel e g a = Done (r, e', g') ->
  every_info P e -> every_info P e'.
Proof.
  intros Hfresh Hshift Hsame H He.
  unfold get_sound_pcm in H. inv_bind H as [[[sound amp] e1] g1] Hsyn.
  assert (He1 : every_info P e1).
  { clear H. unfold synthesize_impact in Hsyn.
    destruct (decide (a_primary_amp a = 0)); [done|].
    inv_bind Hsyn as inner Hinner.
    inv_bind Hsyn as [om g0] Hom.
    inv_bind Hsyn as info0 Hinfo0.
    inv_bind Hsyn as [[[[[snd0 m1] m2] amp0] e0] g2] Hbranch.
    inv_bind Hsyn as info1 Hinfo1.
    injection Hsyn as <- <- <- <-.
    assert (Hom0 : every_info P (set_object_modes om e)).
    { assert (Hbase : every_info P
                (set_object_modes
                   (if bool_decide (is_Some (object_modes e !! a_secondary_id a))
                    then object_modes e
                    else <[a_secondary_id a:=∅]> (object_modes e)) e)).
      { intros s p i. cbn [object_modes set_object_modes].
        destruct (bool_decide (is_Some (object_modes e !! a_secondary_id a))) eqn:Hs;
          [exact (He s p i)|].
        rewrite get_info_insert_empty; [exact (He s p i)|].
        apply bool_decide_eq_false in Hs.
        destruct (object_modes e !! a_secondary_id a) eqn:E; [|done].
        exfalso. apply Hs. eauto. }
      destruct (bool_decide (is_Some (inner !! a_primary_id a))).
      - injection Hom as <- <-. exact Hbase.
      - inv_bind Hom as [ma ga] Hma. inv_bind Hom as [mb gb] Hmb.
        injection Hom as <- <-.
        apply get_object_modes_ok in Hma as (_ & ? & ?).
        apply get_object_modes_ok in Hmb as (_ & ? & ?).
        apply (every_info_store P _ _ _ _ Hbase). by apply Hfresh. }
    assert (He0 : every_info P e0).
    { apply lookup_info_Done in Hinfo0.
      pose proof (Hom0 _ _ _ Hinfo0) as HP0.
      cbn [object_modes set_object_modes] in Hinfo0.
      destruct (cai_count info0 =? 0)%Z.
      - inv_bind Hbranch as [[[s1 ma] mb] ea] Hmake.
        inv_bind Hbranch as info2 Hinfo2.
        injection Hbranch as <- <- <- <- <- <-.
        unfold make_impact_audio in Hmake.
        inv_bind Hmake as info3 Hinfo3. inv_bind Hmake as s2 Hs2.
        injection Hmake as <- <- <- <-.
        apply lookup_info_Done in Hinfo3.
        cbn [object_modes set_object_modes] in Hinfo3.
        rewrite Hinfo0 in Hinfo3. injection Hinfo3 as <-.
        pose proof (Hshift _ HP0) as HP1.
        apply lookup_info_Done in Hinfo2.
        cbn [object_modes set_object_modes] in Hinfo2.
        rewrite get_info_store, decide_True in Hinfo2 by done.
        injection Hinfo2 as <-.
        apply every_info_store; [by apply every_info_store|].
        eapply Hsame; [|exact HP1]. by repeat split.
      - destruct (normal_vector 0 2 _ g0) as [n1 ga].
        destruct (normal_vector 0 2 _ ga) as [n2 gb].
        inv_bind Hbranch as s2 Hs2. injection Hbranch as <- <- <- <- <- <-.
        apply every_info_store; [done|].
        eapply Hsame; [|exact HP0]. by repeat split. }
    destruct (logging e0); [|done].
    exact He0. }
  destruct sound as [sound|].
  - inv_bind H as info Hinfo. injection H as <- <- <-.
    apply lookup_info_Done in Hinfo.
    apply every_info_store; [done|].
    eapply Hsame; [|exact (He1 _ _ _ Hinfo)]. by repeat split.
  - by injection H as <- <- <-.
Qed.

Lemma log10_nonneg (x : R) : 1 <= x -> 0 <= log10 x.
Proof.
  intros Hx. unfold log10.
  assert (0 < ln 10). { rewrite <- ln_1. apply ln_increasing; lra. }
  assert (0 <= ln x).
  { destruct Hx as [Hx|<-]; [|rewrite ln_1; lra].
    left. rewrite <- ln_1. apply ln_increasing; lra. }
  apply Rmult_le_pos; [done|]. left. by apply Rinv_0_lt_compat.
Qed.

(** X1.  What [get_sound] does keep.  Across [get_sound], for every info that the engine
    holds: the frequencies of both mode sets stay at or above 20 Hz and
    the decay times of [obj1_modes] at or above 1 ms (freshly sampled
    modes satisfy both, and neither the rescaling nor the perturbation of
    the powers changes them); the decay times of [obj2_modes], to which
    [make_impact_audio] adds [20 * log10(secondary_amp / primary_amp)],
    stay at or above 1 ms when that ratio is at least 1. *)
Theorem stored_modes_bounds (fuel : nat) (e : PyImpact AudioSegment) (g : RandomState)
    (a : SoundArgs) (r : option (list npfloat)) (e' : PyImpact AudioSegment) (g' : RandomState) :
  get_sound_pcm fuel e g a = Done (r, e', g') ->
  every_info (fun i => frequencies_ok (obj1_modes i) /\ frequencies_ok (obj2_modes i) /\
                       decay_times_ok (obj1_modes i)) e ->
  every_info (fun i => frequencies_ok (obj1_modes i) /\ frequencies_ok (obj2_modes i) /\
                       decay_times_ok (obj1_modes i)) e' /\
  (1 <= a_secondary_amp a / a_primary_amp a ->
   every_info (fun i => decay_times_ok (obj2_modes i)) e ->
   every_info (fun i => decay_times_ok (obj2_modes i)) e').
Proof.
  intros Hrun Hinv. split.
  - eapply get_sound_pcm_every_info; [| | | exact Hrun | exact Hinv].
    + intros m1 m2 amp ? ? ? ?. done.
    + intros i (? & ? & ?). done.
    + intros i1 i2 (E1 & E2 & E3 & E4). unfold frequencies_ok, decay_times_ok.
      by rewrite E1, E2, E3.
  - intros Hratio Hd. eapply get_sound_pcm_every_info; [| | | exact Hrun | exact Hd].
    + intros m1 m2 amp ? ? ? ?. done.
    + intros i Hi. unfold decay_times_ok in *. cbn [obj2_modes decay_times shift_decay_times].
      apply Forall_fmap. eapply Forall_impl; [exact Hi|]. intros t Ht. simpl.
      pose proof (log10_nonneg _ Hratio). lra.
    + intros i1 i2 (E1 & E2 & E3 & E4). unfold decay_times_ok. by rewrite E4.
Qed.
End StoredModes.

(** ** Scrapes *)

Section Scrapes.
Context {ext : Externals}.

Lemma scrape_mag_nonneg (v : vec3) : 0 <= scrape_mag v.
Proof.
  unfold scrape_mag, SCRAPE_MAX_VELOCITY, norm3. destruct v as [[x y] z].
  apply Rmin_glb; [apply sqrt_pos | lra].
Qed.

Lemma SCRAPE_M_PER_PIXEL_pos : 0 < SCRAPE_M_PER_PIXEL.
Proof. unfold SCRAPE_M_PER_PIXEL. lra. Qed.

(** A slide of at most one pixel is a slide of [num_pts == 1]. *)
Lemma scrape_num_pts_one (v : vec3) :
  (Rfloor (scrape_mag v / 1000 / SCRAPE_M_PER_PIXEL) <= 1)%Z -> scrape_num_pts v = 1%Z.
Proof.
  intros Hle. unfold scrape_num_pts.
  assert (0 <= Rfloor (scrape_mag v / 1000 / SCRAPE_M_PER_PIXEL))%Z as Hge.
  { apply Rfloor_nonneg. pose proof (scrape_mag_nonneg v). pose proof SCRAPE_M_PER_PIXEL_pos.
    apply Rmult_le_pos; [lra|]. left. by apply Rinv_0_lt_compat. }
  destruct (Rfloor _ =? 0)%Z eqn:E; [done|]. apply Z.eqb_neq in E. lia.
Qed.

(** A pair without scrape state begins a scrape from scratch. *)
Lemma scrape_begin_fresh (e : PyImpact AudioSegment) (a : SoundArgs) :
  scrape_summed_masters e !! (a_primary_id a, a_secondary_id a) = None ->
  exists e0,
    scrape_begin e a = Done (seg_silent 0, 0%Z, e0) /\
    scrape_summed_masters e0 !! (a_primary_id a, a_secondary_id a) = Some (seg_silent 0) /\
    scrape_events_count e0 !! (a_primary_id a, a_secondary_id a) = Some 0%Z /\
    scrape_start_velocities e0 !! (a_primary_id a, a_secondary_id a)
    = Some (scrape_mag (a_velocity a)).
Proof.
  intros Hnone. unfold scrape_begin. cbv zeta. rewrite Hnone.
  rewrite bool_decide_eq_false_2 by (by intros [? ?]).
  eexists. split; [reflexivity|]. cbn.
  by rewrite !lookup_insert_eq.
Qed.

(** C6.  When the slide covers at most one pixel and the impulse response
    of the pair is computed, [get_scrape_sound] returns no sound and
    [get_scrape_sound_command] no command, and the pair is left without a
    summed master, an event count and a start velocity; the next scrape of
    the pair then starts from an empty master and a count of 0. *)
Theorem one_pixel_scrape_ends (fuel : nat) (e : PyImpact AudioSegment) (g : RandomState)
    (ent : Entropy) (a : SoundArgs) (master : AudioSegment) (count : Z)
    (e0 : PyImpact AudioSegment) (ir : list R) (lowest : R) (e1 : PyImpact AudioSegment)
    (g1 : RandomState) :
  (Rfloor (scrape_mag (a_velocity a) / 1000 / SCRAPE_M_PER_PIXEL) <= 1)%Z ->
  scrape_begin e a = Done (master, count, e0) ->
  get_impulse_response fuel e0 g a = Done (ir, lowest, e1, g1) ->
  let key : scrape_key := (a_primary_id a, a_secondary_id a) in
  exists e2,
    get_scrape_sound fuel e g a = Done (None, e2, g1) /\
    get_scrape_sound_command fuel e g ent a = Done (None, e2, g1, ent) /\
    scrape_summed_masters e2 !! key = None /\
    scrape_events_count e2 !! key = None /\
    scrape_start_velocities e2 !! key = None /\
    forall a',
      (a_primary_id a', a_secondary_id a') = key ->
      exists e3,
        scrape_begin e2 a' = Done (seg_silent 0, 0%Z, e3) /\
        scrape_summed_masters e3 !! key = Some (seg_silent 0) /\
        scrape_events_count e3 !! key = Some 0%Z /\
        scrape_start_velocities e3 !! key = Some (scrape_mag (a_velocity a')).
Proof.
  intros Hpix Hbegin Hir key.
  apply scrape_num_pts_one in Hpix.
  assert (Hrun : get_scrape_sound fuel e g a = Done (None, end_scrape e1 key, g1)).
  { unfold get_scrape_sound. cbv zeta. rewrite Hbegin. cbn [mbind outcome_bind].
    rewrite Hir. cbn [mbind outcome_bind]. by rewrite Hpix. }
  exists (end_scrape e1 key). split_and!.
  - exact Hrun.
  - unfold get_scrape_sound_command. by rewrite Hrun.
  - cbn. apply lookup_delete_eq.
  - cbn. apply lookup_delete_eq.
  - cbn. apply lookup_delete_eq.
  - intros a' Hkey.
    destruct (scrape_begin_fresh (end_scrape e1 key) a') as (e3 & H1 & H2 & H3 & H4).
    { rewrite Hkey. cbn. apply lookup_delete_eq. }
    exists e3. rewrite Hkey in H2, H3, H4. done.
Qed.
End Scrapes.

Lemma bind_ext {A B : Type} (m : outcome A) (f g : A -> outcome B) :
  (forall a, f a = g a) -> m ≫= f = m ≫= g.
Proof. intros H. destruct m; simpl; auto. Qed.


Lemma if_else_ext {A : Type} (b : bool) (x y z : A) :
  y = z -> (if b then x else y) = (if b then x else z).
Proof. by intros ->. Qed.

Section GainNormalisation.
Context (ext : Externals) (f : AudioSegment -> R -> AudioSegment).

Lemma scrape_begin_with_apply_gain (e : PyImpact AudioSegment) (a : SoundArgs) :
  @scrape_begin (with_apply_gain ext f) e a = @scrape_begin ext e a.
Proof. reflexivity. Qed.

Lemma get_impulse_response_with_apply_gain fuel (e : PyImpact AudioSegment) g (a : SoundArgs) :
  @get_impulse_response (with_apply_gain ext f) fuel e g a = @get_impulse_response ext fuel e g a.
Proof. reflexivity. Qed.

(** C7.  The gain that [apply_gain] would give the force segment at the
    target of -20 dBFS does not reach the sound: replacing [apply_gain] by
    any function that agrees with it at every other gain leaves
    [get_scrape_sound] unchanged whenever the chunk's own gain differs from
    the target.  The segment that is faded and convolved is the force
    signal as wrapped. *)
Theorem scrape_target_gain_unused (fuel : nat) (e : PyImpact AudioSegment) (g : RandomState)
    (a : SoundArgs) :
  (forall seg db, db <> SCRAPE_TARGET_DBFS -> f seg db = seg_apply_gain seg db) ->
  @scrape_db ext (a_velocity a) <> SCRAPE_TARGET_DBFS ->
  @get_scrape_sound (with_apply_gain ext f) fuel e g a = @get_scrape_sound ext fuel e g a.
Proof.
  intros Hf Hdb. unfold get_scrape_sound. cbv zeta.
  change (@scrape_begin (with_apply_gain ext f) e a) with (@scrape_begin ext e a).
  apply bind_ext. intros [[master count] e0].
  change (@get_impulse_response (with_apply_gain ext f) fuel e0 g a)
    with (@get_impulse_response ext fuel e0 g a).
  apply bind_ext. intros [[[ir lowest] e1] g1].
  apply if_else_ext.
  change (@seg_apply_gain (with_apply_gain ext f)) with f.
  change (@scrape_db (with_apply_gain ext f) (a_velocity a)) with (@scrape_db ext (a_velocity a)).
  rewrite (Hf _ _ Hdb). reflexivity.
Qed.
End GainNormalisation.

(** ** Determinism *)

Section Determinism.
Context {ext : Externals}.






End Determinism.

(** ** Static audio data *)

Lemma round_half_even_IZR (z : Z) : round_half_even (IZR z) = z.
Proof.
  unfold round_half_even. rewrite (Rfloor_spec (IZR z) z) by lra.
  rewrite decide_True by lra. done.
Qed.

Lemma py_round3_exact (x : R) (z : Z) : x * 1000 = IZR z -> py_round3 x = IZR z / 1000.
Proof. intros H. unfold py_round3. by rewrite H, round_half_even_IZR. Qed.

Lemma dindex_Done {K V : Type} `{EqDecision K} (key : K -> py_key) (k : K) (d : dict K V) (v : V) :
  dget k d = Some v -> dindex key k d = Done v.
Proof. intros H. unfold dindex. by rewrite H. Qed.

Section Derivation.
Context {ext : Externals}.

(** The comprehension over [categories] always finds the object itself. *)
Lemma same_category_found (categories : dict Z string) (object_id : Z) (category : string)
    (acc : list Z) :
  dget object_id categories = Some category ->
  exists l,
    for_each (fun acc '(o, category_o) =>
                category ← dindex KInt object_id categories;
                Done (if decide (category_o = category) then acc ++ [o] else acc))
             acc categories = Done l /\
    (0 < length l)%nat.
Proof.
  intros Hget.
  set (body := fun (acc : list Z) '((o, category_o) : Z * string) =>
                 category ← dindex KInt object_id categories;
                 Done (if decide (category_o = category) then acc ++ [o] else acc)).
  assert (Hbody : forall acc o c,
            body acc (o, c) = Done (if decide (c = category) then acc ++ [o] else acc)).
  { intros. unfold body, dindex. by rewrite Hget. }
  assert (Hgen : forall cats acc,
    exists l,
      for_each body acc cats = Done l /\
      (length acc <= length l)%nat /\
      (dget object_id cats = Some category -> (length acc < length l)%nat)).
  { clearbody body. induction cats as [|[o c] cats IH]; intros acc0.
    - exists acc0. split_and!; [done | lia | done].
    - cbn [for_each]. rewrite Hbody. cbn [mbind outcome_bind].
      destruct (IH (if decide (c = category) then acc0 ++ [o] else acc0))
        as (l & Hl & Hlen & Hfound).
      exists l. split; [exact Hl|].
      assert (Hstep : (length acc0 <= length (if decide (c = category)
                                              then acc0 ++ [o] else acc0))%nat).
      { case_decide; [rewrite length_app; simpl; lia | lia]. }
      split; [lia|]. cbn [dget].
      destruct (decide (object_id = o)) as [->|Hne].
      + intros [= ->]. rewrite decide_True in Hlen by done.
        rewrite length_app in Hlen. simpl in Hlen. lia.
      + intros Hc. specialize (Hfound Hc). lia. }
  destruct (Hgen categories acc) as (l & Hl & _ & Hfound).
  exists l. split; [done|]. specialize (Hfound Hget). lia.
Qed.

(** So the values derived for an object with a category are those of every
    object resolved so far, or the defaults when none is: the similar-mass
    fallback is never reached. *)
Lemma derive_object_uses_all_values (inputs : StaticInputs)
    (current_values : list ObjectAudioStatic) (registry derived_data : dict Z ObjectAudioStatic)
    (object_id : Z) (category : string) :
  dget object_id (si_categories inputs) = Some category ->
  derive_object inputs current_values registry derived_data object_id
  = '(amp, material, resonance, size) ← derive_values (peers_of_values current_values);
    name ← dindex KInt object_id (si_names inputs);
    mass ← dindex KInt object_id (si_object_masses inputs);
    bounciness ← dindex KInt object_id (si_object_bouncinesses inputs);
    Done (dset object_id
            (mkObjectAudioStatic name amp mass material bounciness resonance size object_id)
            derived_data).
Proof.
  intros Hget. unfold derive_object.
  destruct (same_category_found _ _ _ [] Hget) as (l & -> & Hlen).
  cbn [mbind outcome_bind]. apply Nat.ltb_lt in Hlen. by rewrite Hlen.
Qed.

(** C3.  Evaluation at a failing input.  The scene has a chair resolved
    from the overrides (category furniture, mass 1000, amp 0.5, wood_hard,
    resonance 0.3, size 4) and an object of unknown name, alone in its
    category (widget) and of mass 1.  The values derived for it are the
    chair's, not the defaults 0.2, plastic_hard, 0.45 and 1. *)
Theorem derived_from_other_category :
  get_static_audio_data !! "zzz"%string = None ->
  set_iter [wood_hard] = [wood_hard] ->
  exists e' o,
    cache_static_data derive_engine derive_frame = Done e' /\
    dget 2%Z (static_audio_data e') = Some o /\
    oas_amp o = 0.5 /\ oas_material o = wood_hard /\
    oas_resonance o = 0.3 /\ oas_size o = 4%Z.
Proof.
  intros Hz Hs. unfold cache_static_data.
  assert (Hin : read_static_data derive_frame
                = mkStaticInputs [(1%Z, "chair"%string); (2%Z, "zzz"%string)]
                    [(1%Z, "furniture"%string); (2%Z, "widget"%string)] []
                    [(1%Z, 1000); (2%Z, 1)] [(1%Z, 0.1); (2%Z, 0.2)]) by reflexivity.
  rewrite Hin. clear Hin.
  cbn [si_names si_object_masses si_categories si_robot_joints si_object_bouncinesses].
  set (ov := alter (rebind 1000 1) "chair"%string (<["chair"%string := demo_chair]> ∅)
             : gmap string ObjectAudioStatic).
  assert (Hres : for_each (resolve_object [(1%Z, 1000); (2%Z, 1)])
                   (mkResolveState (static_audio_data_overrides derive_engine)
                      get_static_audio_data
                      (map (fun '(k, o) => (k, RefOwned o)) (static_audio_data derive_engine)) [])
                   [(1%Z, "chair"%string); (2%Z, "zzz"%string)]
                 = Done (mkResolveState ov get_static_audio_data
                           [(1%Z, RefOverride "chair")] [2%Z])).
  { cbn [for_each resolve_object static_audio_data_overrides derive_engine rs_overrides
         static_audio_data map rs_defaults rs_static rs_need_to_derive].
    rewrite lookup_insert_eq. rewrite bool_decide_eq_true_2 by eauto.
    rewrite (dindex_Done KInt 1%Z _ 1000) by reflexivity.
    cbn [mbind outcome_bind dset rs_overrides rs_defaults rs_static rs_need_to_derive].
    fold ov.
    assert (ov !! "zzz"%string = None) as ->.
    { unfold ov. rewrite lookup_alter_ne by done. rewrite lookup_insert_ne by done.
      apply lookup_empty. }
    rewrite Hz. rewrite !bool_decide_eq_false_2 by (by intros [? ?]).
    reflexivity. }
  rewrite Hres. clear Hres. cbn [mbind outcome_bind rs_need_to_derive rs_overrides].
  assert (Hov : ov !! "chair"%string = Some (rebind 1000 1 demo_chair)).
  { unfold ov. rewrite lookup_alter_eq, lookup_insert_eq. done. }
  assert (Hvals : resolve_values (mkResolveState ov get_static_audio_data
                                    [(1%Z, RefOverride "chair")] [2%Z])
                  = [rebind 1000 1 demo_chair]).
  { unfold resolve_values. cbn [omap list_omap rs_static deref rs_overrides]. by rewrite Hov. }
  assert (Hreg : resolve_registry (mkResolveState ov get_static_audio_data
                                     [(1%Z, RefOverride "chair")] [2%Z])
                 = [(1%Z, rebind 1000 1 demo_chair)]).
  { unfold resolve_registry. cbn [omap list_omap rs_static deref rs_overrides].
    by rewrite Hov. }
  rewrite Hvals, Hreg. cbn [for_each].
  rewrite (derive_object_uses_all_values _ _ _ _ _ "widget") by reflexivity.
  cbn [peers_of_values map rebind demo_chair oas_amp oas_material oas_resonance oas_size
       derive_values material_mode material_count].
  unfold material_mode. rewrite Hs.
  cbn [foldl mbind outcome_bind length Rsum foldr si_names si_object_masses
       si_object_bouncinesses].
  rewrite (dindex_Done KInt 2%Z [(1%Z, "chair"%string); (2%Z, "zzz"%string)] "zzz"%string)
    by reflexivity.
  rewrite (dindex_Done KInt 2%Z [(1%Z, 1000); (2%Z, 1)] 1) by reflexivity.
  rewrite (dindex_Done KInt 2%Z [(1%Z, 0.1); (2%Z, 0.2)] 0.2) by reflexivity.
  cbn [mbind outcome_bind foldl dset].
  eexists _, _. split; [reflexivity|].
  cbn [static_audio_data set_static_audio].
  split; [reflexivity|]. cbn [oas_amp oas_material oas_resonance oas_size].
  split_and!.
  - rewrite (py_round3_exact _ 500); [lra|]. simpl. lra.
  - done.
  - rewrite (py_round3_exact _ 300); [lra|]. simpl. lra.
  - reflexivity.
Qed.
End Derivation.

(** ** Runs of the engine on the stand-ins *)

Lemma demo_sample_at_least (fuel : nat) (bound center : R) :
  0 <= center / 10 -> bound <= center + 0 ->
  sample_at_least (ext := demo_ext) (S fuel) bound center tt = Done (center + 0, tt).
Proof.
  intros Hs Hb. cbn [sample_at_least]. unfold random_normal.
  rewrite decide_False by lra. cbn [np_random_normal demo_ext mbind outcome_bind].
  by rewrite decide_False by lra.
Qed.

Lemma demo_sample_mode (f p t : list R) (jm : nat) :
  (jm < 10)%nat ->
  sample_mode (ext := demo_ext) 1 demo_data (f, p, t, tt) jm
  = Done (f ++ [100 + 0], p ++ [1 + 0], t ++ [(0.005 + 0) * 1000], tt).
Proof.
  intros Hjm. unfold sample_mode, list_index.
  assert (Hcf : md_cf demo_data !! jm = Some 100).
  { apply lookup_replicate_2. lia. }
  assert (Hop : md_op demo_data !! jm = Some 1).
  { apply lookup_replicate_2. lia. }
  assert (Hrt : md_rt demo_data !! jm = Some 0.005).
  { apply lookup_replicate_2. lia. }
  rewrite Hcf, Hop, Hrt. cbn [mbind outcome_bind].
  rewrite demo_sample_at_least by lra. cbn [mbind outcome_bind].
  unfold random_normal. rewrite decide_False by lra.
  cbn [np_random_normal demo_ext mbind outcome_bind].
  rewrite demo_sample_at_least by lra. reflexivity.
Qed.

Lemma demo_get_object_modes (e : PyImpact (@AudioSegment demo_ext)) (material : string) :
  material_data e !! material = Some demo_data ->
  get_object_modes (ext := demo_ext) 1 e material tt = Done (demo_modes, tt).
Proof.
  intros Hm. unfold get_object_modes, mindex. rewrite Hm. cbn [mbind outcome_bind].
  cbn [seq for_each].
  repeat (rewrite demo_sample_mode by lia; cbn [mbind outcome_bind]).
  reflexivity.
Qed.

Lemma lookup_info_store om s p info :
  lookup_info (store_info om s p info) s p = Done info.
Proof. apply lookup_info_Done. rewrite get_info_store. by rewrite decide_True. Qed.

(** The first impact of a pair on an engine without stored modes. *)
Lemma demo_synthesize_fresh (e : PyImpact (@AudioSegment demo_ext)) (a : SoundArgs) :
  object_modes e = ∅ -> logging e = false ->
  material_data e !! a_secondary_material a = Some demo_data ->
  material_data e !! a_primary_material a = Some demo_data ->
  a_primary_amp a <> 0 -> 0 < a_primary_mass a -> 0 < a_secondary_mass a ->
  let ratio := a_secondary_amp a / a_primary_amp a in
  let mass := Rmin (a_primary_mass a) (a_secondary_mass a) in
  let x := fftconvolve (mode_add (powers demo_modes) (powers demo_modes))
             (map sin (linspace 0 PI (Z.to_nat (force_samples mass)))) in
  exists om,
    synthesize_impact (ext := demo_ext) 1 e tt a
    = Done (Some (np_divide_all x (Rabs (np_max x))),
            Finite (a_primary_amp a * initial_amp e), set_object_modes om e, tt) /\
    get_info om (a_secondary_id a) (a_primary_id a)
    = Some (mkCollisionAudioInfo demo_modes (shift_decay_times ratio demo_modes)
              (a_primary_amp a * initial_amp e)
              (get_normal_speed (a_velocity a) (a_contact_normals a)) 0).
Proof.
  intros Hom Hlog Hm2 Hm1 Hamp Hmp Hms ratio mass x.
  unfold synthesize_impact. rewrite decide_False by done. rewrite Hom.
  rewrite lookup_empty. rewrite bool_decide_eq_false_2 by (by intros [? ?]).
  unfold mindex at 1. rewrite lookup_insert_eq. cbn [mbind outcome_bind].
  rewrite lookup_empty. rewrite bool_decide_eq_false_2 by (by intros [? ?]).
  rewrite (demo_get_object_modes e _ Hm2). cbn [mbind outcome_bind].
  rewrite (demo_get_object_modes e _ Hm1). cbn [mbind outcome_bind].
  cbn [object_modes set_object_modes].
  rewrite lookup_info_store. cbn [mbind outcome_bind cai_count CollisionAudioInfo_init Z.eqb].
  unfold make_impact_audio. cbn [object_modes set_object_modes].
  rewrite lookup_info_store.
  cbn [mbind outcome_bind cai_count cai_amp init_speed obj1_modes obj2_modes
       CollisionAudioInfo_init].
  fold ratio. fold mass. fold (shift_decay_times ratio demo_modes).
  destruct (synth_impact_modes_returns (ext := demo_ext) demo_modes
              (shift_decay_times ratio demo_modes) mass (a_resonance a))
    as (_ & _ & Hsyn).
  { by apply Rmin_glb_lt. }
  { done. }
  rewrite Hsyn. cbn [mbind outcome_bind object_modes set_object_modes].
  rewrite lookup_info_store. cbn [mbind outcome_bind object_modes set_object_modes cai_amp
                                   cai_count].
  rewrite lookup_info_store. cbn [mbind outcome_bind logging set_object_modes].
  rewrite Hlog.
  eexists. split; [reflexivity|].
  rewrite get_info_store. by rewrite decide_True.
Qed.

Lemma demo_get_sound_pcm_fresh (e : PyImpact (@AudioSegment demo_ext)) (a : SoundArgs) :
  object_modes e = ∅ -> logging e = false ->
  material_data e !! a_secondary_material a = Some demo_data ->
  material_data e !! a_primary_material a = Some demo_data ->
  a_primary_amp a <> 0 -> 0 < a_primary_mass a -> 0 < a_secondary_mass a ->
  let ratio := a_secondary_amp a / a_primary_amp a in
  let mass := Rmin (a_primary_mass a) (a_secondary_mass a) in
  let x := fftconvolve (mode_add (powers demo_modes) (powers demo_modes))
             (map sin (linspace 0 PI (Z.to_nat (force_samples mass)))) in
  exists om,
    get_sound_pcm (ext := demo_ext) 1 e tt a
    = Done (Some (scale_sound (prevent_distortion e)
                    (Finite (a_primary_amp a * initial_amp e))
                    (np_divide_all x (Rabs (np_max x)))),
            set_object_modes om e, tt) /\
    get_info om (a_secondary_id a) (a_primary_id a)
    = Some (mkCollisionAudioInfo demo_modes (shift_decay_times ratio demo_modes)
              (a_primary_amp a * initial_amp e)
              (get_normal_speed (a_velocity a) (a_contact_normals a)) 1).
Proof.
  intros Hom Hlog Hm2 Hm1 Hamp Hmp Hms ratio mass x.
  destruct (demo_synthesize_fresh e a Hom Hlog Hm2 Hm1 Hamp Hmp Hms) as (om & Hsyn & Hinfo).
  unfold get_sound_pcm. rewrite Hsyn. cbn [mbind outcome_bind object_modes set_object_modes].
  apply lookup_info_Done in Hinfo. rewrite Hinfo.
  cbn [mbind outcome_bind object_modes set_object_modes prevent_distortion].
  eexists. split; [reflexivity|].
  rewrite get_info_store. by rewrite decide_True.
Qed.

Lemma demo_get_sound_fresh (e : PyImpact (@AudioSegment demo_ext)) (a : SoundArgs) :
  object_modes e = ∅ -> logging e = false ->
  material_data e !! a_secondary_material a = Some demo_data ->
  material_data e !! a_primary_material a = Some demo_data ->
  a_primary_amp a <> 0 -> 0 < a_primary_mass a -> 0 < a_secondary_mass a ->
  exists sound om info,
    get_sound (ext := demo_ext) 1 e tt a = Done (Some sound, set_object_modes om e, tt) /\
    get_info om (a_secondary_id a) (a_primary_id a) = Some info /\
    obj1_modes info = demo_modes.
Proof.
  intros Hom Hlog Hm2 Hm1 Hamp Hmp Hms.
  destruct (demo_get_sound_pcm_fresh e a Hom Hlog Hm2 Hm1 Hamp Hmp Hms) as (om & Hrun & Hinfo).
  unfold get_sound. rewrite Hrun. cbn [mbind outcome_bind option_map].
  eexists _, om, _. split_and!; [reflexivity | exact Hinfo | reflexivity].
Qed.

Lemma demo_get_impulse_response_fresh (e : PyImpact (@AudioSegment demo_ext)) (a : SoundArgs) :
  object_modes e = ∅ -> logging e = false ->
  material_data e !! a_secondary_material a = Some demo_data ->
  material_data e !! a_primary_material a = Some demo_data ->
  a_primary_amp a <> 0 -> 0 < a_primary_mass a -> 0 < a_secondary_mass a ->
  exists ir lowest om,
    get_impulse_response (ext := demo_ext) 1 e tt a
    = Done (ir, lowest, set_object_modes om e, tt).
Proof.
  intros Hom Hlog Hm2 Hm1 Hamp Hmp Hms.
  destruct (demo_get_sound_fresh e a Hom Hlog Hm2 Hm1 Hamp Hmp Hms)
    as (sound & om & info & Hrun & Hinfo & Hm).
  unfold get_impulse_response. rewrite Hrun.
  cbn [mbind outcome_bind object_modes set_object_modes].
  apply lookup_info_Done in Hinfo. rewrite Hinfo. cbn [mbind outcome_bind].
  rewrite Hm. cbn [py_min frequencies demo_modes replicate mbind outcome_bind].
  eexists _, _, om. reflexivity.
Qed.

Lemma fresh_material (material : string) :
  material ∈ ["plastic_hard_1"; "wood_medium_4"]%string ->
  material_data fresh_engine !! material = Some demo_data.
Proof.
  intros Hin. repeat (apply elem_of_cons in Hin as [->|Hin]; [reflexivity|]).
  by apply elem_of_nil in Hin.
Qed.

(** *** The light impact *)

Lemma light_force_samples : force_samples (Rmin 0.06 FLOOR_MASS) = 3%Z.
Proof.
  unfold FLOOR_MASS. rewrite Rmin_left by lra.
  unfold force_samples. rewrite Rmin_left by lra. apply Rceil_spec. lra.
Qed.

Lemma normalized_peak_nonzero (x : list R) :
  np_max x <> 0 -> peak (map (fun v => v / Rabs (np_max x)) x) <> 0.
Proof.
  intros Hmax.
  assert (Hne : x <> []) by (intros ->; by apply Hmax).
  pose proof (np_max_in x Hne) as Hin.
  assert (Hin' : np_max x / Rabs (np_max x) ∈ map (fun v => v / Rabs (np_max x)) x).
  { apply list_elem_of_fmap. by exists (np_max x). }
  apply peak_ge in Hin'.
  assert (Habs : Rabs (np_max x / Rabs (np_max x)) = 1).
  { unfold Rdiv. rewrite Rabs_mult, Rabs_inv, Rabs_Rabsolu.
    apply Rinv_r. by apply Rabs_no_R0. }
  lra.
Qed.


Lemma light_convolution_pos : 0 < np_max light_convolution.
Proof.
  unfold light_convolution. rewrite light_force_samples.
  change (Z.to_nat 3) with 3%nat. rewrite half_sine_3.
  eapply Rlt_le_trans; [|apply np_max_ge].
  2: { cbn [demo_modes powers replicate mode_add pointwise_add fftconvolve convolve map].
       right. left. }
  lra.
Qed.

Lemma light_synthesis :
  exists om,
    synthesize_impact (ext := demo_ext) 1 fresh_engine tt light_args
    = Done (Some (map Finite light_raw), Finite (0.2 * 0.5), set_object_modes om fresh_engine,
            tt).
Proof.
  destruct (demo_synthesize_fresh fresh_engine light_args) as (om & Hsyn & _);
    try reflexivity.
  - cbn. lra.
  - cbn. lra.
  - cbn. unfold FLOOR_MASS. lra.
  - exists om. rewrite Hsyn. do 3 f_equal.
    rewrite np_divide_all_finite.
    + unfold light_raw. by rewrite map_map.
    + pose proof light_convolution_pos as Hpos.
      change (a_primary_mass light_args) with 0.06.
      change (a_secondary_mass light_args) with FLOOR_MASS.
      fold light_convolution. apply Rabs_no_R0. lra.
Qed.

Lemma light_raw_peak : peak light_raw <> 0.
Proof.
  unfold light_raw. apply normalized_peak_nonzero.
  pose proof light_convolution_pos. lra.
Qed.

Lemma get_sound_peak_bound_witness :
  exists pcm e2,
    get_sound_pcm (ext := demo_ext) 1 fresh_engine tt light_args
    = Done (Some (map Finite pcm), e2, tt) /\
    pcm = map (fun v => 0.2 * 0.5 * v / peak light_raw) light_raw /\
    peak pcm <= 0.99 /\
    Forall (fun v => Rabs v <= 0.99) pcm.
Proof.
  destruct light_synthesis as (om & Hsyn).
  destruct (get_sound_peak_bound (ext := demo_ext) 1 fresh_engine tt light_args light_raw
              (Finite (0.2 * 0.5)) (set_object_modes om fresh_engine) tt eq_refl Hsyn
              light_raw_peak)
    as (c & pcm & e2 & _ & _ & Hc & _ & Hpcm & Hrun & _ & Hpeak & Hall); [done|].
  assert (Hamp : Rabs (0.2 * 0.5) <= 0.99) by (rewrite Rabs_right; lra).
  rewrite (Hc _ eq_refl Hamp) in Hpcm.
  exists pcm, e2. split_and!; done.
Defined.

(** *** The faint impact *)

Lemma faint_run :
  exists pcm om,
    get_sound_pcm (ext := demo_ext) 1 fresh_engine tt faint_args
    = Done (Some pcm, set_object_modes om fresh_engine, tt).
Proof.
  destruct (demo_get_sound_pcm_fresh fresh_engine faint_args) as (om & Hrun & _);
    try reflexivity.
  - cbn. lra.
  - cbn. lra.
  - cbn. unfold FLOOR_MASS. lra.
  - eexists _, om. exact Hrun.
Qed.

Lemma faint_mass : Rmin (a_primary_mass faint_args) (a_secondary_mass faint_args) = 0.02.
Proof. cbn. unfold FLOOR_MASS. apply Rmin_left. lra. Qed.

Lemma light_impact_sound_is_nan_witness :
  prevent_distortion fresh_engine = true /\
  exists pcm e',
    get_sound_pcm (ext := demo_ext) 1 fresh_engine tt faint_args = Done (Some pcm, e', tt) /\
    get_sound (ext := demo_ext) 1 fresh_engine tt faint_args
    = Done (Some (Base64Sound_init (Externals := demo_ext) pcm), e', tt) /\
    pcm <> [] /\
    Forall (fun v => v = NaN) pcm /\
    np_amax (map np_abs pcm) = NaN /\
    np_le (np_amax (map np_abs pcm)) (Finite 0.99) = false.
Proof.
  split; [reflexivity|].
  destruct faint_run as (pcm & om & Hrun). exists pcm, (set_object_modes om fresh_engine).
  split; [exact Hrun|].
  apply (light_impact_sound_is_nan (ext := demo_ext) 1 fresh_engine tt faint_args pcm
           (set_object_modes om fresh_engine) tt).
  - rewrite faint_mass. lra.
  - rewrite faint_mass. lra.
  - exact Hrun.
Defined.

(** *** The bounds on the stored modes *)

Lemma fresh_engine_no_info (P : CollisionAudioInfo -> Prop) :
  every_info (ext := demo_ext) P fresh_engine.
Proof. intros s p info. unfold get_info. cbn. by rewrite lookup_empty. Qed.

Lemma light_run :
  exists pcm om,
    get_sound_pcm (ext := demo_ext) 1 fresh_engine tt light_args
    = Done (Some pcm, set_object_modes om fresh_engine, tt).
Proof.
  destruct (demo_get_sound_pcm_fresh fresh_engine light_args) as (om & Hrun & _);
    try reflexivity.
  - cbn. lra.
  - cbn. lra.
  - cbn. unfold FLOOR_MASS. lra.
  - eexists _, om. exact Hrun.
Qed.

Lemma light_ratio : 1 <= a_secondary_amp light_args / a_primary_amp light_args.
Proof. cbn. unfold FLOOR_AMP. lra. Qed.

Lemma stored_modes_bounds_witness :
  exists pcm e',
    get_sound_pcm (ext := demo_ext) 1 fresh_engine tt light_args = Done (Some pcm, e', tt) /\
    every_info (ext := demo_ext)
      (fun i => frequencies_ok (obj1_modes i) /\ frequencies_ok (obj2_modes i) /\
                decay_times_ok (obj1_modes i)) e' /\
    every_info (ext := demo_ext) (fun i => decay_times_ok (obj2_modes i)) e'.
Proof.
  destruct light_run as (pcm & om & Hrun).
  exists pcm, (set_object_modes om fresh_engine). split; [exact Hrun|].
  destruct (stored_modes_bounds (ext := demo_ext) 1 fresh_engine tt light_args (Some pcm)
              (set_object_modes om fresh_engine) tt Hrun (fresh_engine_no_info _))
    as [Hfreq Hdecay].
  split; [exact Hfreq|].
  exact (Hdecay light_ratio (fresh_engine_no_info _)).
Defined.

Lemma log10_tenth : log10 (0.05 / 0.5) = -1.
Proof.
  unfold log10. replace (0.05 / 0.5) with (/ 10) by lra.
  rewrite ln_Rinv by lra.
  assert (0 < ln 10). { rewrite <- ln_1. apply ln_increasing; lra. }
  field. lra.
Qed.

(** C8.  Evaluation at a failing input: the first impact of a pair whose
    secondary has a tenth of the primary's amp, on an engine that holds no
    modes yet (so every bound holds of it).  The modes of both objects are
    sampled with decay times of 5 ms; [make_impact_audio] then adds
    [20 * log10(0.05 / 0.5) = -20] to the decay times of [obj2_modes], and
    the mode set stored for the pair has ten decay times of -15 ms. *)
Lemma first_impact_decay_times_below_bound :
  every_info (ext := demo_ext)
    (fun i => frequencies_ok (obj1_modes i) /\ frequencies_ok (obj2_modes i) /\
              decay_times_ok (obj1_modes i) /\ decay_times_ok (obj2_modes i)) fresh_engine /\
  exists pcm e' info,
    get_sound_pcm (ext := demo_ext) 1 fresh_engine tt quiet_args = Done (Some pcm, e', tt) /\
    get_info (object_modes e') (Some 2%Z) 1%Z = Some info /\
    decay_times (obj2_modes info) = replicate 10 (-15) /\
    ~ decay_times_ok (obj2_modes info).
Proof.
  split; [apply fresh_engine_no_info|].
  destruct (demo_get_sound_pcm_fresh fresh_engine quiet_args) as (om & Hrun & Hinfo);
    try reflexivity.
  - cbn. lra.
  - cbn. lra.
  - cbn. lra.
  - assert (Hdecay : decay_times (shift_decay_times (0.05 / 0.5) demo_modes)
                     = replicate 10 (-15)).
    { cbn [shift_decay_times decay_times demo_modes replicate map]. rewrite log10_tenth.
      replace ((0.005 + 0) * 1000 + 20 * -1) with (-15) by lra. reflexivity. }
    eexists _, _, _. split_and!; [exact Hrun | exact Hinfo | exact Hdecay |].
    unfold decay_times_ok. intros H. cbn [obj2_modes] in H.
    change (a_secondary_amp quiet_args / a_primary_amp quiet_args) with (0.05 / 0.5) in H.
    rewrite Hdecay in H. cbn [replicate] in H. apply Forall_cons in H as [H _]. lra.
Qed.

Lemma drop_magnitude : norm3 drop_velocity = 3.
Proof.
  unfold norm3, drop_velocity.
  replace (0 * 0 + -3 * -3 + 0 * 0) with (3 * 3) by lra.
  apply sqrt_square. lra.
Qed.

Lemma drop_event_significant : significant drop_event = true.
Proof.
  unfold significant. cbn [magnitude collision_type drop_event].
  rewrite drop_magnitude. rewrite bool_decide_eq_true_2 by lra.
  by rewrite bool_decide_eq_true_2.
Qed.

(** The classification of the drop: one impact, filed under the box. *)
Lemma classify_drop :
  get_collision_types (ext := demo_ext) box_engine drop_frame
  = Done (set_collision_events [(42%Z, drop_event)] box_engine).
Proof.
  unfold get_collision_types. cbv zeta.
  assert (Hc : collect_events (ext := demo_ext) (static_audio_data box_engine)
                 (read_rigidbody_data drop_frame)
                 (get_previous_areas (collision_events box_engine)) drop_frame
               = Done [(42%Z, [drop_event])]) by reflexivity.
  rewrite Hc. cbn [mbind outcome_bind]. do 2 f_equal.
  unfold select_significant. cbn [foldl filter list_filter].
  rewrite decide_True by apply drop_event_significant. reflexivity.
Qed.

Lemma significant_event_per_primary_witness :
  exists candidates,
    frame_events (ext := demo_ext) (static_audio_data box_engine)
      (read_rigidbody_data drop_frame)
      (get_previous_areas (collision_events box_engine)) drop_frame = Done candidates /\
    NoDup (map primary_id (dvalues [(42%Z, drop_event)])) /\
    (forall pid ev,
       dget pid [(42%Z, drop_event)] = Some ev ->
       primary_id ev = pid /\ ev ∈ candidates /\
       0 < magnitude ev /\ collision_type ev <> none /\
       forall c, c ∈ candidates -> primary_id c = pid ->
                 0 < magnitude c -> collision_type c <> none ->
                 magnitude c <= magnitude ev) /\
    (forall c, c ∈ candidates -> 0 < magnitude c -> collision_type c <> none ->
               is_Some (dget (primary_id c) [(42%Z, drop_event)])).
Proof.
  exact (significant_event_per_primary (ext := demo_ext) box_engine drop_frame
           (set_collision_events [(42%Z, drop_event)] box_engine) classify_drop).
Defined.

(** *** The slow slide *)

Lemma slow_mag : scrape_mag (0.001, 0, 0) = 0.001.
Proof.
  unfold scrape_mag, norm3, SCRAPE_MAX_VELOCITY.
  replace (0.001 * 0.001 + 0 * 0 + 0 * 0) with (0.001 * 0.001) by lra.
  rewrite sqrt_square by lra. apply Rmin_left. lra.
Qed.

Lemma slow_pixels :
  (Rfloor (scrape_mag (a_velocity slow_args) / 1000 / SCRAPE_M_PER_PIXEL) <= 1)%Z.
Proof.
  cbn [a_velocity slow_args]. rewrite slow_mag.
  rewrite (Rfloor_spec _ 0); [lia|].
  unfold SCRAPE_M_PER_PIXEL. split.
  - apply Rmult_le_pos; [lra|]. left. apply Rinv_0_lt_compat. lra.
  - apply (Rmult_lt_reg_r (1394.068 * / 1000000000)); [lra|].
    unfold Rdiv. rewrite Rmult_assoc, Rinv_l by lra. lra.
Qed.

Lemma slow_begin :
  scrape_begin (ext := demo_ext) fresh_engine slow_args = Done (seg_silent 0, 0%Z, slow_engine).
Proof.
  unfold scrape_begin. cbv zeta.
  cbn [scrape_summed_masters fresh_engine a_primary_id a_secondary_id slow_args].
  rewrite lookup_empty. rewrite bool_decide_eq_false_2 by (by intros [? ?]).
  reflexivity.
Qed.

Lemma slow_impulse_response :
  exists ir lowest om,
    get_impulse_response (ext := demo_ext) 1 slow_engine tt slow_args
    = Done (ir, lowest, set_object_modes om slow_engine, tt).
Proof.
  apply demo_get_impulse_response_fresh; try reflexivity.
  - cbn. lra.
  - cbn. lra.
  - cbn. unfold FLOOR_MASS. lra.
Qed.

Lemma one_pixel_scrape_ends_witness :
  exists e2,
    get_scrape_sound (ext := demo_ext) 1 fresh_engine tt slow_args = Done (None, e2, tt) /\
    get_scrape_sound_command (ext := demo_ext) 1 fresh_engine tt 0%Z slow_args
    = Done (None, e2, tt, 0%Z) /\
    scrape_summed_masters e2 !! (42%Z, None) = None /\
    scrape_events_count e2 !! (42%Z, None) = None /\
    scrape_start_velocities e2 !! (42%Z, None) = None /\
    forall a',
      (a_primary_id a', a_secondary_id a') = (42%Z, None) ->
      exists e3,
        scrape_begin (ext := demo_ext) e2 a' = Done (seg_silent 0, 0%Z, e3) /\
        scrape_summed_masters e3 !! (42%Z, None) = Some (seg_silent 0) /\
        scrape_events_count e3 !! (42%Z, None) = Some 0%Z /\
        scrape_start_velocities e3 !! (42%Z, None) = Some (scrape_mag (a_velocity a')).
Proof.
  destruct slow_impulse_response as (ir & lowest & om & Hir).
  exact (one_pixel_scrape_ends (ext := demo_ext) 1 fresh_engine tt 0%Z slow_args
           (seg_silent 0) 0%Z slow_engine ir lowest (set_object_modes om slow_engine) tt
           slow_pixels slow_begin Hir).
Defined.

(** *** The gain of the force segment *)

Lemma scrape_target_gain_unused_witness :
  get_scrape_sound (ext := with_apply_gain demo_ext silencing_gain) 1 fresh_engine tt slide_args
  = get_scrape_sound (ext := demo_ext) 1 fresh_engine tt slide_args.
Proof.
  apply (scrape_target_gain_unused demo_ext silencing_gain 1 fresh_engine tt slide_args).
  - intros seg db Hdb. unfold silencing_gain. by rewrite decide_False.
  - unfold scrape_db, SCRAPE_TARGET_DBFS. cbn. lra.
Defined.

(** *** The drop, frame by frame *)

Lemma cache_drop :
  cache_static_data (ext := demo_ext) (set_cached_audio_info true fresh_engine) drop_frame
  = Done box_engine.
Proof.
  unfold cache_static_data.
  assert (Hin : read_static_data drop_frame
                = mkStaticInputs [(42%Z, "box"%string)] [(42%Z, "box"%string)] []
                    [(42%Z, 1)] [(42%Z, 0.5)]) by reflexivity.
  rewrite Hin.
  cbn [si_names si_object_masses si_categories si_robot_joints si_object_bouncinesses].
  assert (Hres : for_each (resolve_object [(42%Z, 1)])
                   (mkResolveState
                      (static_audio_data_overrides (set_cached_audio_info true fresh_engine))
                      (get_static_audio_data (ext := demo_ext))
                      (map (fun '(k, o) => (k, RefOwned o))
                         (static_audio_data (set_cached_audio_info true fresh_engine))) [])
                   [(42%Z, "box"%string)]
                 = Done (mkResolveState ∅ ∅ [] [42%Z])) by reflexivity.
  rewrite Hres. cbn [mbind outcome_bind rs_need_to_derive for_each].
  rewrite (derive_object_uses_all_values _ _ _ _ _ "box") by reflexivity.
  reflexivity.
Qed.

Lemma drop_event_args :
  event_args (ext := demo_ext) (set_collision_events [(42%Z, drop_event)] box_engine) 42
    drop_event = Done drop_args.
Proof. reflexivity. Qed.

Lemma drop_command (ent : Z) :
  exists e' c,
    get_impact_sound_command (ext := demo_ext) 1
      (set_collision_events [(42%Z, drop_event)] box_engine) tt ent drop_args
    = Done (Some c, e', tt, (ent + 1)%Z) /\
    cmd_id c = ent /\
    forall ent', exists c',
      get_impact_sound_command (ext := demo_ext) 1
        (set_collision_events [(42%Z, drop_event)] box_engine) tt ent' drop_args
      = Done (Some c', e', tt, (ent' + 1)%Z) /\ cmd_id c' = ent'.
Proof.
  destruct (demo_get_sound_fresh (set_collision_events [(42%Z, drop_event)] box_engine)
              drop_args) as (sound & om & info & Hrun & _); try reflexivity.
  - cbn. unfold DEFAULT_AMP. lra.
  - cbn. lra.
  - cbn. unfold FLOOR_MASS. lra.
  - assert (Hcmd : forall n, exists c,
        get_impact_sound_command (ext := demo_ext) 1
          (set_collision_events [(42%Z, drop_event)] box_engine) tt n drop_args
        = Done (Some c, set_object_modes om
                          (set_collision_events [(42%Z, drop_event)] box_engine),
                tt, (n + 1)%Z) /\ cmd_id c = n).
    { intros n. unfold get_impact_sound_command. rewrite Hrun.
      cbn [mbind outcome_bind a_contact_points drop_args mean_point get_unique_id
           os_urandom3 demo_ext].
      eexists. split; [reflexivity|]. cbn [cmd_id]. lia. }
    destruct (Hcmd ent) as (c & Hc & Hid).
    eexists _, c. split_and!; [exact Hc | exact Hid | exact Hcmd].
Qed.

Lemma on_send_drop (ent : Z) :
  exists e' c,
    on_send (ext := demo_ext) 1 (fresh_engine, tt, ent, []) drop_frame
    = Done (e', tt, (ent + 1)%Z, [c]) /\ cmd_id c = ent.
Proof.
  destruct (drop_command ent) as (e' & c & Hc & Hid & _).
  exists e', c. split; [|exact Hid].
  unfold on_send. cbn [cached_audio_info fresh_engine].
  rewrite cache_drop. cbn [mbind outcome_bind]. rewrite classify_drop.
  cbn [mbind outcome_bind collision_events set_collision_events for_each dispatch_event
       collision_type drop_event].
  rewrite drop_event_args. cbn [mbind outcome_bind]. rewrite Hc. reflexivity.
Qed.


Lemma reset_keeps_initial_amp_witness :
  0 < 0.3 < 1 /\
  exists e', reset fresh_engine 0.3 = Done e' /\ initial_amp e' = initial_amp fresh_engine.
Proof.
  assert (H : 0 < 0.3 < 1) by lra.
  split; [exact H|]. exact (reset_keeps_initial_amp fresh_engine 0.3 H).
Defined.

Lemma synth_impact_modes_peak_three_witness :
  force_samples 0.06 = 3%Z /\
  synth_impact_modes (ext := demo_ext) (mkModes [] [1; -3] []) (mkModes [] [] []) 0.06 0.45
  = Done (Some (map Finite [0; 1; -3; 0])) /\
  peak [0; 1; -3; 0] = 3.
Proof.
  exact (synth_impact_modes_peak_three (ext := demo_ext) (mkModes [] [1; -3] [])
           (mkModes [] [] []) 0.45 eq_refl eq_refl).
Defined.

Lemma derived_from_other_category_witness :
  exists e' o,
    cache_static_data (ext := demo_ext) derive_engine derive_frame = Done e' /\
    dget 2%Z (static_audio_data e') = Some o /\
    oas_amp o = 0.5 /\ oas_material o = wood_hard /\
    oas_resonance o = 0.3 /\ oas_size o = 4%Z.
Proof.
  apply (derived_from_other_category (ext := demo_ext)); reflexivity.
Defined.

(** The collisions of [stranger_frame]: the registered box's event is built,
    the stranger's lookup raises, and with it the frame. *)
Lemma unknown_object_counterexample :
  dget 42%Z (static_audio_data box_engine) = Some box_audio /\
  dget 7%Z (static_audio_data box_engine) = None /\
  get_collision_types (ext := demo_ext) box_engine stranger_frame = Raise (KeyError (KInt 7)) /\
  on_send (ext := demo_ext) 1 (box_engine, tt, 0%Z, []) stranger_frame
  = Raise (KeyError (KInt 7)).
Proof. split_and!; reflexivity. Qed.

(** * Further properties *)

(** ** More on numbers *)

Lemma Rfloor_bounds (x : R) : IZR (Rfloor x) <= x < IZR (Rfloor x) + 1.
Proof.
  unfold Rfloor. destruct (archimed x) as [Hgt Hle]. rewrite minus_IZR. lra.
Qed.

Lemma Rfloor_le (x : R) (z : Z) : x < IZR z + 1 -> (Rfloor x <= z)%Z.
Proof.
  intros Hx. destruct (Rfloor_bounds x) as [Hlo _].
  assert (IZR (Rfloor x) < IZR (z + 1)) as H by (rewrite plus_IZR; lra).
  apply lt_IZR in H. lia.
Qed.

Lemma Rceil_le (x : R) (z : Z) : x <= IZR z -> (Rceil x <= z)%Z.
Proof.
  intros Hx. unfold Rceil. destruct (Rfloor_bounds (- x)) as [_ Hhi].
  assert (IZR (- z - 1) < IZR (Rfloor (- x)) + 1 - 1) as H.
  { rewrite minus_IZR, opp_IZR. lra. }
  replace (IZR (Rfloor (- x)) + 1 - 1) with (IZR (Rfloor (- x))) in H by lra.
  apply lt_IZR in H. lia.
Qed.

Lemma Rtrunc_bounds (x : R) (n : Z) :
  - IZR n <= x <= IZR n -> (- n <= Rtrunc x <= n)%Z.
Proof.
  intros [Hlo Hhi]. unfold Rtrunc. destruct (decide (x < 0)) as [Hneg|Hpos].
  - unfold Rceil.
    assert (0 <= Rfloor (- x))%Z by (apply Rfloor_nonneg; lra).
    assert (Rfloor (- x) <= n)%Z by (apply Rfloor_le; lra).
    lia.
  - assert (0 <= Rfloor x)%Z by (apply Rfloor_nonneg; lra).
    assert (Rfloor x <= n)%Z by (apply Rfloor_le; lra).
    lia.
Qed.

(** [np.max] commutes with a monotone map. *)
Lemma foldl_Rmax_mono (f : R -> R) (a : R) (l : list R) :
  (forall x y, x <= y -> f x <= f y) ->
  foldl Rmax (f a) (map f l) = f (foldl Rmax a l).
Proof.
  intros Hf. revert a. induction l as [|b l IH]; intros a; simpl; [done|].
  rewrite <- IH. f_equal. unfold Rmax.
  destruct (Rle_dec a b) as [Hab|Hab], (Rle_dec (f a) (f b)) as [Hfab|Hfab]; try done.
  - exfalso. apply Hfab. by apply Hf.
  - assert (f b <= f a) by (apply Hf; lra). lra.
Qed.

Lemma np_max_mono (f : R -> R) (l : list R) :
  (forall x y, x <= y -> f x <= f y) -> l <> [] -> np_max (map f l) = f (np_max l).
Proof.
  intros Hf Hl. destruct l as [|a l]; [done|]. simpl. by apply foldl_Rmax_mono.
Qed.

Lemma peak_pos (l : list R) : ~ Forall (fun v => v = 0) l -> 0 < peak l.
Proof.
  intros Hn. apply not_Forall_Exists in Hn; [|intros x; apply Req_decision].
  apply Exists_exists in Hn as (v & Hv & Hne).
  pose proof (peak_ge v l Hv) as Hle.
  pose proof (Rabs_pos_lt v Hne). lra.
Qed.

Lemma peak_div (l : list R) (c : R) :
  0 < c -> l <> [] -> peak (map (fun v => v / c) l) = peak l / c.
Proof.
  intros Hc Hl. unfold peak. rewrite map_map.
  rewrite (map_ext _ (fun v => Rabs v / c)).
  2: { intros v. unfold Rdiv. rewrite Rabs_mult, Rabs_inv, (Rabs_right c); [done | lra]. }
  rewrite <- (map_map Rabs (fun x => x / c)).
  apply np_max_mono.
  - intros x y Hxy. unfold Rdiv. apply Rmult_le_compat_r; [|done].
    left. by apply Rinv_0_lt_compat.
  - by destruct l.
Qed.

Section Normalisation.
Context {ext : Externals}.

Lemma normalize_floats_zero (arr : list R) :
  Forall (fun v => v = 0) arr -> normalize_floats arr = arr.
Proof. intros H. unfold normalize_floats. by rewrite bool_decide_eq_true_2. Qed.

Lemma normalize_floats_nonzero (arr : list R) :
  ~ Forall (fun v => v = 0) arr ->
  normalize_floats arr = map (fun v => v / peak arr) arr /\ 0 < peak arr /\
  peak (normalize_floats arr) = 1.
Proof.
  intros H. pose proof (peak_pos arr H) as Hp.
  assert (E : normalize_floats arr = map (fun v => v / peak arr) arr).
  { unfold normalize_floats. by rewrite bool_decide_eq_false_2. }
  split_and!; [done..|]. rewrite E, peak_div; [field; lra | done |].
  intros ->. apply H. constructor.
Qed.

Lemma normalize_floats_unit (arr : list R) :
  Forall (fun v => Rabs v <= 1) (normalize_floats arr).
Proof.
  destruct (decide (Forall (fun v => v = 0) arr)) as [Hz|Hn].
  - rewrite normalize_floats_zero by done.
    eapply Forall_impl; [exact Hz|]. intros v ->. rewrite Rabs_R0. lra.
  - destruct (normalize_floats_nonzero arr Hn) as (-> & Hp & _).
    apply Forall_fmap, Forall_forall. intros v Hv. simpl.
    pose proof (peak_ge v arr Hv) as Hle.
    unfold Rdiv. rewrite Rabs_mult, Rabs_inv, (Rabs_right (peak arr)) by lra.
    apply (Rmult_le_reg_r (peak arr)); [done|].
    rewrite Rmult_assoc, Rinv_l by lra. lra.
Qed.

(** X2.  [_normalize_floats] returns an array of zeros (or an empty one)
    as it is.  Any other array is divided by its peak absolute value, so
    that the peak of the result is 1.  Every sample of the result lies in
    [-1, 1], and normalizing twice is normalizing once. *)
Theorem normalize_floats_peak (arr : list R) :
  (Forall (fun v => v = 0) arr -> normalize_floats arr = arr) /\
  (~ Forall (fun v => v = 0) arr ->
   normalize_floats arr = map (fun v => v / peak arr) arr /\
   peak (normalize_floats arr) = 1) /\
  Forall (fun v => Rabs v <= 1) (normalize_floats arr) /\
  normalize_floats (normalize_floats arr) = normalize_floats arr.
Proof.
  split_and!.
  - apply normalize_floats_zero.
  - intros Hn. destruct (normalize_floats_nonzero arr Hn) as (? & _ & ?). by split.
  - apply normalize_floats_unit.
  - destruct (decide (Forall (fun v => v = 0) arr)) as [Hz|Hn].
    + by rewrite !(normalize_floats_zero arr Hz).
    + destruct (normalize_floats_nonzero arr Hn) as (E & Hp & H1).
      assert (Hn' : ~ Forall (fun v => v = 0) (normalize_floats arr)).
      { intros Hz. apply Hn. rewrite E in Hz. apply Forall_fmap in Hz.
        eapply Forall_impl; [exact Hz|]. intros v Hv. simpl in Hv.
        apply (Rmult_eq_reg_r (/ peak arr)); [|apply Rinv_neq_0_compat; lra].
        unfold Rdiv in Hv. lra. }
      destruct (normalize_floats_nonzero _ Hn') as (E' & _ & _).
      rewrite E', H1. rewrite <- (map_id (normalize_floats arr)) at 2.
      apply map_ext. intros v. simpl. lra.
Qed.

(** X3.  [_normalize_16bit_int] keeps the length of the array and returns
    integers between -32767 and 32767: the cast to [int16] never wraps. *)
Theorem normalize_16bit_int_range (arr : list R) :
  length (normalize_16bit_int arr) = length arr /\
  Forall (fun z => (-32767 <= z <= 32767)%Z) (normalize_16bit_int arr).
Proof.
  unfold normalize_16bit_int. split.
  - rewrite length_map. unfold normalize_floats. case_bool_decide; [done|].
    by rewrite length_map.
  - apply Forall_fmap. eapply Forall_impl; [apply normalize_floats_unit|].
    intros v Hv. simpl. apply (Rtrunc_bounds _ 32767).
    unfold Rabs in Hv. destruct (Rcase_abs v); lra.
Qed.
End Normalisation.

(** ** More on modal synthesis *)

Lemma pointwise_add_nil (a b : list R) : pointwise_add a b = [] <-> a = [] /\ b = [].
Proof. destruct a, b; simpl; split; try done; intros [? ?]; done. Qed.

Lemma length_convolve (h f : list R) :
  h <> [] -> f <> [] -> length (convolve h f) = (length h + length f - 1)%nat.
Proof.
  intros Hh Hf. induction h as [|a h IH]; [done|]. clear Hh.
  cbn [convolve]. rewrite length_pointwise_add, length_map.
  destruct h as [|b h].
  - simpl. lia.
  - cbn [length] in *. rewrite IH by done. destruct f; [done|]. simpl. lia.
Qed.

Lemma force_samples_le (mass : R) : (force_samples mass <= 89)%Z.
Proof.
  unfold force_samples. apply Rceil_le.
  pose proof (Rmin_r (0.001 * mass) 0.002). lra.
Qed.

Lemma force_samples_heavy (mass : R) : 2 <= mass -> force_samples mass = 89%Z.
Proof.
  intros Hm. unfold force_samples. rewrite Rmin_right by lra. apply Rceil_spec. lra.
Qed.

Lemma force_samples_nonpos (mass : R) : mass <= 0 -> (force_samples mass <= 0)%Z.
Proof.
  intros Hm. unfold force_samples. apply Rceil_le. rewrite Rmin_left by lra. lra.
Qed.

Section MoreSynthesis.
Context {ext : Externals}.

(** X4.  [synth_impact_modes] returns [None] exactly when both impulse
    responses are empty; no exception and no other input makes it return
    [None]. *)
Theorem synth_impact_modes_None_iff (modes1 modes2 : Modes) (mass resonance : R) :
  synth_impact_modes modes1 modes2 mass resonance = Done None <->
  Modes_sum_modes modes1 resonance = [] /\ Modes_sum_modes modes2 resonance = [].
Proof.
  unfold synth_impact_modes, mode_add.
  destruct (length (pointwise_add _ _) =? 0)%nat eqn:El.
  - apply Nat.eqb_eq, nil_length_inv, pointwise_add_nil in El. tauto.
  - apply Nat.eqb_neq in El. split.
    + destruct (force_samples mass <? 0)%Z; [done|].
      destruct (fftconvolve _ _); done.
    + intros Hnil. apply pointwise_add_nil in Hnil. rewrite Hnil in El. done.
Qed.

(** X5.  For a positive mass and a non-empty impulse response,
    [synth_impact_modes] returns a sound of [len(h) + n_pts - 1] samples,
    where [len(h)] is the length of the longer of the two impulse responses
    and [n_pts], the length of the force pulse, is between 1 and 89; from a
    mass of 2 on, the pulse has its 89 samples (2 ms). *)
Theorem synth_impact_modes_length (modes1 modes2 : Modes) (mass resonance : R) :
  0 < mass ->
  mode_add (Modes_sum_modes modes1 resonance) (Modes_sum_modes modes2 resonance) <> [] ->
  exists x,
    synth_impact_modes modes1 modes2 mass resonance = Done (Some x) /\
    (1 <= force_samples mass <= 89)%Z /\
    (2 <= mass -> force_samples mass = 89%Z) /\
    length x = (length (Modes_sum_modes modes1 resonance)
                  `max` length (Modes_sum_modes modes2 resonance)
                + Z.to_nat (force_samples mass) - 1)%nat.
Proof.
  intros Hm Hh.
  destruct (synth_impact_modes_returns modes1 modes2 mass resonance Hm Hh)
    as (Hlen & Hx & Hrun).
  eexists. split; [exact Hrun|].
  pose proof (force_samples_pos mass Hm). pose proof (force_samples_le mass).
  split_and!; [lia | lia | apply force_samples_heavy |].
  rewrite length_np_divide_all. unfold fftconvolve.
  destruct (map sin _) as [|s frc] eqn:E; [simpl in Hlen; lia|].
  rewrite length_convolve by done.
  unfold mode_add. rewrite length_pointwise_add, Hlen. done.
Qed.



(** X7.  With a non-empty impulse response, a mass of zero or less makes
    [synth_impact_modes] raise [ValueError]: the force pulse has no sample
    ([np.max] of the empty convolution) or a negative number of samples
    ([np.linspace]). *)
Theorem synth_impact_modes_nonpositive_mass (modes1 modes2 : Modes) (mass resonance : R) :
  mass <= 0 ->
  mode_add (Modes_sum_modes modes1 resonance) (Modes_sum_modes modes2 resonance) <> [] ->
  synth_impact_modes modes1 modes2 mass resonance = Raise ValueError.
Proof.
  intros Hm Hh. unfold synth_impact_modes.
  destruct (length _ =? 0)%nat eqn:El.
  { apply Nat.eqb_eq, nil_length_inv in El. done. }
  pose proof (force_samples_nonpos mass Hm) as Hn.
  destruct (force_samples mass <? 0)%Z eqn:En; [done|].
  apply Z.ltb_ge in En. assert (force_samples mass = 0%Z) as -> by lia.
  reflexivity.
Qed.
End MoreSynthesis.

(** ** Command ids *)

Section UniqueId.
Context {ext : Externals}.

(** X8.  [_get_unique_id] reads three bytes as a big-endian integer: the
    id lies in [0, 2^24) and determines the three bytes. *)
Theorem unique_id_is_24_bit (ent ent' : Entropy) (b0 b1 b2 : Z) :
  os_urandom3 ent = ((b0, b1, b2), ent') ->
  (0 <= b0 < 256)%Z -> (0 <= b1 < 256)%Z -> (0 <= b2 < 256)%Z ->
  exists id,
    get_unique_id ent = (id, ent') /\
    (0 <= id < 16777216)%Z /\
    (id / 65536 = b0)%Z /\ ((id / 256) mod 256 = b1)%Z /\ (id mod 256 = b2)%Z.
Proof.
  intros Hu H0 H1 H2. unfold get_unique_id. rewrite Hu.
  eexists. split; [reflexivity|]. split; [lia|].
  split; [|split]; Z.div_mod_to_equations; lia.
Qed.
End UniqueId.

(** ** The normal speed *)

Lemma Rsum_abs_le (l : list R) (s : R) :
  Forall (fun v => Rabs v <= s) l -> Rabs (Rsum l) <= INR (length l) * s.
Proof.
  induction 1 as [|v l Hv Hl IH].
  - simpl. rewrite Rabs_R0. lra.
  - cbn [Rsum foldr length]. fold (Rsum l). rewrite S_INR.
    pose proof (Rabs_triang v (Rsum l)). lra.
Qed.

Lemma np_sum_finite (l : list R) : np_sum (map Finite l) = Finite (Rsum l).
Proof.
  induction l as [|v l IH]; [done|]. cbn [map np_sum foldr Rsum].
  fold (np_sum (map Finite l)). fold (Rsum l). by rewrite IH.
Qed.

(** X9.  The normal speed that [get_sound] computes from a velocity that
    is not zero and a non-empty list of contact normals that are not zero
    is a number, at most the speed in absolute value: every contact
    contributes the speed times a cosine.  (For a zero velocity, a zero
    normal or no normal, numpy returns nan.) *)
Theorem normal_speed_bounded (velocity : vec3) (contact_normals : list vec3) :
  contact_normals <> [] ->
  norm3 velocity <> 0 ->
  Forall (fun n => norm3 n <> 0) contact_normals ->
  exists s,
    get_normal_speed velocity contact_normals = Finite s /\ Rabs s <= norm3 velocity.
Proof.
  intros Hne Hv Hns. unfold get_normal_speed. destruct velocity as [[vx vy] vz].
  assert (Hnorm : norm3 (vx, vy, vz) = sqrt (vx * vx + vy * vy + vz * vz)) by done.
  rewrite Hnorm. set (speed := sqrt (vx * vx + vy * vy + vz * vz)).
  assert (Hs : 0 <= speed) by apply sqrt_pos.
  set (nvel := np_unit (vx, vy, vz)).
  assert (Hnvel : exists a b c, nvel = (Finite a, Finite b, Finite c)).
  { unfold nvel, np_unit. rewrite !np_div_finite by done. eauto. }
  destruct Hnvel as (a & b & c & ->).
  set (nspd := map _ contact_normals).
  assert (Hl : exists l, nspd = map Finite l /\ Forall (fun v => Rabs v <= speed) l).
  { unfold nspd. clear Hne nspd. induction Hns as [|n ns Hn _ IH]; [by exists []|].
    destruct IH as (l & IHl & Hall). cbn [map]. rewrite IHl.
    destruct n as [[x y] z]. unfold np_unit. rewrite !np_div_finite by done.
    cbn [np_dot3 np_mul np_add np_clip np_arccos].
    set (d := Rmax (-1) (Rmin _ 1)).
    assert (Hd : -1 <= d <= 1).
    { unfold d. split; [apply Rmax_l|]. apply Rmax_lub; [lra | apply Rmin_r]. }
    rewrite (decide_True (P := -1 <= d <= 1)) by done. cbn [np_cos np_mul].
    eexists (_ :: l). split; [reflexivity|]. constructor; [|done].
    rewrite cos_acos by done. rewrite Rabs_mult, (Rabs_right speed) by lra.
    assert (Rabs d <= 1) by (unfold Rabs; destruct (Rcase_abs d); lra).
    nra. }
  destruct Hl as (l & Hl & Hall).
  assert (Hlen : (0 < length l)%nat).
  { assert (E : length nspd = length (map Finite l)) by (by rewrite Hl).
    unfold nspd in E. rewrite !length_map in E.
    destruct contact_normals; [done | simpl in E; lia]. }
  assert (Hn : 0 < INR (length l)) by (by apply lt_0_INR).
  rewrite Hl. unfold np_mean. rewrite np_sum_finite, length_map, np_div_finite by lra.
  eexists. split; [reflexivity|].
  pose proof (Rsum_abs_le l speed Hall) as Hsum.
  unfold Rdiv. rewrite Rabs_mult, Rabs_inv, (Rabs_right (INR _)) by lra.
  apply (Rmult_le_reg_r (INR (length l))); [done|].
  rewrite Rmult_assoc, Rinv_l by lra. lra.
Qed.

(** ** The pixels of a scrape *)

(** X10.  Whatever the velocity, a scrape event covers between 1 and 3586
    pixels of the surface: the speed is capped at [SCRAPE_MAX_VELOCITY]
    and a count of 0 is replaced by 1. *)
Theorem scrape_num_pts_bounds (velocity : vec3) :
  (1 <= scrape_num_pts velocity <= 3586)%Z.
Proof.
  unfold scrape_num_pts.
  pose proof (scrape_mag_nonneg velocity) as H0.
  assert (H5 : scrape_mag velocity <= 5).
  { unfold scrape_mag, SCRAPE_MAX_VELOCITY. apply Rmin_r. }
  set (q := scrape_mag velocity / 1000 / SCRAPE_M_PER_PIXEL).
  assert (Hq : 0 <= q < 3587).
  { unfold q, SCRAPE_M_PER_PIXEL. split.
    - apply Rmult_le_pos; [lra|]. left. apply Rinv_0_lt_compat. lra.
    - apply (Rmult_lt_reg_r (1394.068 * / 1000000000)); [lra|].
      unfold Rdiv. rewrite Rmult_assoc, Rinv_l by lra. lra. }
  assert (0 <= Rfloor q)%Z by (apply Rfloor_nonneg; lra).
  assert (Rfloor q <= 3586)%Z by (apply Rfloor_le; lra).
  destruct (Rfloor q =? 0)%Z eqn:E; [lia|]. apply Z.eqb_neq in E. lia.
Qed.

(** Naming the value of a leading [let] of a run. *)
Ltac peel_let H :=
  lazymatch type of H with
  | (let x := ?v in @?b x) = ?rhs =>
      let y := fresh x in
      pose (y := v); change (b y = rhs) in H; cbv beta in H
  end.

Section Frames.
Context {ext : Externals}.

Lemma others_kept_trans s p om1 om2 om3 :
  others_kept s p om1 om2 -> others_kept s p om2 om3 -> others_kept s p om1 om3.
Proof. intros H1 H2 s' p' Hne. rewrite H2, H1; done. Qed.

Lemma others_kept_store s p om info : others_kept s p om (store_info om s p info).
Proof. intros s' p' Hne. rewrite get_info_store. by rewrite decide_False. Qed.

Lemma others_kept_open s om p :
  others_kept s p om
    (if bool_decide (is_Some (om !! s)) then om else <[s := ∅]> om).
Proof.
  intros s' p' Hne. case_bool_decide as Hs; [done|].
  apply get_info_insert_empty. destruct (om !! s) eqn:E; [|done].
  exfalso. apply Hs. eauto.
Qed.

(** The effect of [get_sound], up to the logging step, on the engine. *)
Lemma synthesize_impact_frame fuel (e : PyImpact AudioSegment) g a sound amp e1 g1 :
  synthesize_impact fuel e g a = Done (sound, amp, e1, g1) ->
  settings e1 = settings e /\
  (forall key, scrape_state e1 key = scrape_state e key) /\
  scrape_previous_index e1 = scrape_previous_index e /\
  (logging e = false -> mode_properties_log e1 = mode_properties_log e) /\
  others_kept (a_secondary_id a) (a_primary_id a) (object_modes e) (object_modes e1).
Proof.
  unfold synthesize_impact. intros H.
  destruct (decide (a_primary_amp a = 0)); [done|].
  inv_bind H as inner Hinner.
  inv_bind H as [om g0] Hom.
  inv_bind H as info0 Hinfo0.
  inv_bind H as [[[[[snd0 m1] m2] amp0] e0] g2] Hbranch.
  inv_bind H as info1 Hinfo1.
  injection H as <- <- <- <-.
  assert (Hom0 : others_kept (a_secondary_id a) (a_primary_id a) (object_modes e) om).
  { destruct (bool_decide (is_Some (inner !! a_primary_id a))).
    - injection Hom as <- <-. apply others_kept_open.
    - inv_bind Hom as [ma ga] Hma. inv_bind Hom as [mb gb] Hmb.
      injection Hom as <- <-.
      eapply others_kept_trans; [apply others_kept_open | apply others_kept_store]. }
  assert (He0 : settings e0 = settings e /\
                (forall key, scrape_state e0 key = scrape_state e key) /\
                scrape_previous_index e0 = scrape_previous_index e /\
                mode_properties_log e0 = mode_properties_log e /\
                others_kept (a_secondary_id a) (a_primary_id a) om (object_modes e0)).
  { destruct (cai_count info0 =? 0)%Z.
    - inv_bind Hbranch as [[[s1 ma] mb] ea] Hmake.
      inv_bind Hbranch as info2 Hinfo2.
      injection Hbranch as <- <- <- <- <- <-.
      unfold make_impact_audio in Hmake.
      inv_bind Hmake as info3 Hinfo3. inv_bind Hmake as s2 Hs2.
      injection Hmake as <- <- <- <-.
      split_and!; [done..|]. cbn [object_modes set_object_modes].
      eapply others_kept_trans; apply others_kept_store.
    - destruct (normal_vector 0 2 _ g0) as [n1 ga].
      destruct (normal_vector 0 2 _ ga) as [n2 gb].
      inv_bind Hbranch as s2 Hs2. injection Hbranch as <- <- <- <- <- <-.
      split_and!; [done..|]. cbn [object_modes set_object_modes].
      apply others_kept_store. }
  destruct He0 as (Hs & Hk & Hi & Hl & Ho).
  assert (Hlog : logging e0 = logging e) by (by injection Hs).
  destruct (logging e0) eqn:El.
  - split_and!; [exact Hs | exact Hk | exact Hi | intros Hf; congruence |].
    cbn [object_modes log_modes set_mode_properties_log].
    by eapply others_kept_trans.
  - split_and!; [exact Hs | exact Hk | exact Hi | done |]. by eapply others_kept_trans.
Qed.

Lemma get_sound_pcm_frame fuel (e : PyImpact AudioSegment) g a r e' g' :
  get_sound_pcm fuel e g a = Done (r, e', g') ->
  settings e' = settings e /\
  (forall key, scrape_state e' key = scrape_state e key) /\
  scrape_previous_index e' = scrape_previous_index e /\
  (logging e = false -> mode_properties_log e' = mode_properties_log e) /\
  others_kept (a_secondary_id a) (a_primary_id a) (object_modes e) (object_modes e').
Proof.
  unfold get_sound_pcm. intros H. inv_bind H as [[[sound amp] e1] g1] Hsyn.
  apply synthesize_impact_frame in Hsyn as (Hs & Hk & Hi & Hl & Ho).
  destruct sound as [sound|].
  - inv_bind H as info Hinfo. injection H as <- <- <-.
    split_and!; [exact Hs | exact Hk | exact Hi | exact Hl |].
    cbn [object_modes set_object_modes].
    eapply others_kept_trans; [exact Ho | apply others_kept_store].
  - injection H as <- <- <-. done.
Qed.

Lemma get_sound_frame fuel (e : PyImpact AudioSegment) g a r e' g' :
  get_sound fuel e g a = Done (r, e', g') ->
  settings e' = settings e /\
  (forall key, scrape_state e' key = scrape_state e key) /\
  scrape_previous_index e' = scrape_previous_index e /\
  (logging e = false -> mode_properties_log e' = mode_properties_log e) /\
  others_kept (a_secondary_id a) (a_primary_id a) (object_modes e) (object_modes e').
Proof.
  unfold get_sound. intros H. inv_bind H as [[pcm e1] g1] Hpcm.
  injection H as <- <- <-. by eapply get_sound_pcm_frame.
Qed.

Lemma get_impulse_response_frame fuel (e : PyImpact AudioSegment) g a h lowest e' g' :
  get_impulse_response fuel e g a = Done (h, lowest, e', g') ->
  settings e' = settings e /\
  (forall key, scrape_state e' key = scrape_state e key) /\
  scrape_previous_index e' = scrape_previous_index e /\
  (logging e = false -> mode_properties_log e' = mode_properties_log e) /\
  others_kept (a_secondary_id a) (a_primary_id a) (object_modes e) (object_modes e').
Proof.
  unfold get_impulse_response. intros H. inv_bind H as [[snd0 e1] g1] Hsound.
  inv_bind H as info Hinfo. inv_bind H as low Hlow. injection H as <- <- <- <-.
  by eapply get_sound_frame.
Qed.

Lemma scrape_begin_frame (e : PyImpact AudioSegment) a master count e0 :
  scrape_begin e a = Done (master, count, e0) ->
  settings e0 = settings e /\ object_modes e0 = object_modes e /\
  mode_properties_log e0 = mode_properties_log e /\
  scrape_previous_index e0 = scrape_previous_index e /\
  forall key, key <> (a_primary_id a, a_secondary_id a) ->
              scrape_state e0 key = scrape_state e key.
Proof.
  unfold scrape_begin. cbv zeta. intros H.
  inv_bind H as [[m c] e1] Hopen. injection H as <- <- <-.
  assert (H1 : settings e1 = settings e /\ object_modes e1 = object_modes e /\
               mode_properties_log e1 = mode_properties_log e /\
               scrape_previous_index e1 = scrape_previous_index e /\
               forall key, key <> (a_primary_id a, a_secondary_id a) ->
                           scrape_state e1 key = scrape_state e key).
  { destruct (bool_decide (is_Some (scrape_summed_masters e !! _))).
    - inv_bind Hopen as m0 Hm0. inv_bind Hopen as c0 Hc0. injection Hopen as <- <- <-. done.
    - injection Hopen as <- <- <-. split_and!; [done..|]. intros key Hne.
      unfold scrape_state. cbn [scrape_summed_masters scrape_events_count
                                scrape_start_velocities set_scrape].
      by rewrite !lookup_insert_ne. }
  destruct H1 as (Hs & Ho & Hl & Hi & Hk).
  destruct (c =? 0)%Z; [|done].
  split_and!; [done..|]. intros key Hne. rewrite <- Hk by done.
  unfold scrape_state. cbn [scrape_summed_masters scrape_events_count
                            scrape_start_velocities set_scrape].
  by rewrite lookup_insert_ne.
Qed.

Lemma get_scrape_sound_frame fuel (e : PyImpact AudioSegment) g a r e' g' :
  get_scrape_sound fuel e g a = Done (r, e', g') ->
  settings e' = settings e /\
  (logging e = false -> mode_properties_log e' = mode_properties_log e) /\
  others_kept (a_secondary_id a) (a_primary_id a) (object_modes e) (object_modes e') /\
  forall key, key <> (a_primary_id a, a_secondary_id a) ->
              scrape_state e' key = scrape_state e key.
Proof.
  intros H. cbv beta delta [get_scrape_sound] in H. peel_let H.
  inv_bind H as [[master count] e0] Hbegin. peel_let H.
  inv_bind H as [[[ir lowest] e1] g1] Hir.
  apply scrape_begin_frame in Hbegin as (Hs0 & Ho0 & Hl0 & Hi0 & Hk0).
  apply get_impulse_response_frame in Hir as (Hs1 & Hk1 & Hi1 & Hl1 & Ho1).
  assert (Hlog : logging e0 = logging e) by (by injection Hs0).
  assert (Hbase : settings e1 = settings e /\
                  (logging e = false -> mode_properties_log e1 = mode_properties_log e) /\
                  others_kept (a_secondary_id a) (a_primary_id a) (object_modes e)
                    (object_modes e1) /\
                  forall key, key <> (a_primary_id a, a_secondary_id a) ->
                              scrape_state e1 key = scrape_state e key).
  { split_and!.
    - congruence.
    - intros Hf. rewrite Hl1 by congruence. done.
    - by rewrite <- Ho0.
    - intros key' Hne. rewrite Hk1. by apply Hk0. }
  clear Hs0 Ho0 Hl0 Hi0 Hk0 Hs1 Hk1 Hi1 Hl1 Ho1 Hlog.
  destruct Hbase as (Hs & Hl & Ho & Hk).
  do 3 peel_let H.
  destruct (num_pts =? 1)%Z.
  - injection H as <- <- <-. split_and!; [done..|]. intros key' Hne.
    rewrite <- Hk by done. unfold scrape_state, end_scrape.
    cbn [scrape_summed_masters scrape_events_count scrape_start_velocities set_scrape].
    by rewrite !lookup_delete_ne.
  - repeat peel_let H. injection H as <- <- <-.
    repeat match goal with x := _ : AudioSegment |- _ => clearbody x end.
    repeat match goal with x := _ : list _ |- _ => clearbody x end.
    repeat match goal with x := _ : Base64Sound |- _ => clearbody x end.
    repeat match goal with x := _ : PyImpact _ |- _ => subst x end.
    split_and!; [done..|]. intros key' Hne.
    rewrite <- Hk by done. unfold scrape_state.
    cbn [scrape_summed_masters scrape_events_count scrape_start_velocities set_scrape].
    by rewrite !lookup_insert_ne.
Qed.

Lemma command_ok_settings (e e' : PyImpact AudioSegment) c :
  settings e' = settings e -> command_ok e' c -> command_ok e c.
Proof.
  intros Hs (H1 & H2 & H3). split_and!; [|done..]. rewrite H1. unfold command_type.
  assert (resonance_audio e' = resonance_audio e) as -> by (by injection Hs). done.
Qed.

Lemma get_impact_sound_command_frame fuel (e : PyImpact AudioSegment) g ent a c e' g' ent' :
  get_impact_sound_command fuel e g ent a = Done (c, e', g', ent') ->
  settings e' = settings e /\
  (logging e = false -> mode_properties_log e' = mode_properties_log e) /\
  match c with Some c => command_ok e c | None => True end.
Proof.
  unfold get_impact_sound_command. intros H. inv_bind H as [[audio e1] g1] Hsound.
  apply get_sound_frame in Hsound as (Hs & _ & _ & Hl & _).
  destruct audio as [audio|].
  - inv_bind H as point Hpoint. destruct (get_unique_id ent) as [id ent1].
    injection H as <- <- <- <-. split_and!; [done..|].
    apply (command_ok_settings _ e1); [done|]. by split_and!.
  - injection H as <- <- <- <-. done.
Qed.

Lemma get_scrape_sound_command_frame fuel (e : PyImpact AudioSegment) g ent a c e' g' ent' :
  get_scrape_sound_command fuel e g ent a = Done (c, e', g', ent') ->
  settings e' = settings e /\
  (logging e = false -> mode_properties_log e' = mode_properties_log e) /\
  match c with Some c => command_ok e c | None => True end.
Proof.
  unfold get_scrape_sound_command. intros H. inv_bind H as [[audio e1] g1] Hsound.
  apply get_scrape_sound_frame in Hsound as (Hs & Hl & _ & _).
  destruct audio as [audio|].
  - inv_bind H as point Hpoint. destruct (get_unique_id ent) as [id ent1].
    injection H as <- <- <- <-. split_and!; [done..|].
    apply (command_ok_settings _ e1); [done|]. by split_and!.
  - injection H as <- <- <- <-. done.
Qed.

Lemma dispatch_event_frame fuel (e : PyImpact AudioSegment) g ent commands entry
    e' g' ent' commands' :
  dispatch_event fuel (e, g, ent, commands) entry = Done (e', g', ent', commands') ->
  settings e' = settings e /\
  (logging e = false -> mode_properties_log e' = mode_properties_log e) /\
  exists new,
    commands' = commands ++ new /\
    (length new <= if is_sounding entry.2 then 1 else 0)%nat /\
    Forall (command_ok e) new.
Proof.
  unfold dispatch_event. destruct entry as [object_id event]. cbn [snd]. intros H.
  inv_bind H as [[[c e1] g1] ent1] Hcmd. injection H as <- <- <- <-.
  assert (Hc : settings e1 = settings e /\
               (logging e = false -> mode_properties_log e1 = mode_properties_log e) /\
               match c with
               | Some c => command_ok e c /\ is_sounding event = true
               | None => True
               end).
  { unfold is_sounding. destruct (collision_type event).
    - inv_bind Hcmd as a Ha. apply get_impact_sound_command_frame in Hcmd as (? & ? & ?).
      split_and!; [done..|]. by destruct c.
    - inv_bind Hcmd as a Ha. apply get_scrape_sound_command_frame in Hcmd as (? & ? & ?).
      split_and!; [done..|]. by destruct c.
    - by injection Hcmd as <- <- <- <-.
    - by injection Hcmd as <- <- <- <-. }
  destruct Hc as (Hs & Hl & Hc). split_and!; [done..|].
  destruct c as [c|].
  - destruct Hc as [Hok ->]. exists [c]. split_and!; [done | simpl; lia |].
    by apply Forall_singleton.
  - exists []. rewrite app_nil_r. split_and!; [done | simpl; lia | constructor].
Qed.

Lemma dispatch_events_frame fuel entries (e : PyImpact AudioSegment) g ent commands
    e' g' ent' commands' :
  for_each (dispatch_event fuel) (e, g, ent, commands) entries
  = Done (e', g', ent', commands') ->
  settings e' = settings e /\
  (logging e = false -> mode_properties_log e' = mode_properties_log e) /\
  exists new,
    commands' = commands ++ new /\
    (length new <= length (filter (fun ev => is_sounding ev = true) (map snd entries)))%nat /\
    Forall (command_ok e) new.
Proof.
  revert e g ent commands.
  induction entries as [|entry entries IH]; intros e g ent commands H.
  - injection H as <- <- <- <-. split_and!; [done..|]. exists [].
    rewrite app_nil_r. split_and!; [done | simpl; lia | constructor].
  - cbn [for_each] in H. inv_bind H as [[[e1 g1] ent1] c1] Hstep.
    apply dispatch_event_frame in Hstep as (Hs1 & Hl1 & new1 & -> & Hn1 & Hok1).
    apply IH in H as (Hs2 & Hl2 & new2 & -> & Hn2 & Hok2).
    assert (Hlog : logging e1 = logging e) by (by injection Hs1).
    split_and!.
    + congruence.
    + intros Hf. rewrite Hl2 by congruence. by apply Hl1.
    + exists (new1 ++ new2). rewrite app_assoc. split_and!; [done | |].
      * rewrite length_app. cbn [map]. rewrite filter_cons.
        destruct (decide (is_sounding entry.2 = true)) as [Ht|Hf].
        -- rewrite Ht in Hn1. cbn [length]. lia.
        -- destruct (is_sounding entry.2); [done|]. lia.
      * apply Forall_app. split; [done|].
        eapply Forall_impl; [exact Hok2|]. intros c. by apply command_ok_settings.
Qed.

Lemma cache_static_data_frame (e : PyImpact AudioSegment) resp e' :
  cache_static_data e resp = Done e' ->
  exists ov registry, e' = set_static_audio ov registry e.
Proof.
  unfold cache_static_data. intros H.
  inv_bind H as st Hst. inv_bind H as derived Hderived. injection H as <-. eauto.
Qed.

Lemma get_collision_types_frame (e : PyImpact AudioSegment) resp e' :
  get_collision_types e resp = Done e' ->
  exists events, e' = set_collision_events events e.
Proof.
  unfold get_collision_types. intros H. inv_bind H as per_object Hc.
  injection H as <-. eauto.
Qed.

(** What a frame leaves alone, and the commands that it appends. *)
Lemma on_send_frame fuel (e : PyImpact AudioSegment) g ent commands resp
    e' g' ent' commands' :
  on_send fuel (e, g, ent, commands) resp = Done (e', g', ent', commands') ->
  configuration e' = configuration e /\
  cached_audio_info e' = true /\
  (cached_audio_info e = true ->
   static_audio_data e' = static_audio_data e /\
   static_audio_data_overrides e' = static_audio_data_overrides e) /\
  (logging e = false -> mode_properties_log e' = mode_properties_log e) /\
  exists new,
    commands' = commands ++ new /\
    (length new <= length (filter (fun ev => is_sounding ev = true)
                             (dvalues (collision_events e'))))%nat /\
    Forall (command_ok e) new.
Proof.
  unfold on_send. intros H.
  inv_bind H as e1 Hcache. inv_bind H as e2 Hclass.
  apply get_collision_types_frame in Hclass as (events & ->).
  apply dispatch_events_frame in H as (Hs & Hl & new & -> & Hlen & Hok).
  assert (H1 : configuration e1 = configuration e /\ cached_audio_info e1 = true /\
               (cached_audio_info e = true ->
                static_audio_data e1 = static_audio_data e /\
                static_audio_data_overrides e1 = static_audio_data_overrides e) /\
               mode_properties_log e1 = mode_properties_log e).
  { destruct (cached_audio_info e) eqn:Ec.
    - injection Hcache as <-. done.
    - apply cache_static_data_frame in Hcache as (ov & registry & ->). done. }
  destruct H1 as (Hc1 & Hf1 & Hr1 & Hl1).
  unfold settings in Hs. cbn [initial_amp prevent_distortion logging resonance_audio floor
    material_data static_audio_data_overrides collision_events cached_audio_info
    static_audio_data initialized set_collision_events] in Hs.
  injection Hs as E1 E2 E3 E4 E5 E6 E7 E8 E9 E10 E11.
  unfold configuration in *. injection Hc1 as F1 F2 F3 F4 F5 F6.
  split_and!.
  - congruence.
  - congruence.
  - intros Hc. destruct (Hr1 Hc) as [? ?]. split; congruence.
  - intros Hf. rewrite Hl by (cbn [logging set_collision_events]; congruence).
    cbn [mode_properties_log set_collision_events]. done.
  - exists new. split_and!; [done | | ].
    + by rewrite E8.
    + eapply Forall_impl; [exact Hok|]. intros c (Ht & ? & ?). split_and!; [|done..].
      rewrite Ht. unfold command_type. cbn [resonance_audio set_collision_events].
      by rewrite F4.
Qed.

(** X11.  A frame never changes the configuration given to [__init__].
    After a frame the static audio data counts as cached, and a frame
    that finds it cached leaves the registry and the override table as
    they are: static data is read from the first frame only. *)
Theorem on_send_keeps_configuration (fuel : nat) (e : PyImpact AudioSegment)
    (g : RandomState) (ent : Entropy) (commands : list Command) (resp : list OutputData)
    (e' : PyImpact AudioSegment) (g' : RandomState) (ent' : Entropy)
    (commands' : list Command) :
  on_send fuel (e, g, ent, commands) resp = Done (e', g', ent', commands') ->
  configuration e' = configuration e /\
  cached_audio_info e' = true /\
  (cached_audio_info e = true ->
   static_audio_data e' = static_audio_data e /\
   static_audio_data_overrides e' = static_audio_data_overrides e).
Proof.
  intros H. apply on_send_frame in H as (? & ? & ? & _). done.
Qed.

(** X12.  A frame keeps the commands that are already in the list, in
    place, and appends at most one command per impact or scrape event of
    the frame (none for a roll).  Every appended command is a
    [play_audio_data] command, or a [play_point_source_data] command with
    Resonance Audio, for one channel at 44100 Hz. *)
Theorem on_send_appends_commands (fuel : nat) (e : PyImpact AudioSegment)
    (g : RandomState) (ent : Entropy) (commands : list Command) (resp : list OutputData)
    (e' : PyImpact AudioSegment) (g' : RandomState) (ent' : Entropy)
    (commands' : list Command) :
  on_send fuel (e, g, ent, commands) resp = Done (e', g', ent', commands') ->
  exists new,
    commands' = commands ++ new /\
    (length new <= length (filter (fun ev => is_sounding ev = true)
                             (dvalues (collision_events e'))))%nat /\
    Forall (fun c => cmd_type c = (if resonance_audio e then "play_point_source_data"
                                   else "play_audio_data")%string /\
                     cmd_num_channels c = 1%Z /\ cmd_frame_rate c = 44100%Z) new.
Proof.
  intros H. apply on_send_frame in H as (_ & _ & _ & _ & new & ? & ? & Hok).
  exists new. split_and!; [done..|]. exact Hok.
Qed.

Lemma run_frame fuel frames (e : PyImpact AudioSegment) g ent commands e' g' ent' commands' :
  run fuel (e, g, ent, commands) frames = Done (e', g', ent', commands') ->
  logging e = false -> mode_properties_log e' = mode_properties_log e.
Proof.
  unfold run. revert e g ent commands.
  induction frames as [|resp frames IH]; intros e g ent commands H Hf.
  - by injection H as <- <- <- <-.
  - cbn [for_each] in H. inv_bind H as [[[e1 g1] ent1] c1] Hstep.
    apply on_send_frame in Hstep as (Hc & _ & _ & Hl & _).
    assert (logging e1 = logging e) as Hlog by (by injection Hc).
    rewrite (IH _ _ _ _ H) by congruence. by apply Hl.
Qed.

(** X13.  With logging off, no run of the engine writes to the mode
    properties log: [get_log] returns after the run what it returned
    before. *)
Theorem log_untouched_without_logging (fuel : nat) (e : PyImpact AudioSegment)
    (g : RandomState) (ent : Entropy) (commands : list Command)
    (frames : list (list OutputData)) (e' : PyImpact AudioSegment) (g' : RandomState)
    (ent' : Entropy) (commands' : list Command) :
  logging e = false ->
  run fuel (e, g, ent, commands) frames = Done (e', g', ent', commands') ->
  get_log e' = get_log e.
Proof. intros Hf H. unfold get_log. by eapply run_frame. Qed.

(** X14.  [get_sound] changes the collision info of its own pair only: the
    info stored for every other pair, the scrape state of every pair and
    the index into the scrape surface are as they were, and so are the
    static audio data and the events of the frame. *)
Theorem get_sound_keeps_other_pairs (fuel : nat) (e : PyImpact AudioSegment)
    (g : RandomState) (a : SoundArgs) (r : option Base64Sound)
    (e' : PyImpact AudioSegment) (g' : RandomState) :
  get_sound fuel e g a = Done (r, e', g') ->
  (forall secondary primary,
     ~ (secondary = a_secondary_id a /\ primary = a_primary_id a) ->
     get_info (object_modes e') secondary primary
     = get_info (object_modes e) secondary primary) /\
  (forall key, scrape_state e' key = scrape_state e key) /\
  scrape_previous_index e' = scrape_previous_index e /\
  static_audio_data e' = static_audio_data e /\
  collision_events e' = collision_events e.
Proof.
  intros H. apply get_sound_frame in H as (Hs & Hk & Hi & _ & Ho).
  split_and!; [exact Ho | exact Hk | exact Hi | by injection Hs | by injection Hs].
Qed.

(** X15.  [get_scrape_sound] changes the scrape state (summed master, event
    count, start velocity) of its own pair only, and the collision info of
    its own pair only. *)
Theorem get_scrape_sound_keeps_other_pairs (fuel : nat) (e : PyImpact AudioSegment)
    (g : RandomState) (a : SoundArgs) (r : option Base64Sound)
    (e' : PyImpact AudioSegment) (g' : RandomState) :
  get_scrape_sound fuel e g a = Done (r, e', g') ->
  (forall key, key <> (a_primary_id a, a_secondary_id a) ->
               scrape_state e' key = scrape_state e key) /\
  (forall secondary primary,
     ~ (secondary = a_secondary_id a /\ primary = a_primary_id a) ->
     get_info (object_modes e') secondary primary
     = get_info (object_modes e) secondary primary).
Proof.
  intros H. apply get_scrape_sound_frame in H as (_ & _ & Ho & Hk). by split.
Qed.
End Frames.

(** ** More on dictionaries *)

Section DictMore.
Context {K V : Type} `{EqDecision K}.
Implicit Types (d : dict K V) (k : K) (v : V).

Lemma dget_Some_key d k v : dget k d = Some v -> k ∈ dkeys d.
Proof.
  intros Hget. destruct (decide (k ∈ dkeys d)) as [|Hn]; [done|].
  apply dget_None in Hn. congruence.
Qed.

Lemma dget_is_Some d k : is_Some (dget k d) <-> k ∈ dkeys d.
Proof.
  split.
  - intros [v Hv]. by eapply dget_Some_key.
  - intros Hin. destruct (dget k d) eqn:E; [by eauto|]. by apply dget_None in E.
Qed.
End DictMore.

(** A loop of assignments [acc[k] = f(k, w)] over the items of a
    dictionary. *)
Lemma dget_foldl_dset {W V : Type} (f : Z -> W -> V) (d : dict Z W) (acc : dict Z V) (k : Z) :
  NoDup (dkeys d) ->
  dget k (foldl (fun acc '(k, w) => dset k (f k w) acc) acc d)
  = match dget k d with
    | Some w => Some (f k w)
    | None => dget k acc
    end.
Proof.
  revert acc. induction d as [|[k0 w0] d IH]; intros acc Hnd; [done|].
  change (dkeys ((k0, w0) :: d)) with (k0 :: dkeys d) in Hnd.
  apply NoDup_cons in Hnd as [Hk0 Hnd]. cbn [foldl dget].
  rewrite IH by done. destruct (decide (k = k0)) as [->|Hne].
  - assert (dget k0 d = None) as -> by (by apply dget_None).
    apply dget_dset_eq.
  - destruct (dget k d); [done|]. by apply dget_dset_ne.
Qed.

Lemma foldl_invariant {A B : Type} (P : A -> Prop) (f : A -> B -> A) (l : list B) (a : A) :
  P a -> (forall a x, P a -> P (f a x)) -> P (foldl f a l).
Proof.
  intros Ha Hf. revert a Ha. induction l as [|x l IH]; intros a Ha; simpl; auto.
Qed.

(** ** What [_cache_static_data] reads from the response *)

Lemma read_static_data_ok (resp : list OutputData) :
  let inputs := read_static_data resp in
  NoDup (dkeys (si_names inputs)) /\
  dkeys (si_categories inputs) = dkeys (si_names inputs) /\
  NoDup (dkeys (si_robot_joints inputs)) /\
  NoDup (dkeys (si_object_masses inputs)) /\
  NoDup (dkeys (si_object_bouncinesses inputs)).
Proof.
  unfold read_static_data.
  apply (foldl_invariant
           (fun inputs =>
              NoDup (dkeys (si_names inputs)) /\
              dkeys (si_categories inputs) = dkeys (si_names inputs) /\
              NoDup (dkeys (si_robot_joints inputs)) /\
              NoDup (dkeys (si_object_masses inputs)) /\
              NoDup (dkeys (si_object_bouncinesses inputs)))).
  - cbn [si_names si_categories si_robot_joints si_object_masses si_object_bouncinesses].
    split_and!; [constructor | done | constructor..].
  - intros inputs r Hinv. destruct r; try done.
    + apply foldl_invariant; [done|]. clear. intros acc [[object_id name] category].
      intros (H1 & H2 & H3 & H4 & H5).
      cbn [si_names si_categories si_robot_joints si_object_masses si_object_bouncinesses]. split_and!; [|  |done..].
      * by apply NoDup_dkeys_dset.
      * rewrite !dkeys_dset, H2. done.
    + apply foldl_invariant; [done|]. clear. intros acc [[joint_id name] mass].
      intros (H1 & H2 & H3 & H4 & H5).
      cbn [si_names si_categories si_robot_joints si_object_masses si_object_bouncinesses]. split_and!; [done | done | | done..].
      by apply NoDup_dkeys_dset.
    + apply foldl_invariant; [done|]. clear. intros acc [[object_id mass] bounciness].
      intros (H1 & H2 & H3 & H4 & H5).
      cbn [si_names si_categories si_robot_joints si_object_masses si_object_bouncinesses].
      split_and!; [done..| |]; by apply NoDup_dkeys_dset.
Qed.

(** ** The resolution loop *)

Lemma resolved_ref_dom ov1 def1 ov2 def2 name :
  (forall m, is_Some (ov1 !! m) <-> is_Some (ov2 !! m)) ->
  (forall m, is_Some (def1 !! m) <-> is_Some (def2 !! m)) ->
  resolved_ref ov1 def1 name = resolved_ref ov2 def2 name.
Proof.
  intros Ho Hd. unfold resolved_ref.
  rewrite (bool_decide_ext _ _ (Ho name)), (bool_decide_ext _ _ (Hd name)). done.
Qed.

Lemma is_Some_alter (m : gmap string ObjectAudioStatic) f n k :
  is_Some (alter f n m !! k) <-> is_Some (m !! k).
Proof.
  destruct (decide (k = n)) as [->|Hne].
  - rewrite lookup_alter_eq. destruct (m !! n); simpl; split; intros [? ?]; eauto; done.
  - by rewrite lookup_alter_ne.
Qed.

(** One step of the loop: it raises for a known name without a mass, and
    otherwise stores a reference or notes the object for derivation. *)
Lemma resolve_object_step masses st i n :
  match resolved_ref (rs_overrides st) (rs_defaults st) n with
  | Some r =>
      match dget i masses with
      | Some mass =>
          exists st',
            resolve_object masses st (i, n) = Done st' /\
            (forall m, is_Some (rs_overrides st' !! m) <-> is_Some (rs_overrides st !! m)) /\
            (forall m, is_Some (rs_defaults st' !! m) <-> is_Some (rs_defaults st !! m)) /\
            rs_static st' = dset i r (rs_static st) /\
            rs_need_to_derive st' = rs_need_to_derive st
      | None => resolve_object masses st (i, n) = Raise (KeyError (KInt i))
      end
  | None =>
      resolve_object masses st (i, n)
      = Done (mkResolveState (rs_overrides st) (rs_defaults st) (rs_static st)
                (rs_need_to_derive st ++ [i]))
  end.
Proof.
  unfold resolved_ref, resolve_object, dindex.
  destruct (bool_decide (is_Some (rs_overrides st !! n))).
  - destruct (dget i masses) as [mass|]; [|done]. eexists. split; [reflexivity|].
    cbn. split_and!; [|done..]. intros m. apply is_Some_alter.
  - destruct (bool_decide (is_Some (rs_defaults st !! n))); [|done].
    destruct (dget i masses) as [mass|]; [|done]. eexists. split; [reflexivity|].
    cbn. split_and!; [done| |done..]. intros m. apply is_Some_alter.
Qed.

Lemma resolve_loop_spec masses names st0 st :
  for_each (resolve_object masses) st0 names = Done st ->
  NoDup (dkeys names) ->
  (forall m, is_Some (rs_overrides st !! m) <-> is_Some (rs_overrides st0 !! m)) /\
  (forall m, is_Some (rs_defaults st !! m) <-> is_Some (rs_defaults st0 !! m)) /\
  (forall i n, (i, n) ∈ names ->
     match resolved_ref (rs_overrides st0) (rs_defaults st0) n with
     | Some r => dget i (rs_static st) = Some r /\ is_Some (dget i masses)
     | None => i ∈ rs_need_to_derive st
     end) /\
  (forall i, i ∉ dkeys names -> dget i (rs_static st) = dget i (rs_static st0)) /\
  (forall i, i ∈ rs_need_to_derive st0 -> i ∈ rs_need_to_derive st) /\
  (forall i, i ∈ rs_need_to_derive st ->
     i ∈ rs_need_to_derive st0 \/
     exists n, (i, n) ∈ names /\ resolved_ref (rs_overrides st0) (rs_defaults st0) n = None).
Proof.
  revert st0. induction names as [|[i0 n0] names IH]; intros st0 Hrun Hnd.
  - injection Hrun as <-. split_and!; try done.
    + intros i n Hin. by apply elem_of_nil in Hin.
    + intros i Hin. by left.
  - change (dkeys ((i0, n0) :: names)) with (i0 :: dkeys names) in *.
    apply NoDup_cons in Hnd as [Hi0 Hnd].
    cbn [for_each] in Hrun. inv_bind Hrun as st1 Hstep.
    destruct (IH _ Hrun Hnd) as (Ho & Hd & Hin & Hout & Hneed & Hneed').
    pose proof (resolve_object_step masses st0 i0 n0) as Hs.
    assert (Hst1 :
      (forall m, is_Some (rs_overrides st1 !! m) <-> is_Some (rs_overrides st0 !! m)) /\
      (forall m, is_Some (rs_defaults st1 !! m) <-> is_Some (rs_defaults st0 !! m)) /\
      match resolved_ref (rs_overrides st0) (rs_defaults st0) n0 with
      | Some r => rs_static st1 = dset i0 r (rs_static st0) /\
                  rs_need_to_derive st1 = rs_need_to_derive st0 /\
                  is_Some (dget i0 masses)
      | None => rs_static st1 = rs_static st0 /\
                rs_need_to_derive st1 = rs_need_to_derive st0 ++ [i0]
      end).
    { destruct (resolved_ref (rs_overrides st0) (rs_defaults st0) n0) as [r|].
      - destruct (dget i0 masses) as [mass|]; [|congruence].
        destruct Hs as (st' & Hs & H1 & H2 & H3 & H4).
        rewrite Hs in Hstep. injection Hstep as <-. split_and!; [done..|]. eauto.
      - rewrite Hs in Hstep. injection Hstep as <-. done. }
    destruct Hst1 as (Ho1 & Hd1 & Hst1).
    assert (Href : forall n, resolved_ref (rs_overrides st1) (rs_defaults st1) n
                             = resolved_ref (rs_overrides st0) (rs_defaults st0) n).
    { intros n. by apply resolved_ref_dom. }
    split_and!.
    + intros m. by rewrite Ho, Ho1.
    + intros m. by rewrite Hd, Hd1.
    + intros i n Hel. apply elem_of_cons in Hel as [[= -> ->]|Hel].
      * destruct (resolved_ref (rs_overrides st0) (rs_defaults st0) n0) as [r|].
        -- destruct Hst1 as (Hs1 & _ & Hm). split; [|done].
           rewrite Hout by done. rewrite Hs1. apply dget_dset_eq.
        -- destruct Hst1 as (_ & Hn1). apply Hneed. rewrite Hn1.
           apply elem_of_app. right. left.
      * specialize (Hin i n Hel). by rewrite Href in Hin.
    + intros i Hni. rewrite not_elem_of_cons in Hni. destruct Hni as [Hne Hni].
      rewrite Hout by done.
      destruct (resolved_ref (rs_overrides st0) (rs_defaults st0) n0) as [r|].
      * destruct Hst1 as (-> & _). by apply dget_dset_ne.
      * by destruct Hst1 as (-> & _).
    + intros i Hi. apply Hneed.
      destruct (resolved_ref (rs_overrides st0) (rs_defaults st0) n0) as [r|].
      * destruct Hst1 as (_ & -> & _). done.
      * destruct Hst1 as (_ & ->). apply elem_of_app. by left.
    + intros i Hi. destruct (Hneed' i Hi) as [Hi1|(n & Hel & Hnone)].
      * destruct (resolved_ref (rs_overrides st0) (rs_defaults st0) n0) as [r|] eqn:E0.
        -- destruct Hst1 as (_ & Hn1 & _). rewrite Hn1 in Hi1. by left.
        -- destruct Hst1 as (_ & Hn1). rewrite Hn1 in Hi1.
           apply elem_of_app in Hi1 as [?|Hi1]; [by left|].
           apply list_elem_of_singleton in Hi1 as ->. right. exists n0. split; [left|done].
      * right. exists n. split; [by right|]. by rewrite <- Href.
Qed.

Lemma resolved_ref_known overrides defaults name :
  is_Some (overrides !! name) \/ is_Some (defaults !! name) <->
  is_Some (resolved_ref overrides defaults name).
Proof.
  unfold resolved_ref.
  destruct (bool_decide (is_Some (overrides !! name))) eqn:E1.
  { apply bool_decide_eq_true in E1. split; [by eauto | by left]. }
  apply bool_decide_eq_false in E1.
  destruct (bool_decide (is_Some (defaults !! name))) eqn:E2.
  { apply bool_decide_eq_true in E2. split; [by eauto | by right]. }
  apply bool_decide_eq_false in E2. split; [tauto | intros [? ?]; done].
Qed.

Lemma resolved_ref_deref overrides defaults name r :
  resolved_ref overrides defaults name = Some r ->
  forall ov def,
    (forall m, is_Some (ov !! m) <-> is_Some (overrides !! m)) ->
    (forall m, is_Some (def !! m) <-> is_Some (defaults !! m)) ->
    is_Some (deref ov def r).
Proof.
  unfold resolved_ref. intros Hr ov def Ho Hd.
  case_bool_decide as H1.
  - injection Hr as <-. simpl. by apply Ho.
  - case_bool_decide as H2; [|done]. injection Hr as <-. simpl. by apply Hd.
Qed.

Lemma dget_resolve_registry st i r o :
  dget i (rs_static st) = Some r ->
  deref (rs_overrides st) (rs_defaults st) r = Some o ->
  dget i (resolve_registry st) = Some o.
Proof.
  unfold resolve_registry. generalize (rs_static st) as d.
  induction d as [|[k r'] d IH]; [done|]. cbn [dget omap list_omap].
  destruct (decide (i = k)) as [->|Hne].
  - intros [= ->] Hd. rewrite Hd. cbn [fmap option_fmap option_map dget].
    by rewrite decide_True.
  - intros Hget Hd.
    destruct (deref (rs_overrides st) (rs_defaults st) r') as [o'|];
      cbn [fmap option_fmap option_map dget]; [|by apply IH].
    rewrite decide_False by done. by apply IH.
Qed.

Lemma dindex_inv {K V : Type} `{EqDecision K} (key : K -> py_key) (k : K) (d : dict K V) (v : V) :
  dindex key k d = Done v -> dget k d = Some v.
Proof. unfold dindex. destruct (dget k d); [by intros [= ->] | done]. Qed.

Section StaticData.
Context {ext : Externals}.

(** ** The derivation loop *)

Lemma derive_loop_spec (inputs : StaticInputs) current_values registry need derived0 derived :
  (forall k, k ∈ need -> is_Some (dget k (si_categories inputs))) ->
  for_each (derive_object inputs current_values registry) derived0 need = Done derived ->
  (NoDup (dkeys derived0) -> NoDup (dkeys derived)) /\
  (forall k, k ∉ need -> dget k derived = dget k derived0) /\
  (forall k, k ∈ need ->
     exists amp material resonance size name mass bounciness,
       derive_values (peers_of_values current_values) = Done (amp, material, resonance, size) /\
       dget k (si_names inputs) = Some name /\
       dget k (si_object_masses inputs) = Some mass /\
       dget k (si_object_bouncinesses inputs) = Some bounciness /\
       dget k derived
       = Some (mkObjectAudioStatic name amp mass material bounciness resonance size k)).
Proof.
  revert derived0. induction need as [|k0 need IH]; intros derived0 Hcat Hrun.
  - injection Hrun as <-. split_and!; [done..|]. intros k Hk. by apply elem_of_nil in Hk.
  - cbn [for_each] in Hrun. inv_bind Hrun as derived1 Hstep.
    destruct (Hcat k0) as [category Hcategory]; [left|].
    rewrite (derive_object_uses_all_values _ _ _ _ _ _ Hcategory) in Hstep.
    inv_bind Hstep as [[[amp material] resonance] size] Hvalues.
    inv_bind Hstep as name Hname. inv_bind Hstep as mass Hmass.
    inv_bind Hstep as bounciness Hbounciness. injection Hstep as <-.
    apply dindex_inv in Hname, Hmass, Hbounciness.
    assert (Hcat' : forall k, k ∈ need -> is_Some (dget k (si_categories inputs))).
    { intros k Hk. apply Hcat. by right. }
    destruct (IH _ Hcat' Hrun) as (Hnd & Hout & Hin).
    split_and!.
    + intros Hnd0. apply Hnd. by apply NoDup_dkeys_dset.
    + intros k Hk. rewrite not_elem_of_cons in Hk. destruct Hk as [Hne Hk].
      rewrite Hout by done. by apply dget_dset_ne.
    + intros k Hk. destruct (decide (k ∈ need)) as [Hin'|Hnin]; [by apply Hin|].
      apply elem_of_cons in Hk as [->|Hk]; [|done].
      exists amp, material, resonance, size, name, mass, bounciness.
      split_and!; [done..|]. rewrite Hout by done. apply dget_dset_eq.
Qed.

(** ** The registry that [_cache_static_data] leaves *)

Lemma cache_static_data_lookup (e : PyImpact AudioSegment) resp e' :
  cache_static_data e resp = Done e' ->
  exists st derived,
    for_each (resolve_object (si_object_masses (read_static_data resp)))
      (mkResolveState (static_audio_data_overrides e) get_static_audio_data
         (map (fun '(k, o) => (k, RefOwned o)) (static_audio_data e)) [])
      (si_names (read_static_data resp)) = Done st /\
    for_each (derive_object (read_static_data resp) (resolve_values st) (resolve_registry st))
      [] (rs_need_to_derive st) = Done derived /\
    static_audio_data_overrides e' = rs_overrides st /\
    forall k,
      dget k (static_audio_data e')
      = match dget k (si_robot_joints (read_static_data resp)) with
        | Some joint => Some (robot_joint_audio k joint)
        | None =>
            match dget k derived with
            | Some o => Some o
            | None => dget k (resolve_registry st)
            end
        end.
Proof.
  unfold cache_static_data. intros H.
  destruct (read_static_data_ok resp) as (Hn & Hc & Hr & Hm & Hb).
  inv_bind H as st Hst. inv_bind H as derived Hderived. injection H as <-.
  exists st, derived. split_and!; [done..|]. intros k.
  cbn [static_audio_data set_static_audio].
  rewrite (dget_foldl_dset (fun joint_id joint => robot_joint_audio joint_id joint)) by done.
  destruct (dget k (si_robot_joints (read_static_data resp))); [done|].
  rewrite (dget_foldl_dset (fun _ (o : ObjectAudioStatic) => o)); [done|].
  destruct (resolve_loop_spec _ _ _ _ Hst Hn) as (_ & _ & _ & _ & _ & Hneed).
  eapply derive_loop_spec; [|exact Hderived|constructor].
  intros i Hi. destruct (Hneed i Hi) as [Hi0|(n & Hel & _)].
  { by apply elem_of_nil in Hi0. }
  apply dget_is_Some. rewrite Hc. unfold dkeys. apply list_elem_of_fmap. by exists (i, n).
Qed.
End StaticData.

Section StaticDataTheorems.
Context {ext : Externals}.

(** The entry of an object whose name is in the override table or in the
    catalog: what its reference gives once the loops are over. *)
Lemma known_object_entry (e : PyImpact AudioSegment) resp e' x name r :
  cache_static_data e resp = Done e' ->
  dget x (si_names (read_static_data resp)) = Some name ->
  resolved_ref (static_audio_data_overrides e) get_static_audio_data name = Some r ->
  dget x (si_robot_joints (read_static_data resp)) = None ->
  exists st o,
    for_each (resolve_object (si_object_masses (read_static_data resp)))
      (mkResolveState (static_audio_data_overrides e) get_static_audio_data
         (map (fun '(k, o) => (k, RefOwned o)) (static_audio_data e)) [])
      (si_names (read_static_data resp)) = Done st /\
    deref (rs_overrides st) (rs_defaults st) r = Some o /\
    dget x (static_audio_data e') = Some o.
Proof.
  intros Hrun Hname Href Hrobot.
  destruct (cache_static_data_lookup e resp e' Hrun) as (st & derived & Hst & Hder & _ & Hget).
  destruct (read_static_data_ok resp) as (Hn & Hc & _).
  destruct (resolve_loop_spec _ _ _ _ Hst Hn) as (Ho & Hd & Hin & _ & _ & Hneed).
  cbn [rs_overrides rs_defaults rs_static rs_need_to_derive] in *.
  apply dget_Some_elem in Hname as Hel.
  specialize (Hin x name Hel). rewrite Href in Hin. destruct Hin as [Hstatic _].
  destruct (resolved_ref_deref _ _ _ _ Href (rs_overrides st) (rs_defaults st) Ho Hd)
    as [o Ho'].
  exists st, o. split_and!; [done..|]. rewrite Hget, Hrobot.
  assert (Hnot : x ∉ rs_need_to_derive st).
  { intros Hx. destruct (Hneed x Hx) as [Hx0|(n & Hel' & Hnone)].
    - by apply elem_of_nil in Hx0.
    - apply (elem_dget _ _ _ Hn) in Hel'. congruence. }
  assert (Hcat : forall k, k ∈ rs_need_to_derive st ->
                           is_Some (dget k (si_categories (read_static_data resp)))).
  { intros k Hk. destruct (Hneed k Hk) as [Hk0|(n & Hel' & _)].
    - by apply elem_of_nil in Hk0.
    - apply dget_is_Some. rewrite Hc. unfold dkeys. apply list_elem_of_fmap.
      by exists (k, n). }
  destruct (derive_loop_spec _ _ _ _ _ _ Hcat Hder) as (_ & Hout & _).
  rewrite (Hout x Hnot). cbn [dget]. by apply (dget_resolve_registry st x r).
Qed.

(** X16.  Two objects of the scene whose model name is in the override
    table or in the catalog get one and the same entry of the registry:
    the table's object is shared, and the mass and the object id written
    into it for one object are overwritten for the other.  So for two
    different objects, the entry of at least one carries the id and the
    mass of the other. *)
Theorem same_name_objects_share_audio (e : PyImpact AudioSegment) (resp : list OutputData)
    (e' : PyImpact AudioSegment) (i j : Z) (name : string) :
  cache_static_data e resp = Done e' ->
  dget i (si_names (read_static_data resp)) = Some name ->
  dget j (si_names (read_static_data resp)) = Some name ->
  is_Some (static_audio_data_overrides e !! name) \/ is_Some (get_static_audio_data !! name) ->
  dget i (si_robot_joints (read_static_data resp)) = None ->
  dget j (si_robot_joints (read_static_data resp)) = None ->
  exists o,
    dget i (static_audio_data e') = Some o /\ dget j (static_audio_data e') = Some o.
Proof.
  intros Hrun Hi Hj Hknown Hri Hrj.
  apply resolved_ref_known in Hknown as [r Href].
  destruct (known_object_entry e resp e' i name r Hrun Hi Href Hri) as (st & o & Hst & Ho & Hgi).
  destruct (known_object_entry e resp e' j name r Hrun Hj Href Hrj)
    as (st' & o' & Hst' & Ho' & Hgj).
  assert (st' = st) as -> by congruence.
  exists o. split; [done|]. congruence.
Qed.

(** X17.  Every joint of the static robot data gets the fixed audio values
    of a robot joint (metal, bounciness 0.6, the default amp, resonance and
    size) with its own name, mass and id, also when an object of the scene
    has the same id. *)
Theorem robot_joints_get_fixed_audio (e : PyImpact AudioSegment) (resp : list OutputData)
    (e' : PyImpact AudioSegment) (joint_id : Z) (name : string) (mass : R) :
  cache_static_data e resp = Done e' ->
  dget joint_id (si_robot_joints (read_static_data resp)) = Some (name, mass) ->
  dget joint_id (static_audio_data e')
  = Some (mkObjectAudioStatic name 0.2 mass metal 0.6 0.45 1 joint_id).
Proof.
  intros Hrun Hjoint.
  destruct (cache_static_data_lookup e resp e' Hrun) as (st & derived & _ & _ & _ & Hget).
  rewrite Hget, Hjoint. reflexivity.
Qed.

Lemma resolve_loop_raises masses names st0 i n :
  (i, n) ∈ names ->
  is_Some (resolved_ref (rs_overrides st0) (rs_defaults st0) n) ->
  dget i masses = None ->
  exists k,
    for_each (resolve_object masses) st0 names = Raise (KeyError (KInt k)) /\
    dget k masses = None.
Proof.
  intros Hel [r Href] Hmass. revert st0 Href.
  induction names as [|[i0 n0] names IH]; intros st0 Href.
  - by apply elem_of_nil in Hel.
  - cbn [for_each]. pose proof (resolve_object_step masses st0 i0 n0) as Hs.
    apply elem_of_cons in Hel as [[= <- <-]|Hel].
    + rewrite Href, Hmass in Hs. rewrite Hs. exists i. done.
    + destruct (resolved_ref (rs_overrides st0) (rs_defaults st0) n0) as [r0|].
      * destruct (dget i0 masses) as [mass|] eqn:E0.
        -- destruct Hs as (st1 & -> & Ho & Hd & _). cbn [mbind outcome_bind].
           apply IH; [done|]. rewrite <- Href. by apply resolved_ref_dom.
        -- rewrite Hs. exists i0. done.
      * rewrite Hs. cbn [mbind outcome_bind]. by apply IH.
Qed.

(** X18.  When an object whose name is in the override table or in the
    catalog has no entry in the static rigidbody data of the frame,
    [_cache_static_data] raises [KeyError] for the id of an object without
    a mass, and no static data is cached. *)
Theorem known_object_without_mass_raises (e : PyImpact AudioSegment)
    (resp : list OutputData) (i : Z) (name : string) :
  dget i (si_names (read_static_data resp)) = Some name ->
  is_Some (static_audio_data_overrides e !! name) \/ is_Some (get_static_audio_data !! name) ->
  dget i (si_object_masses (read_static_data resp)) = None ->
  exists k,
    cache_static_data e resp = Raise (KeyError (KInt k)) /\
    dget k (si_object_masses (read_static_data resp)) = None.
Proof.
  intros Hname Hknown Hmass. apply resolved_ref_known in Hknown.
  apply dget_Some_elem in Hname.
  destruct (resolve_loop_raises (si_object_masses (read_static_data resp))
              (si_names (read_static_data resp))
              (mkResolveState (static_audio_data_overrides e) get_static_audio_data
                 (map (fun '(k, o) => (k, RefOwned o)) (static_audio_data e)) [])
              i name Hname Hknown Hmass) as (k & Hk & Hnone).
  exists k. split; [|done]. unfold cache_static_data. by rewrite Hk.
Qed.

(** The entry of an object whose name is in neither table. *)
Lemma unknown_object_entry (e : PyImpact AudioSegment) resp e' x name :
  cache_static_data e resp = Done e' ->
  dget x (si_names (read_static_data resp)) = Some name ->
  static_audio_data_overrides e !! name = None ->
  get_static_audio_data !! name = None ->
  dget x (si_robot_joints (read_static_data resp)) = None ->
  exists st amp material resonance size mass bounciness,
    for_each (resolve_object (si_object_masses (read_static_data resp)))
      (mkResolveState (static_audio_data_overrides e) get_static_audio_data
         (map (fun '(k, o) => (k, RefOwned o)) (static_audio_data e)) [])
      (si_names (read_static_data resp)) = Done st /\
    derive_values (peers_of_values (resolve_values st)) = Done (amp, material, resonance, size) /\
    dget x (si_object_masses (read_static_data resp)) = Some mass /\
    dget x (si_object_bouncinesses (read_static_data resp)) = Some bounciness /\
    dget x (static_audio_data e')
    = Some (mkObjectAudioStatic name amp mass material bounciness resonance size x).
Proof.
  intros Hrun Hname Hov Hcat Hrobot.
  destruct (cache_static_data_lookup e resp e' Hrun) as (st & derived & Hst & Hder & _ & Hget).
  destruct (read_static_data_ok resp) as (Hn & Hc & _).
  destruct (resolve_loop_spec _ _ _ _ Hst Hn) as (_ & _ & Hin & _ & _ & Hneed).
  cbn [rs_overrides rs_defaults rs_static rs_need_to_derive] in *.
  apply dget_Some_elem in Hname as Hel.
  specialize (Hin x name Hel).
  assert (Href : resolved_ref (static_audio_data_overrides e) get_static_audio_data name
                 = None).
  { unfold resolved_ref. rewrite Hov, Hcat.
    by rewrite !bool_decide_eq_false_2 by (by intros [? ?]). }
  rewrite Href in Hin.
  assert (Hcats : forall k, k ∈ rs_need_to_derive st ->
                            is_Some (dget k (si_categories (read_static_data resp)))).
  { intros k Hk. destruct (Hneed k Hk) as [Hk0|(n & Hel' & _)].
    - by apply elem_of_nil in Hk0.
    - apply dget_is_Some. rewrite Hc. unfold dkeys. apply list_elem_of_fmap.
      by exists (k, n). }
  destruct (derive_loop_spec _ _ _ _ _ _ Hcats Hder) as (_ & _ & Hderived).
  destruct (Hderived x Hin)
    as (amp & material & resonance & size & name' & mass & bounciness
        & Hvalues & Hname' & Hmass & Hbounciness & Hentry).
  assert (name' = name) as -> by congruence.
  exists st, amp, material, resonance, size, mass, bounciness.
  split_and!; [done..|]. by rewrite Hget, Hrobot, Hentry.
Qed.

(** X19.  All the objects of a frame whose name is in neither table get the
    same amp, material, resonance and size, whatever their categories and
    masses: the values are computed from the objects resolved by name, the
    same for each.  Name, mass, bounciness and id are the object's own. *)
Theorem derived_objects_share_values (e : PyImpact AudioSegment) (resp : list OutputData)
    (e' : PyImpact AudioSegment) (i j : Z) (name_i name_j : string) :
  cache_static_data e resp = Done e' ->
  dget i (si_names (read_static_data resp)) = Some name_i ->
  dget j (si_names (read_static_data resp)) = Some name_j ->
  static_audio_data_overrides e !! name_i = None -> get_static_audio_data !! name_i = None ->
  static_audio_data_overrides e !! name_j = None -> get_static_audio_data !! name_j = None ->
  dget i (si_robot_joints (read_static_data resp)) = None ->
  dget j (si_robot_joints (read_static_data resp)) = None ->
  exists o_i o_j,
    dget i (static_audio_data e') = Some o_i /\ dget j (static_audio_data e') = Some o_j /\
    oas_amp o_i = oas_amp o_j /\ oas_material o_i = oas_material o_j /\
    oas_resonance o_i = oas_resonance o_j /\ oas_size o_i = oas_size o_j /\
    oas_name o_i = name_i /\ oas_object_id o_i = i /\
    oas_name o_j = name_j /\ oas_object_id o_j = j /\
    dget i (si_object_masses (read_static_data resp)) = Some (oas_mass o_i) /\
    dget j (si_object_masses (read_static_data resp)) = Some (oas_mass o_j).
Proof.
  intros Hrun Hi Hj Hoi Hci Hoj Hcj Hri Hrj.
  destruct (unknown_object_entry e resp e' i name_i Hrun Hi Hoi Hci Hri)
    as (st & a1 & m1 & r1 & s1 & mass1 & b1 & Hst & Hv1 & Hm1 & _ & He1).
  destruct (unknown_object_entry e resp e' j name_j Hrun Hj Hoj Hcj Hrj)
    as (st' & a2 & m2 & r2 & s2 & mass2 & b2 & Hst' & Hv2 & Hm2 & _ & He2).
  assert (st' = st) as -> by congruence.
  rewrite Hv1 in Hv2. injection Hv2 as <- <- <- <-.
  eexists _, _. split_and!; [exact He1 | exact He2 | done..].
Qed.

Lemma resolve_loop_unknown masses names st0 :
  (forall i n, (i, n) ∈ names ->
               resolved_ref (rs_overrides st0) (rs_defaults st0) n = None) ->
  for_each (resolve_object masses) st0 names
  = Done (mkResolveState (rs_overrides st0) (rs_defaults st0) (rs_static st0)
            (rs_need_to_derive st0 ++ dkeys names)).
Proof.
  revert st0. induction names as [|[i0 n0] names IH]; intros st0 Hall.
  - cbn [for_each dkeys map]. rewrite app_nil_r. by destruct st0.
  - cbn [for_each]. pose proof (resolve_object_step masses st0 i0 n0) as Hs.
    rewrite (Hall i0 n0) in Hs by left. rewrite Hs. cbn [mbind outcome_bind].
    rewrite IH.
    + cbn [rs_overrides rs_defaults rs_static rs_need_to_derive].
      change (dkeys ((i0, n0) :: names)) with ([i0] ++ dkeys names).
      by rewrite app_assoc.
    + intros i n Hel. cbn [rs_overrides rs_defaults]. apply (Hall i n). by right.
Qed.

(** X20.  When no name of the frame is in the override table or in the
    catalog, and the registry is empty (as [__init__] and [reset] leave
    it), every object of the frame gets the default amp, material,
    resonance and size, with its own name, mass, bounciness and id. *)
Theorem unknown_scene_gets_defaults (e : PyImpact AudioSegment) (resp : list OutputData)
    (e' : PyImpact AudioSegment) (i : Z) (name : string) :
  cache_static_data e resp = Done e' ->
  static_audio_data e = [] ->
  (forall k n, dget k (si_names (read_static_data resp)) = Some n ->
               static_audio_data_overrides e !! n = None /\
               get_static_audio_data !! n = None) ->
  dget i (si_names (read_static_data resp)) = Some name ->
  dget i (si_robot_joints (read_static_data resp)) = None ->
  exists mass bounciness,
    dget i (si_object_masses (read_static_data resp)) = Some mass /\
    dget i (si_object_bouncinesses (read_static_data resp)) = Some bounciness /\
    dget i (static_audio_data e')
    = Some (mkObjectAudioStatic name 0.2 mass plastic_hard bounciness 0.45 1 i).
Proof.
  intros Hrun Hempty Hall Hname Hrobot.
  destruct (Hall i name Hname) as [Hov Hcat].
  destruct (unknown_object_entry e resp e' i name Hrun Hname Hov Hcat Hrobot)
    as (st & amp & material & resonance & size & mass & bounciness
        & Hst & Hvalues & Hmass & Hbounciness & Hentry).
  destruct (read_static_data_ok resp) as (Hn & _).
  rewrite resolve_loop_unknown in Hst.
  2: { intros k n Hel. cbn [rs_overrides rs_defaults].
       apply (elem_dget _ _ _ Hn) in Hel. destruct (Hall k n Hel) as [H1 H2].
       unfold resolved_ref. rewrite H1, H2.
       by rewrite !bool_decide_eq_false_2 by (by intros [? ?]). }
  injection Hst as <-. rewrite Hempty in Hvalues.
  injection Hvalues as <- <- <- <-.
  exists mass, bounciness. split_and!; [done..|]. exact Hentry.
Qed.
End StaticDataTheorems.

(** ** Objects that the frame does not register *)

Lemma dget_resolve_registry_None st i :
  dget i (rs_static st) = None -> dget i (resolve_registry st) = None.
Proof.
  unfold resolve_registry. generalize (rs_static st) as d.
  induction d as [|[k r] d IH]; [done|]. cbn [dget omap list_omap].
  destruct (decide (i = k)) as [->|Hne]; [done|]. intros Hget.
  destruct (deref (rs_overrides st) (rs_defaults st) r) as [o|];
    cbn [fmap option_fmap option_map dget]; [|by apply IH].
  rewrite decide_False by done. by apply IH.
Qed.

Lemma dget_owned (registry : dict Z ObjectAudioStatic) (i : Z) :
  dget i registry = None ->
  dget i (map (fun '(k, o) => (k, RefOwned o)) registry) = None.
Proof.
  induction registry as [|[k o] registry IH]; [done|]. cbn [dget map].
  destruct (decide (i = k)); [done | exact IH].
Qed.

Section UnknownObjectFrame.
Context {ext : Externals}.

(** An id that is neither in the registry nor among the objects and robot
    joints of the frame is not in the registry that the frame caches. *)
Lemma absent_object_entry (e : PyImpact AudioSegment) resp e' id :
  cache_static_data e resp = Done e' ->
  dget id (static_audio_data e) = None ->
  dget id (si_names (read_static_data resp)) = None ->
  dget id (si_robot_joints (read_static_data resp)) = None ->
  dget id (static_audio_data e') = None.
Proof.
  intros Hrun Hreg Hname Hrobot.
  destruct (cache_static_data_lookup e resp e' Hrun) as (st & derived & Hst & Hder & _ & Hget).
  destruct (read_static_data_ok resp) as (Hn & Hc & _).
  destruct (resolve_loop_spec _ _ _ _ Hst Hn) as (_ & _ & _ & Hkeep & _ & Hneed).
  cbn [rs_overrides rs_defaults rs_static rs_need_to_derive] in *.
  assert (Hkey : id ∉ dkeys (si_names (read_static_data resp))) by (by apply dget_None).
  assert (Hcat : forall k, k ∈ rs_need_to_derive st ->
                           is_Some (dget k (si_categories (read_static_data resp)))).
  { intros k Hk. apply dget_is_Some. rewrite Hc.
    destruct (Hneed k Hk) as [Hnil|(n & Hin & _)]; [by apply elem_of_nil in Hnil|].
    apply (dget_Some_key _ _ n). by apply elem_dget. }
  assert (Hout : id ∉ rs_need_to_derive st).
  { intros Hk. destruct (Hneed id Hk) as [Hnil|(n & Hin & _)]; [by apply elem_of_nil in Hnil|].
    apply Hkey. apply (dget_Some_key _ _ n). by apply elem_dget. }
  destruct (derive_loop_spec _ _ _ _ _ _ Hcat Hder) as (_ & Hother & _).
  rewrite Hget, Hrobot, (Hother id Hout). cbn [dget].
  apply dget_resolve_registry_None. rewrite (Hkeep id Hkey). by apply dget_owned.
Qed.

(** C2.  A collision record that names an id without an entry in the
    static registry makes [_get_collision_types] raise [KeyError]: the
    registry is indexed without a membership test.  The [on_send] of the
    frame raises with it, so no event of the frame is processed: on every
    frame of an engine whose static data is cached, and on the first
    frame when its static data registers no object or robot joint of that
    id. *)
Theorem unknown_object_raises_KeyError (fuel : nat) (e : PyImpact AudioSegment)
    (g : RandomState) (ent : Entropy) (commands : list Command)
    (resp : list OutputData) (r : OutputData) (id : Z) :
  r ∈ frame_records resp ->
  id ∈ record_ids r ->
  dget id (static_audio_data e) = None ->
  exists k,
    get_collision_types e resp = Raise (KeyError k) /\
    (cached_audio_info e = true ->
     on_send fuel (e, g, ent, commands) resp = Raise (KeyError k)) /\
    (cached_audio_info e = false ->
     dget id (si_names (read_static_data resp)) = None ->
     dget id (si_robot_joints (read_static_data resp)) = None ->
     forall e1,
       cache_static_data (set_cached_audio_info true e) resp = Done e1 ->
       exists k1, on_send fuel (e, g, ent, commands) resp = Raise (KeyError k1)).
Proof.
  intros Hr Hid Hnone.
  destruct (collect_events_unknown (static_audio_data e) (read_rigidbody_data resp)
              (get_previous_areas (collision_events e)) (frame_records resp) [] r id
              Hr Hid Hnone) as [k Hk].
  exists k.
  assert (Hg : get_collision_types e resp = Raise (KeyError k)).
  { unfold get_collision_types, collect_events. by rewrite Hk. }
  split; [done|]. split.
  - intros Hc. unfold on_send. rewrite Hc. simpl. by rewrite Hg.
  - intros Hc Hname Hrobot e1 Hcache.
    assert (Hnone1 : dget id (static_audio_data e1) = None).
    { by apply (absent_object_entry _ _ _ _ Hcache). }
    destruct (collect_events_unknown (static_audio_data e1) (read_rigidbody_data resp)
                (get_previous_areas (collision_events e1)) (frame_records resp) [] r id
                Hr Hid Hnone1) as [k1 Hk1].
    exists k1. unfold on_send. rewrite Hc, Hcache. cbn [mbind outcome_bind].
    unfold get_collision_types, collect_events. by rewrite Hk1.
Qed.
End UnknownObjectFrame.

(** ** The records of a frame *)

Lemma frame_records_snoc (resp : list OutputData) (x : OutputData) :
  frame_records (resp ++ [x]) = resp.
Proof.
  unfold frame_records. rewrite length_app. simpl.
  replace (length resp + 1 - 1)%nat with (length resp) by lia.
  by rewrite take_app_length.
Qed.

Section FrameRecords.
Context {ext : Externals}.

Lemma cache_static_data_snoc (e : PyImpact AudioSegment) resp x y :
  cache_static_data e (resp ++ [x]) = cache_static_data e (resp ++ [y]).
Proof. unfold cache_static_data, read_static_data. by rewrite !frame_records_snoc. Qed.

Lemma get_collision_types_snoc (e : PyImpact AudioSegment) resp x y :
  get_collision_types e (resp ++ [x]) = get_collision_types e (resp ++ [y]).
Proof.
  unfold get_collision_types, collect_events, read_rigidbody_data.
  by rewrite !frame_records_snoc.
Qed.

(** X21.  [on_send] never reads the last element of the response: two
    responses that differ in their last element only are handled alike,
    whatever that element is. *)
Theorem on_send_ignores_last_element (fuel : nat) (w : world) (resp : list OutputData)
    (x y : OutputData) :
  on_send fuel w (resp ++ [x]) = on_send fuel w (resp ++ [y]).
Proof.
  destruct w as [[[e g] ent] commands]. unfold on_send.
  rewrite (cache_static_data_snoc _ resp x y).
  apply bind_ext. intros e1. by rewrite (get_collision_types_snoc _ resp x y).
Qed.

Lemma record_event_no_rigidbody statics rb prev r id :
  id ∈ record_ids r -> rb !! id = None ->
  exists k, record_event statics rb prev r = Raise (KeyError k).
Proof.
  intros Hid Hnone.
  destruct (record_event_outcome statics rb prev r) as [[oe Hd]|]; [|done].
  exfalso. revert Hd. unfold record_event, dindex, mindex.
  destruct r; simpl in Hid; try (by apply elem_of_nil in Hid).
  - destruct (dget (collider_id c) statics); simpl; [|done].
    destruct (rb !! collider_id c) eqn:E0; simpl; [|done].
    destruct (dget (collidee_id c) statics); simpl; [|done].
    destruct (rb !! collidee_id c) eqn:E1; simpl; [|done].
    apply elem_of_cons in Hid as [->|Hid]; [congruence|].
    apply list_elem_of_singleton in Hid as ->. congruence.
  - apply list_elem_of_singleton in Hid as ->.
    destruct (dget (env_object_id c) statics); simpl; [|done].
    by rewrite Hnone.
Qed.

Lemma collect_events_raises statics rb prev records per_object r :
  r ∈ records ->
  (exists k, record_event statics rb prev r = Raise (KeyError k)) ->
  exists k,
    for_each (fun per_object r =>
                oe ← record_event statics rb prev r;
                Done (match oe with
                      | Some event => add_event per_object event
                      | None => per_object
                      end)) per_object records = Raise (KeyError k).
Proof.
  intros Hr [k0 Hk0]. revert per_object.
  induction records as [|r0 records IH]; intros per_object.
  - by apply elem_of_nil in Hr.
  - simpl. apply elem_of_cons in Hr as [<-|Hr].
    + rewrite Hk0. simpl. eauto.
    + destruct (record_event_outcome statics rb prev r0) as [[oe ->]|[k ->]]; simpl; eauto.
Qed.

(** X22.  A collision record that names an object for which the frame
    carries neither rigidbody nor joint-velocity data makes
    [_get_collision_types] raise [KeyError], also when the object is in
    the static registry; [on_send] raises with it. *)
Theorem missing_rigidbody_raises_KeyError (fuel : nat) (e : PyImpact AudioSegment)
    (g : RandomState) (ent : Entropy) (commands : list Command)
    (resp : list OutputData) (r : OutputData) (id : Z) :
  r ∈ frame_records resp ->
  id ∈ record_ids r ->
  read_rigidbody_data resp !! id = None ->
  exists k,
    get_collision_types e resp = Raise (KeyError k) /\
    (cached_audio_info e = true ->
     on_send fuel (e, g, ent, commands) resp = Raise (KeyError k)).
Proof.
  intros Hr Hid Hnone.
  destruct (collect_events_raises (static_audio_data e) (read_rigidbody_data resp)
              (get_previous_areas (collision_events e)) (frame_records resp) [] r Hr)
    as [k Hk].
  { by eapply record_event_no_rigidbody. }
  exists k.
  assert (Hg : get_collision_types e resp = Raise (KeyError k)).
  { unfold get_collision_types, collect_events. by rewrite Hk. }
  split; [done|]. intros Hc. unfold on_send. rewrite Hc. simpl. by rewrite Hg.
Qed.

Lemma collect_events_no_records statics rb prev records per_object :
  Forall (fun r => record_ids r = []) records ->
  for_each (fun per_object r =>
              oe ← record_event statics rb prev r;
              Done (match oe with
                    | Some event => add_event per_object event
                    | None => per_object
                    end)) per_object records = Done per_object.
Proof.
  induction 1 as [|r records Hr _ IH]; [done|]. simpl.
  assert (record_event statics rb prev r = Done None) as ->.
  { destruct r; try done; simpl in Hr; done. }
  simpl. exact IH.
Qed.

(** X23.  A frame without collision records, handled by an engine whose
    static data is cached, empties the event map and changes nothing
    else: the events of the previous frame are not kept, no command is
    appended, and neither the random generator nor the entropy source is
    used. *)
Theorem quiet_frame_clears_events (fuel : nat) (e : PyImpact AudioSegment)
    (g : RandomState) (ent : Entropy) (commands : list Command) (resp : list OutputData) :
  cached_audio_info e = true ->
  Forall (fun r => record_ids r = []) (frame_records resp) ->
  on_send fuel (e, g, ent, commands) resp
  = Done (set_collision_events [] e, g, ent, commands).
Proof.
  intros Hc Hq. unfold on_send. rewrite Hc. cbn [mbind outcome_bind].
  unfold get_collision_types, collect_events.
  rewrite collect_events_no_records by done. reflexivity.
Qed.
End FrameRecords.

(** ** The catalog and the material data *)

Lemma foldl_insert_by_key {A V : Type} (key : A -> string) (value : A -> V) (l : list A)
    (acc : gmap string V) (k : string) :
  (forall a, a ∈ l -> key a <> k) ->
  foldl (fun acc a => <[key a := value a]> acc) acc l !! k = acc !! k.
Proof.
  revert acc. induction l as [|a l IH]; intros acc Hne; [done|]. cbn [foldl].
  rewrite IH by (intros a' Ha'; apply Hne; by right).
  apply lookup_insert_ne. apply Hne. left.
Qed.

Lemma foldl_insert_origin {A V : Type} (key : A -> string) (value : A -> V) (l : list A)
    (acc : gmap string V) (k : string) (v : V) :
  foldl (fun acc a => <[key a := value a]> acc) acc l !! k = Some v ->
  (exists a, a ∈ l /\ key a = k /\ value a = v) \/ acc !! k = Some v.
Proof.
  revert acc. induction l as [|a l IH]; intros acc; [by right|]. cbn [foldl].
  intros Hget. destruct (IH _ Hget) as [(a' & Ha' & Hk & Hv)|Hacc].
  - left. exists a'. split; [by right | done].
  - destruct (decide (key a = k)) as [Heq|Hne].
    + rewrite <- Heq, lookup_insert_eq in Hacc. injection Hacc as <-.
      left. exists a. split; [left | done].
    + rewrite lookup_insert_ne in Hacc by done. by right.
Qed.

Lemma foldl_insert_member {A V : Type} (key : A -> string) (value : A -> V) (l : list A)
    (acc : gmap string V) (a : A) :
  a ∈ l -> is_Some (foldl (fun acc a => <[key a := value a]> acc) acc l !! key a).
Proof.
  revert a acc. induction l as [|a0 l IH]; intros a acc Hin.
  - by apply elem_of_nil in Hin.
  - cbn [foldl]. apply elem_of_cons in Hin as [->|Hin]; [|by apply IH].
    destruct (decide (Exists (fun a' => key a' = key a0) l)) as [Hex|Hnex].
    + apply Exists_exists in Hex as (a' & Ha' & Hk). rewrite <- Hk. by apply IH.
    + rewrite foldl_insert_by_key.
      * rewrite lookup_insert_eq. eauto.
      * intros a' Ha' Hk. apply Hnex. apply Exists_exists. eauto.
Qed.

Lemma foldl_nested {A B C : Type} (f : C -> A -> B -> C) (la : list A) (lb : list B) (acc : C) :
  foldl (fun acc a => foldl (fun acc b => f acc a b) acc lb) acc la
  = foldl (fun acc '(a, b) => f acc a b) acc (a ← la; pair a <$> lb).
Proof.
  revert acc. induction la as [|a la IH]; intros acc; [done|].
  cbn [foldl mbind list_bind]. rewrite foldl_app, <- IH. f_equal.
  clear. revert acc. induction lb as [|b lb IH]; intros acc; [done|].
  cbn [foldl fmap list_fmap]. apply IH.
Qed.

Section Tables.
Context {ext : Externals}.

(** X24.  The catalog that [get_static_audio_data] builds from the rows of
    [objects.csv] is keyed by the name of the row; every row's name is a
    key; and of several rows of one name the last one is kept. *)
Theorem catalog_keeps_last_row :
  (forall name o, get_static_audio_data !! name = Some o ->
                  o ∈ objects_csv /\ oas_name o = name) /\
  (forall o, o ∈ objects_csv -> is_Some (get_static_audio_data !! oas_name o)) /\
  (forall rows o rest,
     objects_csv = rows ++ o :: rest ->
     Forall (fun o' => oas_name o' <> oas_name o) rest ->
     get_static_audio_data !! oas_name o = Some o).
Proof.
  unfold get_static_audio_data. split_and!.
  - intros name o Hget.
    apply (foldl_insert_origin oas_name (fun o => o)) in Hget
      as [(a & Ha & Hk & ->)|Hempty]; [done|].
    by rewrite lookup_empty in Hempty.
  - intros o Ho. by apply (foldl_insert_member oas_name (fun o => o)).
  - intros rows o rest -> Hrest. rewrite foldl_app. cbn [foldl].
    rewrite (foldl_insert_by_key oas_name (fun o => o)).
    + apply lookup_insert_eq.
    + intros a Ha. rewrite Forall_forall in Hrest. by apply Hrest.
Qed.

Lemma load_material_data_flat :
  load_material_data
  = foldl (fun acc p => <[(p.1 +:+ "_" +:+ pretty p.2)%string
                          := material_file ((p.1 +:+ "_" +:+ pretty p.2) +:+ "_mm")%string]> acc)
      ∅ (mat ← material_list; pair mat <$> [0; 1; 2; 3; 4; 5]%Z).
Proof.
  unfold load_material_data.
  rewrite (foldl_nested
             (fun acc mat (i : Z) =>
                <[(mat +:+ "_" +:+ pretty i)%string
                  := material_file ((mat +:+ "_" +:+ pretty i) +:+ "_mm")%string]> acc)).
  reflexivity.
Qed.

Lemma material_pairs (mat : string) (i : Z) :
  (mat, i) ∈ (mat ← material_list; pair mat <$> [0; 1; 2; 3; 4; 5]%Z) <->
  mat ∈ material_list /\ (0 <= i <= 5)%Z.
Proof.
  rewrite list_elem_of_bind. split.
  - intros (mat' & Hin & Hmat). apply list_elem_of_fmap in Hin as (i' & [= -> ->] & Hi).
    split; [done|].
    repeat (apply elem_of_cons in Hi as [->|Hi]; [lia|]). by apply elem_of_nil in Hi.
  - intros [Hmat Hi]. exists mat. split; [|done]. apply list_elem_of_fmap. exists i.
    split; [done|].
    assert (i = 0 \/ i = 1 \/ i = 2 \/ i = 3 \/ i = 4 \/ i = 5)%Z as Hc by lia.
    destruct Hc as [->|[->|[->|[->|[->| ->]]]]]; repeat constructor.
Qed.

(** X25.  [__init__] loads one file of mode data for each of the 14
    material names and each size 0 to 5, keyed ["{material}_{size}"] and
    read from the file ["{material}_{size}_mm"]; the material data has no
    other key. *)
Theorem material_data_has_all_files (initial_amp_arg : R)
    (prevent_distortion_arg logging_arg : bool)
    (static_audio_data_overrides_arg : option (gmap string ObjectAudioStatic))
    (resonance_audio_arg : bool) (floor_arg : AudioMaterial) (e : PyImpact AudioSegment) :
  PyImpact_init initial_amp_arg prevent_distortion_arg logging_arg
    static_audio_data_overrides_arg resonance_audio_arg floor_arg = Done e ->
  (forall mat i,
     mat ∈ material_list -> (0 <= i <= 5)%Z ->
     material_data e !! (mat +:+ "_" +:+ pretty i)%string
     = Some (material_file ((mat +:+ "_" +:+ pretty i) +:+ "_mm")%string)) /\
  (forall key data,
     material_data e !! key = Some data ->
     exists mat i,
       mat ∈ material_list /\ (0 <= i <= 5)%Z /\
       key = (mat +:+ "_" +:+ pretty i)%string /\
       data = material_file (key +:+ "_mm")%string).
Proof.
  unfold PyImpact_init. destruct (valid_initial_amp initial_amp_arg); [|done].
  intros [= <-]. cbn [material_data].
  pose (key := fun p : string * Z => (p.1 +:+ "_" +:+ pretty p.2)%string).
  pose (value := fun p : string * Z => material_file (key p +:+ "_mm")%string).
  assert (Hflat : load_material_data
                  = foldl (fun acc p => <[key p := value p]> acc) ∅
                      (mat ← material_list; pair mat <$> [0; 1; 2; 3; 4; 5]%Z))
    by apply load_material_data_flat.
  rewrite Hflat. clear Hflat.
  split.
  - intros mat i Hmat Hi.
    assert (Hin : (mat, i) ∈ (mat ← material_list; pair mat <$> [0; 1; 2; 3; 4; 5]%Z)).
    { by apply material_pairs. }
    destruct (foldl_insert_member key value _ ∅ _ Hin) as [v Hv].
    change (key (mat, i)) with (mat +:+ "_" +:+ pretty i)%string in Hv.
    rewrite Hv. f_equal.
    apply (foldl_insert_origin key value) in Hv as [(p & _ & Hk & <-)|Hempty].
    + unfold value. by rewrite Hk.
    + by rewrite lookup_empty in Hempty.
  - intros k data Hget.
    apply (foldl_insert_origin key value) in Hget as [([mat i] & Hin & Hk & <-)|Hempty].
    + apply material_pairs in Hin as [Hmat Hi]. exists mat, i.
      split; [done|]. split; [done|].
      split; [by rewrite <- Hk | unfold value; by rewrite Hk].
    + by rewrite lookup_empty in Hempty.
Qed.

Lemma material_name_listed (m : AudioMaterial) : material_name m ∈ material_list.
Proof. destruct m; cbn [material_name material_list]; repeat constructor. Qed.

(** X26.  In an engine built by [__init__], the material key that
    [on_send] builds for the floor (["{floor}_4"]) and for a registry entry
    whose size is between 0 and 5 (["{material}_{size}"]) names a loaded
    material, so that [_get_object_modes] finds its mode data. *)
Theorem registry_materials_are_loaded (initial_amp_arg : R)
    (prevent_distortion_arg logging_arg : bool)
    (static_audio_data_overrides_arg : option (gmap string ObjectAudioStatic))
    (resonance_audio_arg : bool) (floor_arg : AudioMaterial) (e : PyImpact AudioSegment) :
  PyImpact_init initial_amp_arg prevent_distortion_arg logging_arg
    static_audio_data_overrides_arg resonance_audio_arg floor_arg = Done e ->
  is_Some (material_data e !! get_floor_material_name e) /\
  (forall audio,
     (0 <= oas_size audio <= 5)%Z -> is_Some (material_data e !! material_key audio)).
Proof.
  unfold PyImpact_init. destruct (valid_initial_amp initial_amp_arg); [|done].
  intros [= <-]. cbn [material_data].
  pose (key := fun p : string * Z => (p.1 +:+ "_" +:+ pretty p.2)%string).
  pose (value := fun p : string * Z => material_file (key p +:+ "_mm")%string).
  assert (Hflat : load_material_data
                  = foldl (fun acc p => <[key p := value p]> acc) ∅
                      (mat ← material_list; pair mat <$> [0; 1; 2; 3; 4; 5]%Z))
    by apply load_material_data_flat.
  rewrite Hflat. clear Hflat.
  assert (Hkey : forall m i, (0 <= i <= 5)%Z ->
            is_Some (foldl (fun acc p => <[key p := value p]> acc)
                       (∅ : gmap string ModeData)
                       (mat ← material_list; pair mat <$> [0; 1; 2; 3; 4; 5]%Z)
                     !! (material_name m +:+ "_" +:+ pretty i)%string)).
  { intros m i Hi.
    apply (foldl_insert_member key value _ ∅ (material_name m, i)).
    apply material_pairs. split; [apply material_name_listed | done]. }
  split.
  - apply (Hkey floor_arg FLOOR_SIZE). unfold FLOOR_SIZE. lia.
  - intros audio Hsize. by apply Hkey.
Qed.
End Tables.

Section MoreImpactSound.
Context {ext : Externals}.

(** X27.  The modes that [_get_object_modes] returns have ten frequencies,
    ten powers and ten decay times; every frequency is at least 20 Hz and
    every decay time at least 1 ms. *)
Theorem sampled_modes_within_bounds (fuel : nat) (e : PyImpact AudioSegment)
    (material : string) (g : RandomState) (m : Modes) (g' : RandomState) :
  get_object_modes fuel e material g = Done (m, g') ->
  length (frequencies m) = 10%nat /\ length (powers m) = 10%nat /\
  length (decay_times m) = 10%nat /\
  Forall (fun f => 20 <= f) (frequencies m) /\ Forall (fun t => 1 <= t) (decay_times m).
Proof.
  intros H. apply get_object_modes_ok in H as ((? & ? & ?) & ? & ?). done.
Qed.

Lemma get_object_modes_unknown fuel (e : PyImpact AudioSegment) material g :
  material_data e !! material = None ->
  get_object_modes fuel e material g = Raise (KeyError (KStr material)).
Proof. intros H. unfold get_object_modes, mindex. by rewrite H. Qed.

(** The table once the secondary has its inner dictionary. *)
Lemma opened_modes (om : gmap (option Z) (gmap Z CollisionAudioInfo)) s :
  let om' := if bool_decide (is_Some (om !! s)) then om else <[s := ∅]> om in
  exists inner,
    mindex key_of_id s om' = Done inner /\
    (forall p, inner !! p = get_info om s p) /\
    (forall s' p', get_info om' s' p' = get_info om s' p').
Proof.
  cbv zeta. unfold mindex, get_info. destruct (om !! s) as [inner|] eqn:E.
  - rewrite bool_decide_eq_true_2 by eauto. rewrite E. exists inner.
    split_and!; [done | | done]. intros p. done.
  - rewrite bool_decide_eq_false_2 by (by intros [? ?]). rewrite lookup_insert_eq.
    exists ∅. split_and!; [done | |].
    + intros p. cbn. apply lookup_empty.
    + intros s' p'. destruct (decide (s' = s)) as [->|Hne].
      * rewrite lookup_insert_eq, E. cbn. apply lookup_empty.
      * by rewrite lookup_insert_ne.
Qed.

(** X28.  On the first impact of a pair, a material that is not a key of
    the material data makes [get_sound] raise [KeyError] with that
    material: the secondary's material is looked up first, the primary's
    once the modes of the secondary are sampled. *)
Theorem unknown_material_raises_KeyError (fuel : nat) (e : PyImpact AudioSegment)
    (g : RandomState) (a : SoundArgs) :
  a_primary_amp a <> 0 ->
  get_info (object_modes e) (a_secondary_id a) (a_primary_id a) = None ->
  (material_data e !! a_secondary_material a = None ->
   get_sound fuel e g a = Raise (KeyError (KStr (a_secondary_material a)))) /\
  (forall m g1,
     get_object_modes fuel e (a_secondary_material a) g = Done (m, g1) ->
     material_data e !! a_primary_material a = None ->
     get_sound fuel e g a = Raise (KeyError (KStr (a_primary_material a)))).
Proof.
  intros Hamp Hnone.
  destruct (opened_modes (object_modes e) (a_secondary_id a)) as (inner & Hinner & Hp & _).
  cbv zeta in Hinner. specialize (Hp (a_primary_id a)). rewrite Hnone in Hp.
  split.
  - intros Hmat. unfold get_sound, get_sound_pcm, synthesize_impact.
    rewrite decide_False by done. rewrite Hinner. cbn [mbind outcome_bind]. rewrite Hp.
    rewrite bool_decide_eq_false_2 by (by intros [? ?]).
    rewrite get_object_modes_unknown by done. reflexivity.
  - intros m g1 Hm Hmat. unfold get_sound, get_sound_pcm, synthesize_impact.
    rewrite decide_False by done. rewrite Hinner. cbn [mbind outcome_bind]. rewrite Hp.
    rewrite bool_decide_eq_false_2 by (by intros [? ?]).
    rewrite Hm. cbn [mbind outcome_bind].
    rewrite get_object_modes_unknown by done. reflexivity.
Qed.

(** The count of the pair is not changed by [get_sound] up to the logging
    step; a pair without info gets one with the count 0. *)
Lemma synthesize_impact_count fuel (e : PyImpact AudioSegment) g a sound amp e1 g1 :
  synthesize_impact fuel e g a = Done (sound, amp, e1, g1) ->
  exists info1,
    get_info (object_modes e1) (a_secondary_id a) (a_primary_id a) = Some info1 /\
    cai_count info1 = pair_count e (a_secondary_id a) (a_primary_id a).
Proof.
  unfold synthesize_impact, pair_count. intros H.
  destruct (decide (a_primary_amp a = 0)); [done|].
  destruct (opened_modes (object_modes e) (a_secondary_id a)) as (inner' & Hinner' & Hp & Hsame).
  cbv zeta in Hinner', Hsame.
  inv_bind H as inner Hinner.
  assert (inner' = inner) as -> by congruence. clear Hinner'.
  inv_bind H as [om g0] Hom.
  inv_bind H as info0 Hinfo0.
  inv_bind H as [[[[[snd0 m1] m2] amp0] e0] g2] Hbranch.
  inv_bind H as info1 Hinfo1.
  injection H as <- <- <- <-.
  apply lookup_info_Done in Hinfo0. cbn [object_modes set_object_modes] in Hinfo0.
  assert (Hcount0 : cai_count info0
                    = match get_info (object_modes e) (a_secondary_id a) (a_primary_id a) with
                      | Some info => cai_count info
                      | None => 0%Z
                      end).
  { specialize (Hp (a_primary_id a)).
    destruct (bool_decide (is_Some (inner !! a_primary_id a))) eqn:Eb.
    - injection Hom as <- <-. rewrite Hsame in Hinfo0. by rewrite Hinfo0.
    - apply bool_decide_eq_false in Eb.
      assert (get_info (object_modes e) (a_secondary_id a) (a_primary_id a) = None) as ->.
      { rewrite <- Hp. destruct (inner !! a_primary_id a); [|done]. exfalso. eauto. }
      inv_bind Hom as [ma ga] Hma. inv_bind Hom as [mb gb] Hmb.
      injection Hom as <- <-.
      rewrite get_info_store, decide_True in Hinfo0 by done.
      by injection Hinfo0 as <-. }
  rewrite <- Hcount0. clear Hcount0 Hp Hsame Hinner Hom.
  assert (He0 : exists info,
            get_info (object_modes e0) (a_secondary_id a) (a_primary_id a) = Some info /\
            cai_count info = cai_count info0).
  { destruct (cai_count info0 =? 0)%Z.
    - inv_bind Hbranch as [[[s1 ma] mb] ea] Hmake.
      inv_bind Hbranch as info2 Hinfo2.
      injection Hbranch as <- <- <- <- <- <-.
      unfold make_impact_audio in Hmake.
      inv_bind Hmake as info3 Hinfo3. inv_bind Hmake as s2 Hs2.
      injection Hmake as <- <- <- <-.
      apply lookup_info_Done in Hinfo3. cbn [object_modes set_object_modes] in Hinfo3.
      rewrite Hinfo0 in Hinfo3. injection Hinfo3 as <-.
      apply lookup_info_Done in Hinfo2. cbn [object_modes set_object_modes] in Hinfo2.
      rewrite get_info_store, decide_True in Hinfo2 by done. injection Hinfo2 as <-.
      eexists. cbn [object_modes set_object_modes].
      rewrite get_info_store, decide_True by done. split; [reflexivity|]. done.
    - destruct (normal_vector 0 2 _ g0) as [n1 ga].
      destruct (normal_vector 0 2 _ ga) as [n2 gb].
      inv_bind Hbranch as s2 Hs2. injection Hbranch as <- <- <- <- <- <-.
      eexists. cbn [object_modes set_object_modes].
      rewrite get_info_store, decide_True by done. split; [reflexivity|]. done. }
  destruct He0 as (info & Hget & Hcount). exists info. split; [|done].
  destruct (logging e0); done.
Qed.

(** X29.  [get_sound] counts the sounds of a pair: a call that returns a
    sound leaves the pair with a count one above the count before the
    call (0 for a pair without collision info), and a call that returns
    [None] leaves the count as it was. *)
Theorem get_sound_counts_collisions (fuel : nat) (e : PyImpact AudioSegment)
    (g : RandomState) (a : SoundArgs) (r : option Base64Sound)
    (e' : PyImpact AudioSegment) (g' : RandomState) :
  get_sound fuel e g a = Done (r, e', g') ->
  pair_count e' (a_secondary_id a) (a_primary_id a)
  = (pair_count e (a_secondary_id a) (a_primary_id a)
     + match r with Some _ => 1 | None => 0 end)%Z /\
  is_Some (get_info (object_modes e') (a_secondary_id a) (a_primary_id a)).
Proof.
  unfold get_sound, get_sound_pcm. intros H.
  inv_bind H as [[pcm e1] g1] Hpcm. injection H as <- <- <-.
  inv_bind Hpcm as [[[sound amp] e0] g0] Hsyn.
  apply synthesize_impact_count in Hsyn as (info0 & Hget & Hcount).
  destruct sound as [sound|].
  - inv_bind Hpcm as info Hinfo. injection Hpcm as <- <- <-.
    apply lookup_info_Done in Hinfo. assert (info = info0) as -> by congruence.
    unfold pair_count at 1. cbn [object_modes set_object_modes option_map].
    rewrite get_info_store, decide_True by done. cbn [count_collisions cai_count].
    split; [lia | eauto].
  - injection Hpcm as <- <- <-. unfold pair_count at 1. rewrite Hget.
    cbn [option_map]. split; [lia | eauto].
Qed.
End MoreImpactSound.

Section ScrapeCount.
Context {ext : Externals}.

Lemma scrape_begin_count (e : PyImpact AudioSegment) a master count e0 :
  scrape_begin e a = Done (master, count, e0) ->
  count = scrape_count e (a_primary_id a, a_secondary_id a) /\
  scrape_events_count e0 !! (a_primary_id a, a_secondary_id a) = Some count /\
  is_Some (scrape_summed_masters e0 !! (a_primary_id a, a_secondary_id a)).
Proof.
  unfold scrape_begin, scrape_count. cbv zeta. intros H.
  inv_bind H as [[m c] e1] Hopen. injection H as <- <- <-.
  assert (H1 : c = (if bool_decide (is_Some (scrape_summed_masters e
                                               !! (a_primary_id a, a_secondary_id a)))
                    then default 0%Z (scrape_events_count e
                                        !! (a_primary_id a, a_secondary_id a))
                    else 0%Z) /\
               scrape_events_count e1 !! (a_primary_id a, a_secondary_id a) = Some c /\
               is_Some (scrape_summed_masters e1 !! (a_primary_id a, a_secondary_id a))).
  { destruct (bool_decide (is_Some (scrape_summed_masters e !! _))) eqn:Eb.
    - apply bool_decide_eq_true in Eb.
      inv_bind Hopen as m0 Hm0. inv_bind Hopen as c0 Hc0. injection Hopen as <- <- <-.
      unfold mindex in Hc0.
      destruct (scrape_events_count e !! (a_primary_id a, a_secondary_id a)) as [c1|];
        [|done].
      injection Hc0 as <-. done.
    - injection Hopen as <- <- <-.
      cbn [scrape_events_count scrape_summed_masters set_scrape].
      rewrite !lookup_insert_eq. split_and!; [done | done | eauto]. }
  destruct H1 as (Hc & He & Hm). split; [done|].
  destruct (c =? 0)%Z; done.
Qed.

(** X30.  A call of [get_scrape_sound] returns no sound exactly when the
    slide covers one pixel.  A call that returns a sound leaves the pair
    with a summed master and with an event count one above the count it
    started with (0 for a new scrape), and the length of the sound is the
    number of its bytes. *)
Theorem scrape_sound_counts_events (fuel : nat) (e : PyImpact AudioSegment)
    (g : RandomState) (a : SoundArgs) (r : option Base64Sound)
    (e' : PyImpact AudioSegment) (g' : RandomState) :
  get_scrape_sound fuel e g a = Done (r, e', g') ->
  (r = None <-> scrape_num_pts (a_velocity a) = 1%Z) /\
  (forall sound,
     r = Some sound ->
     scrape_events_count e' !! (a_primary_id a, a_secondary_id a)
     = Some (scrape_count e (a_primary_id a, a_secondary_id a) + 1)%Z /\
     is_Some (scrape_summed_masters e' !! (a_primary_id a, a_secondary_id a)) /\
     snd_length sound = Z.of_nat (length (snd_bytes sound)) /\
     wav_str sound = b64encode (snd_bytes sound)).
Proof.
  intros H. cbv beta delta [get_scrape_sound] in H. peel_let H.
  inv_bind H as [[master count] e0] Hbegin. peel_let H.
  inv_bind H as [[[ir lowest] e1] g1] Hir.
  apply scrape_begin_count in Hbegin as (Hcount & _ & _).
  do 3 peel_let H. fold (scrape_num_pts (a_velocity a)).
  assert (Hn : num_pts = scrape_num_pts (a_velocity a)) by reflexivity.
  rewrite <- Hn. clearbody num_pts.
  destruct (num_pts =? 1)%Z eqn:En.
  - injection H as <- <- <-. apply Z.eqb_eq in En. split; [done|]. intros sound Hs. done.
  - apply Z.eqb_neq in En. repeat peel_let H. injection H as <- <- <-.
    repeat match goal with x := _ : AudioSegment |- _ => clearbody x end.
    repeat match goal with x := _ : list R |- _ => clearbody x end.
    repeat match goal with x := _ : list Z |- _ => clearbody x end.
    split; [split; [done | intros; done]|].
    intros snd0 [= <-].
    repeat match goal with x := _ : Base64Sound |- _ => subst x end.
    repeat match goal with x := _ : PyImpact _ |- _ => subst x end.
    cbn [scrape_summed_masters scrape_events_count set_scrape snd_length snd_bytes wav_str].
    rewrite !lookup_insert_eq. subst key. rewrite <- Hcount.
    split_and!; [done | eauto | done | done].
Qed.
End ScrapeCount.

(** ** Runs in two processes *)

Section SetOrder.
Context (ext : Externals) (order1 order2 : list AudioMaterial -> list AudioMaterial).









End SetOrder.

(** ** Evaluation on concrete inputs *)

Lemma synth_impact_modes_length_witness :
  exists x,
    synth_impact_modes (ext := demo_ext) sharp_modes silent_modes 3 0.45 = Done (Some x) /\
    (1 <= force_samples 3 <= 89)%Z /\
    (2 <= 3 -> force_samples 3 = 89%Z) /\
    length x = (length (powers sharp_modes) `max` length (powers silent_modes)
                + Z.to_nat (force_samples 3) - 1)%nat.
Proof.
  apply (synth_impact_modes_length (ext := demo_ext) sharp_modes silent_modes 3 0.45).
  - lra.
  - discriminate.
Defined.






Lemma synth_impact_modes_nonpositive_mass_witness :
  synth_impact_modes (ext := demo_ext) sharp_modes silent_modes 0 0.45 = Raise ValueError.
Proof.
  apply (synth_impact_modes_nonpositive_mass (ext := demo_ext) sharp_modes silent_modes 0 0.45).
  - lra.
  - discriminate.
Defined.

Lemma unique_id_is_24_bit_witness :
  exists id,
    get_unique_id (ext := demo_ext) 5%Z = (id, 6%Z) /\
    (0 <= id < 16777216)%Z /\
    (id / 65536 = 0)%Z /\ ((id / 256) mod 256 = 0)%Z /\ (id mod 256 = 5)%Z.
Proof.
  apply (unique_id_is_24_bit (ext := demo_ext) 5%Z 6%Z 0 0 5 eq_refl); lia.
Defined.

Lemma up_normal : norm3 (0, 1, 0) = 1.
Proof.
  unfold norm3. replace (0 * 0 + 1 * 1 + 0 * 0) with 1 by lra. apply sqrt_1.
Qed.

Lemma normal_speed_bounded_witness :
  exists s,
    get_normal_speed drop_velocity [(0, 1, 0)] = Finite s /\ Rabs s <= norm3 drop_velocity.
Proof.
  apply (normal_speed_bounded drop_velocity [(0, 1, 0)]).
  - discriminate.
  - rewrite drop_magnitude. lra.
  - apply Forall_singleton. rewrite up_normal. lra.
Defined.

(** ** Frames *)

Lemma on_send_box (ent : Z) :
  exists e' c,
    on_send (ext := demo_ext) 1 (box_engine, tt, ent, []) drop_frame
    = Done (e', tt, (ent + 1)%Z, [c]).
Proof.
  destruct (drop_command ent) as (e' & c & Hc & _ & _).
  exists e', c. unfold on_send. cbn [cached_audio_info box_engine set_static_audio
                                     set_cached_audio_info fresh_engine].
  cbn [mbind outcome_bind]. rewrite classify_drop.
  cbn [mbind outcome_bind collision_events set_collision_events for_each dispatch_event
       collision_type drop_event].
  rewrite drop_event_args. cbn [mbind outcome_bind]. rewrite Hc. reflexivity.
Qed.

Lemma on_send_keeps_configuration_witness :
  exists e' c,
    on_send (ext := demo_ext) 1 (box_engine, tt, 0%Z, []) drop_frame
    = Done (e', tt, 1%Z, [c]) /\
    configuration e' = configuration box_engine /\
    cached_audio_info e' = true /\
    static_audio_data e' = static_audio_data box_engine /\
    static_audio_data_overrides e' = static_audio_data_overrides box_engine.
Proof.
  destruct (on_send_box 0) as (e' & c & Hrun). exists e', c. split; [exact Hrun|].
  destruct (on_send_keeps_configuration (ext := demo_ext) 1 box_engine tt 0%Z [] drop_frame
              e' tt 1%Z [c] Hrun) as (Hc & Hf & Hr).
  split; [exact Hc|]. split; [exact Hf|]. exact (Hr eq_refl).
Defined.

Lemma on_send_appends_commands_witness :
  exists e' c new,
    on_send (ext := demo_ext) 1 (fresh_engine, tt, 0%Z, []) drop_frame
    = Done (e', tt, 1%Z, [c]) /\
    [c] = [] ++ new /\
    (length new <= length (filter (fun ev => is_sounding ev = true)
                             (dvalues (collision_events e'))))%nat /\
    Forall (fun c => cmd_type c = (if resonance_audio fresh_engine
                                   then "play_point_source_data"
                                   else "play_audio_data")%string /\
                     cmd_num_channels c = 1%Z /\ cmd_frame_rate c = 44100%Z) new.
Proof.
  destruct (on_send_drop 0) as (e' & c & Hrun & _).
  destruct (on_send_appends_commands (ext := demo_ext) 1 fresh_engine tt 0%Z [] drop_frame
              e' tt 1%Z [c] Hrun) as (new & Hnew).
  exists e', c, new. split; [exact Hrun | exact Hnew].
Defined.

Lemma run_drop :
  exists e' c,
    run (ext := demo_ext) 1 (fresh_engine, tt, 0%Z, []) [drop_frame] = Done (e', tt, 1%Z, [c]).
Proof.
  destruct (on_send_drop 0) as (e' & c & Hrun & _). exists e', c.
  unfold run. cbn [for_each]. rewrite Hrun. reflexivity.
Qed.

Lemma log_untouched_without_logging_witness :
  exists e' c,
    run (ext := demo_ext) 1 (fresh_engine, tt, 0%Z, []) [drop_frame] = Done (e', tt, 1%Z, [c]) /\
    get_log e' = get_log fresh_engine.
Proof.
  destruct run_drop as (e' & c & Hrun). exists e', c. split; [exact Hrun|].
  exact (log_untouched_without_logging (ext := demo_ext) 1 fresh_engine tt 0%Z []
           [drop_frame] e' tt 1%Z [c] eq_refl Hrun).
Defined.

Lemma light_sound :
  exists sound om,
    get_sound (ext := demo_ext) 1 fresh_engine tt light_args
    = Done (Some sound, set_object_modes om fresh_engine, tt).
Proof.
  destruct (demo_get_sound_fresh fresh_engine light_args) as (sound & om & info & Hrun & _);
    try reflexivity.
  - cbn. lra.
  - cbn. lra.
  - cbn. unfold FLOOR_MASS. lra.
  - by exists sound, om.
Qed.

Lemma get_sound_keeps_other_pairs_witness :
  exists sound e',
    get_sound (ext := demo_ext) 1 fresh_engine tt light_args = Done (Some sound, e', tt) /\
    (forall secondary primary,
       ~ (secondary = None /\ primary = 42%Z) ->
       get_info (object_modes e') secondary primary
       = get_info (object_modes fresh_engine) secondary primary) /\
    (forall key, scrape_state e' key = scrape_state fresh_engine key) /\
    scrape_previous_index e' = scrape_previous_index fresh_engine /\
    static_audio_data e' = static_audio_data fresh_engine /\
    collision_events e' = collision_events fresh_engine.
Proof.
  destruct light_sound as (sound & om & Hrun). eexists _, _. split; [exact Hrun|].
  exact (get_sound_keeps_other_pairs (ext := demo_ext) 1 fresh_engine tt light_args _ _ _ Hrun).
Defined.

Lemma get_sound_counts_collisions_witness :
  exists sound e',
    get_sound (ext := demo_ext) 1 fresh_engine tt light_args = Done (Some sound, e', tt) /\
    pair_count e' None 42 = (pair_count fresh_engine None 42 + 1)%Z /\
    is_Some (get_info (object_modes e') None 42%Z).
Proof.
  destruct light_sound as (sound & om & Hrun). eexists _, _. split; [exact Hrun|].
  exact (get_sound_counts_collisions (ext := demo_ext) 1 fresh_engine tt light_args _ _ _ Hrun).
Defined.

(** ** Scrapes *)

Lemma slow_scrape :
  exists e2, get_scrape_sound (ext := demo_ext) 1 fresh_engine tt slow_args = Done (None, e2, tt).
Proof.
  destruct slow_impulse_response as (ir & lowest & om & Hir).
  eexists. unfold get_scrape_sound. cbv zeta. rewrite slow_begin. cbn [mbind outcome_bind].
  rewrite Hir. cbn [mbind outcome_bind]. rewrite (scrape_num_pts_one _ slow_pixels).
  reflexivity.
Qed.

Lemma get_scrape_sound_keeps_other_pairs_witness :
  exists e',
    get_scrape_sound (ext := demo_ext) 1 fresh_engine tt slow_args = Done (None, e', tt) /\
    (forall key, key <> (42%Z, None) -> scrape_state e' key = scrape_state fresh_engine key) /\
    (forall secondary primary,
       ~ (secondary = None /\ primary = 42%Z) ->
       get_info (object_modes e') secondary primary
       = get_info (object_modes fresh_engine) secondary primary).
Proof.
  destruct slow_scrape as (e' & Hrun). exists e'. split; [exact Hrun|].
  exact (get_scrape_sound_keeps_other_pairs (ext := demo_ext) 1 fresh_engine tt slow_args
           _ _ _ Hrun).
Defined.

Lemma slide_mag : scrape_mag (1, 0, 0) = 1.
Proof.
  unfold scrape_mag, norm3, SCRAPE_MAX_VELOCITY.
  replace (1 * 1 + 0 * 0 + 0 * 0) with 1 by lra.
  rewrite sqrt_1. apply Rmin_left. lra.
Qed.

Lemma slide_pixels : scrape_num_pts (a_velocity slide_args) = 717%Z.
Proof.
  unfold scrape_num_pts. cbn [a_velocity slide_args]. rewrite slide_mag.
  rewrite (Rfloor_spec _ 717); [reflexivity|].
  unfold SCRAPE_M_PER_PIXEL. split.
  - apply (Rmult_le_reg_r (1394.068 * / 1000000000)); [lra|].
    unfold Rdiv. rewrite Rmult_assoc, Rinv_l by lra. lra.
  - apply (Rmult_lt_reg_r (1394.068 * / 1000000000)); [lra|].
    unfold Rdiv. rewrite Rmult_assoc, Rinv_l by lra. lra.
Qed.

Lemma slide_begin :
  scrape_begin (ext := demo_ext) fresh_engine slide_args = Done (seg_silent 0, 0%Z, slide_engine).
Proof.
  unfold scrape_begin. cbv zeta.
  cbn [scrape_summed_masters fresh_engine a_primary_id a_secondary_id slide_args].
  rewrite lookup_empty. rewrite bool_decide_eq_false_2 by (by intros [? ?]).
  reflexivity.
Qed.

Lemma slide_impulse_response :
  exists ir lowest om,
    get_impulse_response (ext := demo_ext) 1 slide_engine tt slide_args
    = Done (ir, lowest, set_object_modes om slide_engine, tt).
Proof.
  apply demo_get_impulse_response_fresh; try reflexivity.
  - cbn. lra.
  - cbn. lra.
  - cbn. unfold FLOOR_MASS. lra.
Qed.

Lemma slide_scrape :
  exists sound e2,
    get_scrape_sound (ext := demo_ext) 1 fresh_engine tt slide_args = Done (Some sound, e2, tt).
Proof.
  destruct slide_impulse_response as (ir & lowest & om & Hir).
  unfold get_scrape_sound. cbv zeta. rewrite slide_begin. cbn [mbind outcome_bind].
  rewrite Hir. cbn [mbind outcome_bind]. rewrite slide_pixels.
  change (717 =? 1)%Z with false. cbv iota.
  eexists _, _. reflexivity.
Qed.

Lemma scrape_sound_counts_events_witness :
  exists sound e',
    get_scrape_sound (ext := demo_ext) 1 fresh_engine tt slide_args = Done (Some sound, e', tt) /\
    (Some sound = None <-> scrape_num_pts (a_velocity slide_args) = 1%Z) /\
    (forall sound0,
       Some sound = Some sound0 ->
       scrape_events_count e' !! (42%Z, @None Z)
       = Some (scrape_count fresh_engine (42%Z, None) + 1)%Z /\
       is_Some (scrape_summed_masters e' !! (42%Z, @None Z)) /\
       snd_length sound0 = Z.of_nat (length (snd_bytes sound0)) /\
       wav_str sound0 = b64encode (Externals := demo_ext) (snd_bytes sound0)).
Proof.
  destruct slide_scrape as (sound & e' & Hrun). exists sound, e'. split; [exact Hrun|].
  exact (scrape_sound_counts_events (ext := demo_ext) 1 fresh_engine tt slide_args _ _ _ Hrun).
Defined.

(** ** Static audio data *)

Lemma twin_cache :
  exists e', cache_static_data (ext := demo_ext) derive_engine twin_frame = Done e'.
Proof. eexists. reflexivity. Qed.

Lemma chair_override :
  is_Some (static_audio_data_overrides (derive_engine (ext := demo_ext)) !! "chair"%string).
Proof. exists demo_chair. apply lookup_insert_eq. Qed.

Lemma same_name_objects_share_audio_witness :
  exists e' o,
    cache_static_data (ext := demo_ext) derive_engine twin_frame = Done e' /\
    dget 1%Z (static_audio_data e') = Some o /\ dget 2%Z (static_audio_data e') = Some o.
Proof.
  destruct twin_cache as [e' Hrun].
  destruct (same_name_objects_share_audio (ext := demo_ext) derive_engine twin_frame e'
              1 2 "chair" Hrun eq_refl eq_refl (or_introl chair_override) eq_refl eq_refl)
    as [o Ho].
  exists e', o. split; [exact Hrun | exact Ho].
Defined.

Lemma robot_cache :
  exists e', cache_static_data (ext := demo_ext) fresh_engine robot_frame = Done e'.
Proof. eexists. reflexivity. Qed.

Lemma robot_joints_get_fixed_audio_witness :
  exists e',
    cache_static_data (ext := demo_ext) fresh_engine robot_frame = Done e' /\
    dget 7%Z (static_audio_data e')
    = Some (mkObjectAudioStatic "shoulder" 0.2 2 metal 0.6 0.45 1 7).
Proof.
  destruct robot_cache as [e' Hrun]. exists e'. split; [exact Hrun|].
  exact (robot_joints_get_fixed_audio (ext := demo_ext) fresh_engine robot_frame e'
           7 "shoulder" 2 Hrun eq_refl).
Defined.

Lemma known_object_without_mass_raises_witness :
  exists k,
    cache_static_data (ext := demo_ext) derive_engine massless_frame = Raise (KeyError (KInt k)) /\
    dget k (si_object_masses (read_static_data massless_frame)) = None.
Proof.
  exact (known_object_without_mass_raises (ext := demo_ext) derive_engine massless_frame
           1 "chair" eq_refl (or_introl chair_override) eq_refl).
Defined.

Lemma strangers_cache :
  exists e', cache_static_data (ext := demo_ext) fresh_engine strangers_frame = Done e'.
Proof. eexists. reflexivity. Qed.

Lemma derived_objects_share_values_witness :
  exists e' o_i o_j,
    cache_static_data (ext := demo_ext) fresh_engine strangers_frame = Done e' /\
    dget 1%Z (static_audio_data e') = Some o_i /\ dget 2%Z (static_audio_data e') = Some o_j /\
    oas_amp o_i = oas_amp o_j /\ oas_material o_i = oas_material o_j /\
    oas_resonance o_i = oas_resonance o_j /\ oas_size o_i = oas_size o_j /\
    oas_name o_i = "aaa"%string /\ oas_object_id o_i = 1%Z /\
    oas_name o_j = "bbb"%string /\ oas_object_id o_j = 2%Z /\
    dget 1%Z (si_object_masses (read_static_data strangers_frame)) = Some (oas_mass o_i) /\
    dget 2%Z (si_object_masses (read_static_data strangers_frame)) = Some (oas_mass o_j).
Proof.
  destruct strangers_cache as [e' Hrun].
  destruct (derived_objects_share_values (ext := demo_ext) fresh_engine strangers_frame e'
              1 2 "aaa" "bbb" Hrun eq_refl eq_refl eq_refl eq_refl eq_refl eq_refl
              eq_refl eq_refl) as (o_i & o_j & Ho).
  exists e', o_i, o_j. split; [exact Hrun | exact Ho].
Defined.

Lemma strangers_unknown (k : Z) (n : string) :
  dget k (si_names (read_static_data strangers_frame)) = Some n ->
  static_audio_data_overrides fresh_engine !! n = None /\
  get_static_audio_data (ext := demo_ext) !! n = None.
Proof. intros _. split; apply lookup_empty. Qed.

Lemma unknown_scene_gets_defaults_witness :
  exists e' mass bounciness,
    cache_static_data (ext := demo_ext) fresh_engine strangers_frame = Done e' /\
    dget 2%Z (si_object_masses (read_static_data strangers_frame)) = Some mass /\
    dget 2%Z (si_object_bouncinesses (read_static_data strangers_frame)) = Some bounciness /\
    dget 2%Z (static_audio_data e')
    = Some (mkObjectAudioStatic "bbb" 0.2 mass plastic_hard bounciness 0.45 1 2).
Proof.
  destruct strangers_cache as [e' Hrun].
  destruct (unknown_scene_gets_defaults (ext := demo_ext) fresh_engine strangers_frame e'
              2 "bbb" Hrun eq_refl strangers_unknown eq_refl eq_refl)
    as (mass & bounciness & Ho).
  exists e', mass, bounciness. split; [exact Hrun | exact Ho].
Defined.

(** ** Frames without rigidbody data or without collisions *)

Lemma missing_rigidbody_raises_KeyError_witness :
  exists k,
    get_collision_types (ext := demo_ext) box_engine bare_frame = Raise (KeyError k) /\
    (cached_audio_info box_engine = true ->
     on_send (ext := demo_ext) 1 (box_engine, tt, 0%Z, []) bare_frame = Raise (KeyError k)).
Proof.
  apply (missing_rigidbody_raises_KeyError (ext := demo_ext) 1 box_engine tt 0%Z []
           bare_frame (Enco drop_collision) 42).
  - left.
  - left.
  - reflexivity.
Defined.

Lemma quiet_frame_clears_events_witness :
  on_send (ext := demo_ext) 1 (box_engine, tt, 0%Z, []) still_frame
  = Done (set_collision_events [] box_engine, tt, 0%Z, []).
Proof.
  apply (quiet_frame_clears_events (ext := demo_ext) 1 box_engine tt 0%Z [] still_frame).
  - reflexivity.
  - repeat constructor.
Defined.

(** ** The material data *)

Lemma init_fresh :
  PyImpact_init (ext := demo_ext) 0.5 true false None false wood_medium = Done fresh_engine.
Proof.
  unfold PyImpact_init, valid_initial_amp.
  rewrite !bool_decide_eq_true_2 by lra. reflexivity.
Qed.

Lemma material_data_has_all_files_witness :
  (forall mat i,
     mat ∈ material_list -> (0 <= i <= 5)%Z ->
     material_data fresh_engine !! (mat +:+ "_" +:+ pretty i)%string
     = Some (material_file (Externals := demo_ext) ((mat +:+ "_" +:+ pretty i) +:+ "_mm")%string)) /\
  (forall key data,
     material_data fresh_engine !! key = Some data ->
     exists mat i,
       mat ∈ material_list /\ (0 <= i <= 5)%Z /\
       key = (mat +:+ "_" +:+ pretty i)%string /\
       data = material_file (Externals := demo_ext) (key +:+ "_mm")%string).
Proof.
  exact (material_data_has_all_files (ext := demo_ext) 0.5 true false None false wood_medium
           fresh_engine init_fresh).
Defined.

Lemma registry_materials_are_loaded_witness :
  is_Some (material_data fresh_engine !! get_floor_material_name fresh_engine) /\
  (forall audio,
     (0 <= oas_size audio <= 5)%Z ->
     is_Some (material_data fresh_engine !! material_key audio)).
Proof.
  exact (registry_materials_are_loaded (ext := demo_ext) 0.5 true false None false wood_medium
           fresh_engine init_fresh).
Defined.

(** ** Modes *)

Lemma sampled_modes_within_bounds_witness :
  length (frequencies demo_modes) = 10%nat /\ length (powers demo_modes) = 10%nat /\
  length (decay_times demo_modes) = 10%nat /\
  Forall (fun f => 20 <= f) (frequencies demo_modes) /\
  Forall (fun t => 1 <= t) (decay_times demo_modes).
Proof.
  apply (sampled_modes_within_bounds (ext := demo_ext) 1 fresh_engine "plastic_hard_1" tt
           demo_modes tt).
  apply demo_get_object_modes. apply fresh_material. left.
Defined.

Lemma odd_material (material : string) :
  material ∈ ["plastic_hard_9"; "wood_medium_9"]%string ->
  material_data fresh_engine !! material = None.
Proof.
  intros Hin. repeat (apply elem_of_cons in Hin as [->|Hin]; [reflexivity|]).
  by apply elem_of_nil in Hin.
Qed.

Lemma unknown_material_raises_KeyError_witness :
  get_sound (ext := demo_ext) 1 fresh_engine tt odd_args
  = Raise (KeyError (KStr "wood_medium_9")).
Proof.
  destruct (unknown_material_raises_KeyError (ext := demo_ext) 1 fresh_engine tt odd_args)
    as [Hsecondary _].
  - cbn. lra.
  - unfold get_info. cbn. by rewrite lookup_empty.
  - apply Hsecondary. apply odd_material. right. left.
Defined.

(** ** Runs in two processes *)

Lemma set_order_remove_dups : set_order remove_dups.
Proof. intros l. split; [apply NoDup_remove_dups | intros m; apply elem_of_remove_dups]. Qed.

Lemma set_order_reversed : set_order reversed_order.
Proof.
  intros l. unfold reversed_order. split.
  - rewrite reverse_Permutation. apply NoDup_remove_dups.
  - intros m. rewrite elem_of_reverse. apply elem_of_remove_dups.
Qed.



(** With a tie, the material of a derived object follows the iteration
    order: two runs over [tie_frame] that differ in the order only leave
    two registries, in which object 3 is of wood in one and of metal in
    the other. *)
Lemma set_order_counterexample :
  set_order remove_dups /\ set_order reversed_order /\
  exists e1 e2 o1 o2,
    run (ext := with_set_iter demo_ext remove_dups) 1 (tie_engine, tt, 0%Z, []) [tie_frame]
    = Done (e1, tt, 0%Z, []) /\
    run (ext := with_set_iter demo_ext reversed_order) 1 (tie_engine, tt, 0%Z, []) [tie_frame]
    = Done (e2, tt, 0%Z, []) /\
    dget 3%Z (static_audio_data e1) = Some o1 /\ oas_material o1 = wood_hard /\
    dget 3%Z (static_audio_data e2) = Some o2 /\ oas_material o2 = metal.
Proof.
  split; [apply set_order_remove_dups|]. split; [apply set_order_reversed|].
  eexists _, _, _, _. split_and!; reflexivity.
Qed.

(** ** Objects that the frame does not register *)

Lemma cache_stranger_first_frame :
  exists e1,
    cache_static_data (ext := demo_ext) (set_cached_audio_info true fresh_engine)
      stranger_first_frame = Done e1.
Proof. eexists. reflexivity. Qed.

Lemma unknown_object_raises_KeyError_witness :
  (exists k,
     get_collision_types (ext := demo_ext) box_engine stranger_frame = Raise (KeyError k) /\
     on_send (ext := demo_ext) 1 (box_engine, tt, 0%Z, []) stranger_frame
     = Raise (KeyError k)) /\
  (exists k1,
     on_send (ext := demo_ext) 1 (fresh_engine, tt, 0%Z, []) stranger_first_frame
     = Raise (KeyError k1)).
Proof.
  split.
  - destruct (unknown_object_raises_KeyError (ext := demo_ext) 1 box_engine tt 0%Z []
                stranger_frame
                (Enco (mkEnvironmentCollision 7 "enter" [(0, 0, 0)] [(0, 1, 0)] true)) 7%Z)
      as (k & Hg & Hcached & _).
    + right. right. left.
    + left.
    + reflexivity.
    + exists k. split; [exact Hg|]. exact (Hcached eq_refl).
  - destruct cache_stranger_first_frame as [e1 Hcache].
    destruct (unknown_object_raises_KeyError (ext := demo_ext) 1 fresh_engine tt 0%Z []
                stranger_first_frame
                (Enco (mkEnvironmentCollision 7 "enter" [(0, 0, 0)] [(0, 1, 0)] true)) 7%Z)
      as (_ & _ & _ & Hfirst).
    + do 4 right. left.
    + left.
    + reflexivity.
    + exact (Hfirst eq_refl eq_refl eq_refl e1 Hcache).
Defined.
